(** * tiny-tfidf: BM25 term weighting over an in-memory corpus

    A shallow embedding of [Document.js], [TextDocument.js], [Stopwords.js],
    [defaultStopwords.js] and [Corpus.js], followed by the properties of the
    specification that were checked against them.  [Similarity.js] is not
    among the sources; its two operations are modelled from the specification.

    Conventions of the embedding.
    - A JavaScript string is its sequence of UTF-16 code units ([jsstring]).
    - A JavaScript [Map] is an insertion-ordered association list with unique
      keys ([JsMap]); [set] on a present key keeps the key's position.
    - Counts (term frequencies, collection frequencies, lengths, sizes) are
      natural numbers.  Weights are real numbers: [Math.log] is [ln], and
      rounding, [NaN] and the infinities of IEEE doubles are outside the model.
    - A thrown exception is the [Throw] case of [result].
    - The memo fields of [Corpus] are explicit state: every method is a state
      transformer that may fill them.  The memo field of [Document] is a pure
      function of the word list, which the library never mutates, and is
      recomputed on each use. *)

From Stdlib Require Import List Bool Arith NArith Lia String Ascii.
From Stdlib Require Import Permutation Sorted.
From Stdlib Require Import Reals Lra.
Import ListNotations.

Set Implicit Arguments.

(** ** JavaScript values *)

Definition jsstring := list N.

(** Literal helper: an ASCII literal as code units. *)
Definition js (s : string) : jsstring :=
  List.map N_of_ascii (list_ascii_of_string s).

Fixpoint jsstring_eqb (a b : jsstring) : bool :=
  match a, b with
  | [], [] => true
  | x :: a', y :: b' => N.eqb x y && jsstring_eqb a' b'
  | _, _ => false
  end.

Inductive exn : Type :=
| Error (message : string)
| TypeError.

Inductive result (A : Type) : Type :=
| Ok (a : A)
| Throw (e : exn).

Arguments Ok {A} a.
Arguments Throw {A} e.

Definition result_bind {A B} (r : result A) (k : A -> result B) : result B :=
  match r with
  | Ok a => k a
  | Throw e => Throw e
  end.

(** [xs.map(f)] where the callback may throw: stops at the first exception. *)
Fixpoint mapR {A B} (f : A -> result B) (xs : list A) : result (list B) :=
  match xs with
  | [] => Ok []
  | x :: xs' =>
      result_bind (f x) (fun y =>
      result_bind (mapR f xs') (fun ys => Ok (y :: ys)))
  end.

(** Values a caller may pass where the code tests [typeof x === 'string']. *)
Inductive jsvalue : Type :=
| VString (s : jsstring)
| VNumber (x : R)
| VBoolean (b : bool)
| VNull
| VUndefined.

(** ** [Map]: insertion-ordered association list *)

Module JsMap.

Definition t (V : Type) := list (jsstring * V).

Definition empty {V} : t V := [].

Fixpoint get {V} (k : jsstring) (m : t V) : option V :=
  match m with
  | [] => None
  | (k', v) :: m' => if jsstring_eqb k k' then Some v else get k m'
  end.

Definition has {V} (k : jsstring) (m : t V) : bool :=
  match get k m with
  | Some _ => true
  | None => false
  end.

Fixpoint set {V} (k : jsstring) (v : V) (m : t V) : t V :=
  match m with
  | [] => [(k, v)]
  | (k', v') :: m' =>
      if jsstring_eqb k k' then (k', v) :: m' else (k', v') :: set k v m'
  end.

Definition keys {V} (m : t V) : list jsstring := List.map fst m.
Definition values {V} (m : t V) : list V := List.map snd m.
Definition entries {V} (m : t V) : list (jsstring * V) := m.
Definition size {V} (m : t V) : nat := List.length m.

(** [new Map(iterable)] *)
Definition of_entries {V} (kvs : list (jsstring * V)) : t V :=
  fold_left (fun m kv => set (fst kv) (snd kv) m) kvs empty.

End JsMap.

(** ** [Set]: insertion-ordered list without repetition *)

Module JsSet.

Definition t := list jsstring.

Definition has (k : jsstring) (s : t) : bool := existsb (jsstring_eqb k) s.

Definition add (k : jsstring) (s : t) : t := if has k s then s else s ++ [k].

(** [new Set(iterable)] *)
Definition of_list (ks : list jsstring) : t := fold_left (fun s k => add k s) ks [].

End JsSet.

(** ** Document.js *)

Module Document.

(** [_text] is only present on a [TextDocument]. *)
Record t := mk {
  _words : list jsstring;
  _text : option jsstring
}.

(** [new Document(words)] *)
Definition new (words : list jsstring) : t := mk words None.

Definition _calculateTermFrequencies (d : t) : JsMap.t nat :=
  fold_left
    (fun freqs word =>
       match JsMap.get word freqs with
       | Some n => JsMap.set word (n + 1) freqs
       | None => JsMap.set word 1 freqs
       end)
    (_words d) JsMap.empty.

Definition getTermFrequency (term : jsstring) (d : t) : nat :=
  match JsMap.get term (_calculateTermFrequencies d) with
  | Some tf => tf
  | None => 0
  end.

Definition getLength (d : t) : nat := List.length (_words d).

Definition getUniqueTerms (d : t) : list jsstring :=
  JsMap.keys (_calculateTermFrequencies d).

End Document.

(** ** TextDocument.js *)

Module TextDocument.

Definition in_range (lo hi c : N) : bool := N.leb lo c && N.leb c hi.

(** The character class [[a-zA-ZÀ-ÖØ-öø-ÿ]]. *)
Definition isLetter (c : N) : bool :=
  in_range 97 122 c || in_range 65 90 c || in_range 192 214 c
  || in_range 216 246 c || in_range 248 255 c.

(** [\d] *)
Definition isDigit (c : N) : bool := in_range 48 57 c.

(** Maximal runs of letters, left to right; [cur] is the run being read,
    most recent code unit first. *)
Fixpoint letterRuns (text : jsstring) (cur : jsstring) : list jsstring :=
  match text with
  | [] => match cur with [] => [] | _ => [List.rev cur] end
  | c :: rest =>
      if isLetter c then letterRuns rest (c :: cur)
      else match cur with
           | [] => letterRuns rest []
           | _ => List.rev cur :: letterRuns rest []
           end
  end.

(** [text.match(/[a-zA-ZÀ-ÖØ-öø-ÿ]+/g)]: [null] when nothing matches. *)
Definition matchLetters (text : jsstring) : option (list jsstring) :=
  match letterRuns text [] with
  | [] => None
  | ws => Some ws
  end.

(** [word.match(/^\d/)] as a truth value. *)
Definition startsWithDigit (word : jsstring) : bool :=
  match word with
  | c :: _ => isDigit c
  | [] => false
  end.

(** [toLowerCase] on the code units the character class admits: the
    upper-case ranges A-Z, À-Ö and Ø-Þ move up by 32. *)
Definition lowerUnit (c : N) : N :=
  if in_range 65 90 c || in_range 192 214 c || in_range 216 222 c
  then (c + 32)%N else c.

Definition toLowerCase (word : jsstring) : jsstring := List.map lowerUnit word.

Definition keepWord (word : jsstring) : bool :=
  if (List.length word <? 2) || startsWithDigit word then false else true.

(** [new TextDocument(text)]; calling [.filter] on [null] is a [TypeError]. *)
Definition new (text : jsstring) : result Document.t :=
  match matchLetters text with
  | None => Throw TypeError
  | Some matched =>
      Ok (Document.mk (List.map toLowerCase (List.filter keepWord matched))
                      (Some text))
  end.

Inductive textOrDocument : Type :=
| Text (s : jsstring)
| Doc (d : Document.t).

(** [TextDocument.from] *)
Definition from (x : textOrDocument) : result Document.t :=
  match x with
  | Doc d => Ok d
  | Text s => new s
  end.

Definition getText (d : Document.t) : option jsstring := Document._text d.

End TextDocument.

(** ** Stopwords.js *)

Module Stopwords.

Record t := mk { _stopwords : JsSet.t }.

Definition new (terms : list jsstring) : t := mk (JsSet.of_list terms).

Inductive arg : Type :=
| Instance (s : t)
| Terms (terms : list jsstring).

(** [Stopwords.from]; [None] is [undefined]. *)
Definition from (stopwordsOrTerms : option arg) : t :=
  match stopwordsOrTerms with
  | None => new []
  | Some (Instance s) => s
  | Some (Terms terms) => new terms
  end.

Definition with_ (additionalStopwords : list jsstring) (s : t) : t :=
  new (_stopwords s ++ additionalStopwords).

Definition includes (word : jsstring) (s : t) : bool :=
  JsSet.has word (_stopwords s).

Definition getStopwordList (s : t) : list jsstring := _stopwords s.

End Stopwords.

(** ** defaultStopwords.js *)

Definition defaultStopwordTerms : list jsstring :=
  List.map js
    [ "me"; "my"; "myself"; "we"; "our"; "ours"; "ourselves"; "you"; "your";
      "yours"; "yourself"; "yourselves"; "he"; "him"; "his"; "himself"; "she";
      "her"; "hers"; "herself"; "it"; "its"; "itself"; "they"; "them"; "their";
      "theirs"; "themselves"; "what"; "which"; "who"; "whom"; "this"; "that";
      "these"; "those"; "am"; "is"; "are"; "was"; "were"; "be"; "been";
      "being"; "have"; "has"; "had"; "having"; "do"; "does"; "did"; "doing";
      "an"; "the"; "and"; "but"; "if"; "or"; "because"; "as"; "until"; "while";
      "of"; "at"; "by"; "for"; "with"; "about"; "against"; "between"; "into";
      "through"; "during"; "before"; "after"; "above"; "below"; "to"; "from";
      "up"; "down"; "in"; "out"; "on"; "off"; "over"; "under"; "again";
      "further"; "then"; "once"; "here"; "there"; "when"; "where"; "why"; "how";
      "all"; "any"; "both"; "each"; "few"; "more"; "most"; "other"; "some";
      "such"; "no"; "nor"; "not"; "only"; "own"; "same"; "so"; "than"; "too";
      "very"; "can"; "will"; "just"; "don"; "could"; "should"; "would"; "now";
      "ll"; "re"; "ve"; "aren"; "couldn"; "didn"; "doesn"; "hadn"; "hasn";
      "haven"; "isn"; "mustn"; "needn"; "shouldn"; "wasn"; "weren"; "won";
      "wouldn" ]%string.

Definition defaultStopwords : Stopwords.t := Stopwords.new defaultStopwordTerms.

(** ** Array helpers over real-valued scores *)

(** [x > 0] on numbers. *)
Definition positive (x : R) : bool := if Rlt_dec 0 x then true else false.

(** Truthiness of a number: zero is falsy. *)
Definition truthy (x : R) : bool := if Req_dec_T x 0 then false else true.

(** [arr.sort(compare)]: the stable sort (ECMAScript 2019).  [x] moves past
    [y] only when [compare(x, y) > 0]. *)
Fixpoint insertBy {A} (compare : A -> A -> R) (x : A) (sorted : list A) : list A :=
  match sorted with
  | [] => [x]
  | y :: rest =>
      if positive (compare x y) then y :: insertBy compare x rest
      else x :: sorted
  end.

Definition sortBy {A} (compare : A -> A -> R) (arr : list A) : list A :=
  fold_right (insertBy compare) [] arr.

(** The comparator [(a, b) => b[1] - a[1]]. *)
Definition byScoreDesc {A} (a b : A * R) : R := (snd b - snd a)%R.

(** ** Corpus.js *)

Module Corpus.

Record CorpusOptions := mkOptions {
  stopwords : option Stopwords.arg;
  K1 : option R;
  b : option R
}.

(** [defaultOptions]; an empty array of stopwords. *)
Definition defaultStopwordsOption : Stopwords.arg := Stopwords.Terms [].
Definition defaultK1 : R := 2%R.
Definition defaultB : R := (3 / 4)%R.

Record t := mk {
  _stopwords : Stopwords.t;
  _K1 : R;
  _b : R;
  _documents : JsMap.t Document.t;
  _collectionFrequencies : option (JsMap.t nat);
  _collectionFrequencyWeights : option (JsMap.t R);
  _documentVectors : option (JsMap.t (JsMap.t R))
}.

(** *** Methods as state transformers over the corpus object *)

Definition M (A : Type) : Type := t -> result A * t.

Definition ret {A} (a : A) : M A := fun c => (Ok a, c).

Definition throw {A} (e : exn) : M A := fun c => (Throw e, c).

Definition bind {A B} (m : M A) (k : A -> M B) : M B :=
  fun c =>
    match m c with
    | (Ok a, c') => k a c'
    | (Throw e, c') => (Throw e, c')
    end.

Definition read {A} (field : t -> A) : M A := fun c => (Ok (field c), c).

Definition lift {A} (r : result A) : M A := fun c => (r, c).

Declare Scope corpus_scope.
Delimit Scope corpus_scope with corpus.
Notation "x <- m ;; k" := (bind m (fun x => k))
  (at level 61, m at next level, right associativity) : corpus_scope.
Notation "m ;; k" := (bind m (fun _ => k))
  (at level 61, right associativity) : corpus_scope.
Local Open Scope corpus_scope.

(** [xs.map(f)] with a callback that uses the corpus. *)
Fixpoint mapM {A B} (f : A -> M B) (xs : list A) : M (list B) :=
  match xs with
  | [] => ret []
  | x :: xs' => y <- f x ;; ys <- mapM f xs' ;; ret (y :: ys)
  end.

(** Dereferencing a memo field that still holds [null]. *)
Definition deref {A} (field : t -> option A) : M A :=
  o <- read field ;;
  match o with
  | Some a => ret a
  | None => throw TypeError
  end.

(** [if (!this.field) { calculate }] *)
Definition unlessPresent {A} (field : t -> option A) (calculate : M unit) : M unit :=
  o <- read field ;;
  match o with
  | Some _ => ret tt
  | None => calculate
  end.

(** *** Construction *)

(** [new Corpus(documents, options)]; [{ ...defaultOptions, ...options }]. *)
Definition new (documents : list (jsstring * Document.t))
               (options : option CorpusOptions) : t :=
  let configStopwords :=
    match options with
    | Some (mkOptions (Some s) _ _) => s
    | _ => defaultStopwordsOption
    end in
  let configK1 :=
    match options with
    | Some (mkOptions _ (Some k) _) => k
    | _ => defaultK1
    end in
  let configB :=
    match options with
    | Some (mkOptions _ _ (Some v)) => v
    | _ => defaultB
    end in
  mk (Stopwords.from (Some configStopwords)) configK1 configB
     (JsMap.of_entries documents) None None None.

(** One step of the generator [toKvps] inside [fromKvps]. *)
Definition convert (kv : jsstring * TextDocument.textOrDocument)
  : result (jsstring * Document.t) :=
  result_bind (TextDocument.from (snd kv)) (fun d => Ok (fst kv, d)).

(** [Corpus.fromKvps]: the generator converts each value while the
    constructor's [new Map] consumes it, so the first failing conversion
    aborts the construction. *)
Definition fromKvps (documentKvps : list (jsstring * TextDocument.textOrDocument))
                    (options : option CorpusOptions) : result t :=
  result_bind (mapR convert documentKvps)
              (fun documents => Ok (new documents options)).

(** [Corpus.from] *)
Definition from (names : list jsstring) (texts : list jsstring)
                (options : option CorpusOptions) : result t :=
  if negb (List.length names =? List.length texts) then
    Throw (Error "expected `names` to have same length as `texts`")
  else
    fromKvps (List.combine names (List.map TextDocument.Text texts)) options.

(** *** Writing the memo fields *)

Definition setCollectionFrequencies (m : JsMap.t nat) : M unit :=
  fun c => (Ok tt, mk (_stopwords c) (_K1 c) (_b c) (_documents c)
                      (Some m) (_collectionFrequencyWeights c) (_documentVectors c)).

Definition setCollectionFrequencyWeights (m : JsMap.t R) : M unit :=
  fun c => (Ok tt, mk (_stopwords c) (_K1 c) (_b c) (_documents c)
                      (_collectionFrequencies c) (Some m) (_documentVectors c)).

Definition setDocumentVectors (m : JsMap.t (JsMap.t R)) : M unit :=
  fun c => (Ok tt, mk (_stopwords c) (_K1 c) (_b c) (_documents c)
                      (_collectionFrequencies c) (_collectionFrequencyWeights c)
                      (Some m)).

(** *** Collection frequencies *)

(** The [forEach] body: [has] and [get] agree, so the test and the read are
    one [match]. *)
Definition countTerm (freqs : JsMap.t nat) (term : jsstring) : JsMap.t nat :=
  match JsMap.get term freqs with
  | Some n => JsMap.set term (n + 1) freqs
  | None => JsMap.set term 1 freqs
  end.

(** One iteration of the loop over the documents. *)
Definition countDocument (sw : Stopwords.t) (freqs : JsMap.t nat)
                         (document : Document.t) : JsMap.t nat :=
  fold_left countTerm
    (List.filter (fun term => negb (Stopwords.includes term sw))
                 (Document.getUniqueTerms document))
    freqs.

Definition _calculateCollectionFrequencies : M unit :=
  sw <- read _stopwords ;;
  documents <- read _documents ;;
  setCollectionFrequencies
    (fold_left (countDocument sw) (JsMap.values documents) JsMap.empty).

Definition getTerms : M (list jsstring) :=
  unlessPresent _collectionFrequencies _calculateCollectionFrequencies ;;
  freqs <- deref _collectionFrequencies ;;
  ret (JsMap.keys freqs).

Definition getCollectionFrequency (term : jsstring) : M nat :=
  unlessPresent _collectionFrequencies _calculateCollectionFrequencies ;;
  freqs <- deref _collectionFrequencies ;;
  ret (match JsMap.get term freqs with
       | Some cf => cf
       | None => 0
       end).

(** [undefined] is [None]. *)
Definition getDocument (identifier : jsstring) : M (option Document.t) :=
  documents <- read _documents ;;
  ret (JsMap.get identifier documents).

Definition getDocumentIdentifiers : M (list jsstring) :=
  documents <- read _documents ;;
  ret (JsMap.keys documents).

(** *** Collection frequency weights *)

(** [Math.log(N + 1) - Math.log(n)] *)
Definition idfOf (N n : nat) : R := (ln (INR N + 1) - ln (INR n))%R.

Definition _calculateCollectionFrequencyWeights : M unit :=
  unlessPresent _collectionFrequencies _calculateCollectionFrequencies ;;
  documents <- read _documents ;;
  let N := JsMap.size documents in
  freqs <- deref _collectionFrequencies ;;
  setCollectionFrequencyWeights
    (fold_left (fun weights entry =>
                  JsMap.set (fst entry) (idfOf N (snd entry)) weights)
               (JsMap.entries freqs) JsMap.empty).

(** [null] is [None]. *)
Definition getCollectionFrequencyWeight (term : jsstring) : M (option R) :=
  unlessPresent _collectionFrequencyWeights _calculateCollectionFrequencyWeights ;;
  weights <- deref _collectionFrequencyWeights ;;
  ret (JsMap.get term weights).

(** *** Document vectors *)

(** [tf ? (idf * tf * (K1 + 1)) / (K1 * (1 - b + b * ndl) + tf) : 0.0] *)
Definition combinedWeight (K1 b ndl idf : R) (tf : nat) : R :=
  if tf =? 0 then 0%R
  else ((idf * INR tf * (K1 + 1)) / (K1 * (1 - b + b * ndl) + INR tf))%R.

(** The inner loop over the weighted vocabulary, for one document. *)
Definition vectorOf (K1 b avgLength : R) (weights : JsMap.t R)
                    (document : Document.t) : JsMap.t R :=
  let ndl := (INR (Document.getLength document) / avgLength)%R in
  fold_left (fun vector entry =>
               let tf := Document.getTermFrequency (fst entry) document in
               JsMap.set (fst entry) (combinedWeight K1 b ndl (snd entry) tf) vector)
            (JsMap.entries weights) JsMap.empty.

(** [documents.map(d => d.getLength()).reduce((a, b) => a + b, 0)] *)
Definition totalLengthOf (documents : JsMap.t Document.t) : nat :=
  fold_left (fun a b => a + b)
            (List.map Document.getLength (JsMap.values documents)) 0.

Definition _calculateDocumentVectors : M unit :=
  unlessPresent _collectionFrequencyWeights _calculateCollectionFrequencyWeights ;;
  K1 <- read _K1 ;;
  b <- read _b ;;
  documents <- read _documents ;;
  let totalLength := totalLengthOf documents in
  let avgLength := (INR totalLength / INR (JsMap.size documents))%R in
  weights <- deref _collectionFrequencyWeights ;;
  setDocumentVectors
    (fold_left (fun vectors entry =>
                  JsMap.set (fst entry) (vectorOf K1 b avgLength weights (snd entry))
                            vectors)
               (JsMap.entries documents) JsMap.empty).

(** [undefined] is [None]. *)
Definition getDocumentVector (identifier : jsstring) : M (option (JsMap.t R)) :=
  unlessPresent _documentVectors _calculateDocumentVectors ;;
  vectors <- deref _documentVectors ;;
  ret (JsMap.get identifier vectors).

(** *** Queries *)

(** [cw * vector2.get(term)]: a product with [undefined] is [NaN], which is
    [None] here. *)
Definition timesLookup (cw : R) (other : option R) : option R :=
  match other with
  | Some w => Some (cw * w)%R
  | None => None
  end.

(** One step of [.filter(d => d[1] > 0)]: [NaN > 0] is false. *)
Definition keepPositive (entry : jsstring * option R) : list (jsstring * R) :=
  match snd entry with
  | Some score => if positive score then [(fst entry, score)] else []
  | None => []
  end.

(** [maxTerms = 10]: [None] is an omitted argument. *)
Definition getCommonTerms (identifier1 identifier2 : jsstring)
                          (maxTerms : option nat) : M (list (jsstring * R)) :=
  let maxTerms := match maxTerms with Some n => n | None => 10 end in
  vector1 <- getDocumentVector identifier1 ;;
  vector2 <- getDocumentVector identifier2 ;;
  match vector1 with
  | None => throw TypeError
  | Some v1 =>
      products <-
        lift (mapR (fun entry =>
                      match vector2 with
                      | None => Throw TypeError
                      | Some v2 =>
                          Ok (fst entry,
                              timesLookup (snd entry) (JsMap.get (fst entry) v2))
                      end)
                   (JsMap.entries v1)) ;;
      let commonTerms := List.flat_map keepPositive products in
      ret (List.firstn maxTerms (sortBy byScoreDesc commonTerms))
  end.

(** [maxTerms = 30] *)
Definition getTopTermsForDocument (identifier : jsstring)
                                  (maxTerms : option nat) : M (list (jsstring * R)) :=
  let maxTerms := match maxTerms with Some n => n | None => 30 end in
  vector <- getDocumentVector identifier ;;
  match vector with
  | None => ret []
  | Some v =>
      let sortedTerms :=
        sortBy byScoreDesc
               (List.filter (fun d => positive (snd d)) (JsMap.entries v)) in
      ret (List.firstn maxTerms sortedTerms)
  end.

Definition _queryToUniqueTerms (query : jsvalue) : result (list jsstring) :=
  match query with
  | VString s =>
      if 0 <? List.length s then
        result_bind (TextDocument.new s) (fun d => Ok (Document.getUniqueTerms d))
      else Ok []
  | _ => Ok []
  end.

(** The [terms.forEach] loop of one document, starting from [score = 0.0];
    reading a term from an [undefined] vector is a [TypeError]. *)
Definition scoreOf (vector : option (JsMap.t R)) (terms : list jsstring) : result R :=
  fold_left
    (fun acc term =>
       result_bind acc (fun score =>
         match vector with
         | None => Throw TypeError
         | Some v =>
             match JsMap.get term v with
             | Some weight =>
                 if truthy weight then Ok (score + weight)%R else Ok score
             | None => Ok score
             end
         end))
    terms (Ok 0%R).

Definition getResultsForQuery (query : jsvalue) : M (list (jsstring * R)) :=
  terms <- lift (_queryToUniqueTerms query) ;;
  if List.length terms =? 0 then ret []
  else
    identifiers <- getDocumentIdentifiers ;;
    scores <- mapM (fun d =>
                      vector <- getDocumentVector d ;;
                      score <- lift (scoreOf vector terms) ;;
                      ret (d, score))
                   identifiers ;;
    ret (sortBy byScoreDesc (List.filter (fun d => positive (snd d)) scores)).

Definition getStopwords : M Stopwords.t := read _stopwords.

(** *** Running a method *)

Definition run {A} (m : M A) (c : t) : result A := fst (m c).
Definition after {A} (m : M A) (c : t) : t := snd (m c).

End Corpus.

(** ** Term-weight vectors *)

(** The weight a vector assigns to a term; a term without an entry weighs
    nothing. *)
Definition weightAt (vector : JsMap.t R) (term : jsstring) : R :=
  match JsMap.get term vector with
  | Some w => w
  | None => 0%R
  end.

(** The sum of [f term] over a list of terms. *)
Definition sumOver (terms : list jsstring) (f : jsstring -> R) : R :=
  fold_right (fun term acc => (f term + acc)%R) 0%R terms.

(** ** Similarity *)

Module Similarity.

Import Corpus.
Local Open Scope corpus_scope.

(** The terms a vector assigns a non-zero weight. *)
Definition support (vector : JsMap.t R) : list jsstring :=
  JsMap.keys (List.filter (fun entry => truthy (snd entry)) (JsMap.entries vector)).

(** The union of the terms either vector assigns a non-zero weight. *)
Definition termUnion (vectorA vectorB : JsMap.t R) : list jsstring :=
  support vectorA
  ++ List.filter (fun term => negb (JsSet.has term (support vectorA)))
                 (support vectorB).

Definition dot (terms : list jsstring) (vectorA vectorB : JsMap.t R) : R :=
  sumOver terms (fun term => (weightAt vectorA term * weightAt vectorB term)%R).

Definition norm (terms : list jsstring) (vector : JsMap.t R) : R :=
  sqrt (sumOver terms (fun term => (weightAt vector term * weightAt vector term)%R)).

(** Modelled from the spec: [Similarity.cosineSimilarity], whose source file
    (Similarity.js) is absent.  The cosine of the angle between two
    term-weight vectors, restricted to the union of the terms either vector
    assigns a non-zero weight: [dot(A,B) / (|A| * |B|)], and 0 when either
    norm is 0. *)
Definition cosineSimilarity (vectorA vectorB : JsMap.t R) : R :=
  let terms := termUnion vectorA vectorB in
  let normA := norm terms vectorA in
  let normB := norm terms vectorB in
  if truthy normA && truthy normB
  then (dot terms vectorA vectorB / (normA * normB))%R
  else 0%R.

Record DistanceMatrix := mkDistanceMatrix {
  identifiers : list jsstring;
  matrix : list (list R)
}.

(** The vectors with their row (and column) index. *)
Definition indexed {A} (l : list A) : list (nat * A) :=
  List.combine (List.seq 0 (List.length l)) l.

(** Modelled from the spec: the entries of the matrix of
    [Similarity.getDistanceMatrix], whose source file (Similarity.js) is
    absent.  The diagonal is zero by construction; every other entry is
    [matrix[i][j] = 1 - cosineSimilarity(vector(identifiers[i]), vector(identifiers[j]))]. *)
Definition distanceRows (vectors : list (JsMap.t R)) : list (list R) :=
  List.map (fun row =>
              List.map (fun column =>
                          if fst row =? fst column then 0%R
                          else (1 - cosineSimilarity (snd row) (snd column))%R)
                       (indexed vectors))
           (indexed vectors).

(** Modelled from the spec: [Similarity.getDistanceMatrix], whose source file
    (Similarity.js) is absent.  [identifiers] is the corpus's list of
    document identifiers, in the order of the rows and columns of [matrix]. *)
Definition getDistanceMatrix : M DistanceMatrix :=
  ids <- getDocumentIdentifiers ;;
  vectors <- mapM (fun d =>
                     vector <- getDocumentVector d ;;
                     match vector with
                     | Some v => ret v
                     | None => throw TypeError
                     end)
                  ids ;;
  ret (mkDistanceMatrix ids (distanceRows vectors)).

End Similarity.

(** ** The corpus of the test suite *)

Definition docsByKvp : list (jsstring * TextDocument.textOrDocument) :=
  [ (js "document1",
     TextDocument.Text
       (js "This is test document number 1. It is quite a short document."));
    (js "document2",
     TextDocument.Text
       (js "This is test document 2. It is also quite short, and is a test."));
    (js "document3",
     TextDocument.Text
       (js "Test document number three is a bit different and is also a tiny bit longer.")) ].

Definition commonOptions : Corpus.CorpusOptions :=
  Corpus.mkOptions (Some (Stopwords.Instance defaultStopwords)) None None.

(** ** What the memo fields hold

    The corpus never changes its documents, stopwords or tuning constants, so
    each memo field, once filled, holds a fixed function of them. *)

Module CorpusState.

Import Corpus.

Definition getOr0 (term : jsstring) (freqs : JsMap.t nat) : nat :=
  match JsMap.get term freqs with
  | Some n => n
  | None => 0
  end.

Definition frequenciesOf (c : t) : JsMap.t nat :=
  fold_left (countDocument (_stopwords c)) (JsMap.values (_documents c)) JsMap.empty.

Definition weightsOf (c : t) : JsMap.t R :=
  fold_left (fun weights entry =>
               JsMap.set (fst entry)
                         (idfOf (JsMap.size (_documents c)) (snd entry)) weights)
            (JsMap.entries (frequenciesOf c)) JsMap.empty.

Definition avgLengthOf (c : t) : R :=
  (INR (totalLengthOf (_documents c)) / INR (JsMap.size (_documents c)))%R.

Definition vectorsOf (c : t) : JsMap.t (JsMap.t R) :=
  fold_left (fun vectors entry =>
               JsMap.set (fst entry)
                         (vectorOf (_K1 c) (_b c) (avgLengthOf c) (weightsOf c)
                                   (snd entry))
                         vectors)
            (JsMap.entries (_documents c)) JsMap.empty.

(** The vector [_calculateDocumentVectors] stores for a document. *)
Definition vectorFor (c : t) (document : Document.t) : JsMap.t R :=
  vectorOf (_K1 c) (_b c) (avgLengthOf c) (weightsOf c) document.

(** The fields fixed at construction. *)
Definition base (c : t) : Stopwords.t * R * R * JsMap.t Document.t :=
  (_stopwords c, _K1 c, _b c, _documents c).

(** The invariant of every corpus object: the document map has unique keys
    and a filled memo field holds the value its [_calculate] method stores. *)
Definition valid (c : t) : Prop :=
  NoDup (JsMap.keys (_documents c))
  /\ (forall m, _collectionFrequencies c = Some m -> m = frequenciesOf c)
  /\ (forall m, _collectionFrequencyWeights c = Some m -> m = weightsOf c)
  /\ (forall m, _documentVectors c = Some m -> m = vectorsOf c).

(** A method call that returns [v] and leaves a valid corpus with the same
    documents and options. *)
Definition returns {A} (m : M A) (c : t) (v : A) : Prop :=
  exists c', m c = (Ok v, c') /\ base c' = base c /\ valid c'.

(** The BM25 weight the specification gives for a term of a document. *)
Definition bm25 (c : t) (document : Document.t) (term : jsstring) (idf : R) : R :=
  let tf := Document.getTermFrequency term document in
  let ndl := (INR (Document.getLength document) / avgLengthOf c)%R in
  if tf =? 0 then 0%R
  else (idf * INR tf * (_K1 c + 1) / (_K1 c * (1 - _b c + _b c * ndl) + INR tf))%R.

End CorpusState.

(** ** Predicates used by the properties *)

(** How often a term occurs in a token sequence. *)
Definition occurrences (term : jsstring) (ws : list jsstring) : nat :=
  List.length (List.filter (jsstring_eqb term) ws).

(** A string without any code unit of the tokenizer's character class. *)
Definition hasNoLetter (text : jsstring) : bool :=
  List.forallb (fun c => negb (TextDocument.isLetter c)) text.

(** The message of the exception [Corpus.from] throws on arrays of unequal
    length. *)
Definition lengthMismatch : exn :=
  Error "expected `names` to have same length as `texts`".


(** The number of documents whose set of unique terms contains a term. *)
Definition documentsContaining (term : jsstring) (documents : list Document.t) : nat :=
  List.length
    (List.filter (fun d => JsSet.has term (Document.getUniqueTerms d)) documents).

(** The corpus the test suite builds with [Corpus.fromKvps(docsByKvp, commonOptions)]. *)
Definition testCorpus : Corpus.t :=
  match Corpus.fromKvps docsByKvp (Some commonOptions) with
  | Ok c => c
  | Throw _ => Corpus.new [] None
  end.

(** Its documents, by identifier. *)
Definition testDocument (identifier : string) : Document.t :=
  match JsMap.get (js identifier) (Corpus._documents testCorpus) with
  | Some d => d
  | None => Document.new []
  end.

(** The average document length of the specification: the sum of the lengths
    of all documents over their number. *)
Definition averageLength (c : Corpus.t) : R :=
  (INR (list_sum (List.map Document.getLength (JsMap.values (Corpus._documents c))))
   / INR (JsMap.size (Corpus._documents c)))%R.

(** The list [getCommonTerms] computes from two vectors. *)
Definition commonTermsOf (vector1 vector2 : JsMap.t R) (maxTerms : nat)
  : list (jsstring * R) :=
  List.firstn maxTerms
    (sortBy byScoreDesc
       (List.flat_map Corpus.keepPositive
          (List.map (fun entry =>
                       (fst entry,
                        Corpus.timesLookup (snd entry) (JsMap.get (fst entry) vector2)))
                    vector1))).

(** The score of the specification for a document vector and a list of query
    terms: the sum of the weights of the terms. *)
Definition queryScore (vector : JsMap.t R) (terms : list jsstring) : R :=
  sumOver terms (weightAt vector).

(** Descending by score. *)
Definition descending {A} (x y : A * R) : Prop := (snd y <= snd x)%R.

(** The list [getResultsForQuery] computes for a non-empty list of query
    terms. *)
Definition resultsOf (c : Corpus.t) (terms : list jsstring) : list (jsstring * R) :=
  sortBy byScoreDesc
    (List.filter (fun d => positive (snd d))
       (List.map (fun entry =>
                    (fst entry, queryScore (CorpusState.vectorFor c (snd entry)) terms))
                 (Corpus._documents c))).

(** [matrix[i][j]], when both indices are in range. *)
Definition entryAt (dm : Similarity.DistanceMatrix) (i j : nat) : option R :=
  match List.nth_error (Similarity.matrix dm) i with
  | Some row => List.nth_error row j
  | None => None
  end.

(** The distance matrix as a function of the corpus. *)
Definition distanceMatrixOf (c : Corpus.t) : Similarity.DistanceMatrix :=
  let vectors :=
    List.map (fun entry => CorpusState.vectorFor c (snd entry)) (Corpus._documents c) in
  Similarity.mkDistanceMatrix
    (JsMap.keys (Corpus._documents c))
    (Similarity.distanceRows vectors).

(** A corpus with one document of content words and one of stopwords only. *)
Definition stopwordCorpus : Corpus.t :=
  match Corpus.from [js "words"; js "stop"] [js "quite short"; js "the and of"]
                    (Some commonOptions) with
  | Ok c => c
  | Throw _ => Corpus.new [] None
  end.

(** ** src/Stopwords.js, the variant with built-in defaults

    This file keeps the stopwords as the keys of a [Map] to [true] and takes
    the default list through a flag of the constructor. *)

Module StopwordsWithDefaults.

Record t := mk { _stopwords : JsMap.t bool }.

(** [constructor(useDefaultStopwords = true, customStopwords = [])]; [None] is
    an omitted argument. *)
Definition new (useDefaultStopwords : option bool)
               (customStopwords : option (list jsstring)) : t :=
  let useDefaultStopwords :=
    match useDefaultStopwords with Some u => u | None => true end in
  let customStopwords :=
    match customStopwords with Some l => l | None => [] end in
  let stopwords :=
    if useDefaultStopwords then customStopwords ++ defaultStopwordTerms
    else customStopwords in
  mk (JsMap.of_entries (List.map (fun d => (d, true)) stopwords)).

Definition includes (word : jsstring) (s : t) : bool :=
  JsMap.has word (_stopwords s).

Definition getStopwordList (s : t) : list jsstring := JsMap.keys (_stopwords s).

End StopwordsWithDefaults.

(** ** Corpora used as examples *)

(** One document of three tokens, no length normalization ([b = 0]). *)
Definition unnormalizedCorpus : Corpus.t :=
  Corpus.new [(js "tea", Document.new [js "tea"; js "tea"; js "cup"])]
             (Some (Corpus.mkOptions None None (Some 0%R))).

(** The same document with [K1 = 0]. *)
Definition presenceCorpus : Corpus.t :=
  Corpus.new [(js "tea", Document.new [js "tea"; js "tea"; js "cup"])]
             (Some (Corpus.mkOptions None (Some 0%R) None)).


(** ** Memoization *)

(** Which of the three memo fields hold a value: the collection frequencies,
    their weights and the document vectors. *)
Definition memoFilled (c : Corpus.t) : bool * bool * bool :=
  (match Corpus._collectionFrequencies c with Some _ => true | None => false end,
   match Corpus._collectionFrequencyWeights c with Some _ => true | None => false end,
   match Corpus._documentVectors c with Some _ => true | None => false end).

(** A method keeps the invariant, the documents and the options, and what it
    returns or throws does not depend on the memo fields computed so far. *)
Definition transparent {A} (m : Corpus.M A) : Prop :=
  (forall c, CorpusState.valid c ->
             CorpusState.valid (Corpus.after m c)
             /\ CorpusState.base (Corpus.after m c) = CorpusState.base c)
  /\ (forall c c', CorpusState.valid c -> CorpusState.valid c' ->
                   CorpusState.base c' = CorpusState.base c ->
                   Corpus.run m c' = Corpus.run m c).

(** A method leaves a corpus with all memo fields filled as it is. *)
Definition stable {A} (m : Corpus.M A) : Prop :=
  forall c, memoFilled c = (true, true, true) -> Corpus.after m c = c.

(** ** Texts that differ in case only *)

(** Two code units that are equal, or two letters of the tokenizer's class
    with the same lower-case form. *)
Definition sameLetter (x y : N) : bool :=
  N.eqb x y
  || (TextDocument.isLetter x && TextDocument.isLetter y
      && N.eqb (TextDocument.lowerUnit x) (TextDocument.lowerUnit y)).

(** Two texts of the same length whose code units are pairwise the same
    letter: they differ in the case of letters of the class only. *)
Fixpoint sameUpToCase (a b : jsstring) : bool :=
  match a, b with
  | [], [] => true
  | x :: a', y :: b' => sameLetter x y && sameUpToCase a' b'
  | _, _ => false
  end.

(** * Properties *)

(** ** Strings and maps *)

Lemma jsstring_eqb_eq (a b : jsstring) : jsstring_eqb a b = true <-> a = b.
Proof.
  revert b; induction a as [|x a IH]; intros [|y b]; simpl; split;
    try discriminate; try reflexivity.
  - intros H. apply andb_prop in H as [Hx Hab].
    apply N.eqb_eq in Hx. apply IH in Hab. now subst.
  - intros H. injection H as -> ->.
    rewrite N.eqb_refl. simpl. now apply IH.
Qed.

Lemma jsstring_eqb_refl (a : jsstring) : jsstring_eqb a a = true.
Proof. now apply jsstring_eqb_eq. Qed.

Lemma jsstring_eqb_neq (a b : jsstring) : jsstring_eqb a b = false <-> a <> b.
Proof.
  split.
  - intros H E. apply jsstring_eqb_eq in E. congruence.
  - intros H. destruct (jsstring_eqb a b) eqn:E; [|reflexivity].
    apply jsstring_eqb_eq in E. contradiction.
Qed.

Lemma jsstring_eq_dec (a b : jsstring) : {a = b} + {a <> b}.
Proof.
  destruct (jsstring_eqb a b) eqn:E.
  - left. now apply jsstring_eqb_eq.
  - right. now apply jsstring_eqb_neq.
Qed.

Module JsMapFacts.

Import JsMap.

Section Facts.

Context {V : Type}.
Implicit Types (m : JsMap.t V) (k : jsstring) (v : V).

Lemma get_set_same k v m : get k (set k v m) = Some v.
Proof.
  induction m as [|[k' v'] m IH]; simpl.
  - now rewrite jsstring_eqb_refl.
  - destruct (jsstring_eqb k k') eqn:E; simpl; rewrite E; auto.
Qed.

Lemma get_set_other k k' v m : k <> k' -> get k' (set k v m) = get k' m.
Proof.
  intros Hne. induction m as [|[k0 v0] m IH]; simpl.
  - assert (jsstring_eqb k' k = false) as -> by (apply jsstring_eqb_neq; congruence).
    reflexivity.
  - destruct (jsstring_eqb k k0) eqn:E; simpl.
    + apply jsstring_eqb_eq in E. subst k0.
      assert (jsstring_eqb k' k = false) as -> by (apply jsstring_eqb_neq; congruence).
      reflexivity.
    + now rewrite IH.
Qed.

(** [has] is true exactly when [get] finds a value, which is why the counting
    steps test and read an entry with one [match]. *)
Lemma has_get k m : has k m = true <-> exists v, get k m = Some v.
Proof.
  unfold has. destruct (get k m) as [v|]; split; try discriminate; eauto.
  intros [v H]. discriminate.
Qed.

Lemma get_None_iff k m : get k m = None <-> ~ In k (keys m).
Proof.
  induction m as [|[k' v'] m IH]; simpl.
  - tauto.
  - destruct (jsstring_eqb k k') eqn:E.
    + apply jsstring_eqb_eq in E. subst. split; [discriminate | tauto].
    + apply jsstring_eqb_neq in E. rewrite IH. split; [intros H [->|]; tauto | tauto].
Qed.

Lemma get_Some_in k v m : get k m = Some v -> In (k, v) m.
Proof.
  induction m as [|[k' v'] m IH]; simpl; [discriminate|].
  destruct (jsstring_eqb k k') eqn:E.
  - apply jsstring_eqb_eq in E. intros [= ->]. subst. now left.
  - intros H. right. now apply IH.
Qed.

Lemma get_Some_key k v m : get k m = Some v -> In k (keys m).
Proof.
  intros H. apply get_Some_in in H. unfold keys.
  change k with (fst (k, v)). now apply in_map.
Qed.

Lemma in_keys_get k m : In k (keys m) -> exists v, get k m = Some v.
Proof.
  intros H. destruct (get k m) as [v|] eqn:E; [eauto|].
  apply get_None_iff in E. contradiction.
Qed.

Lemma in_get_nodup k v m : NoDup (keys m) -> In (k, v) m -> get k m = Some v.
Proof.
  induction m as [|[k' v'] m IH]; simpl; [tauto|].
  intros Hnd [E|Hin].
  - injection E as -> ->. now rewrite jsstring_eqb_refl.
  - inversion Hnd as [|? ? Hnot Hnd']; subst.
    destruct (jsstring_eqb k k') eqn:E.
    + apply jsstring_eqb_eq in E. subst k'. exfalso. apply Hnot.
      change k with (fst (k, v)). now apply in_map.
    + now apply IH.
Qed.

Lemma keys_set_present k v m : In k (keys m) -> keys (set k v m) = keys m.
Proof.
  induction m as [|[k' v'] m IH]; simpl; [tauto|].
  intros H. destruct (jsstring_eqb k k') eqn:E; simpl; [reflexivity|].
  apply jsstring_eqb_neq in E. f_equal. apply IH. destruct H; congruence.
Qed.

Lemma keys_set_absent k v m : ~ In k (keys m) -> keys (set k v m) = keys m ++ [k].
Proof.
  induction m as [|[k' v'] m IH]; simpl; [reflexivity|].
  intros H. destruct (jsstring_eqb k k') eqn:E; simpl.
  - apply jsstring_eqb_eq in E. subst. tauto.
  - f_equal. apply IH. tauto.
Qed.

Lemma set_absent k v m : ~ In k (keys m) -> set k v m = m ++ [(k, v)].
Proof.
  induction m as [|[k' v'] m IH]; simpl; [reflexivity|].
  intros H. destruct (jsstring_eqb k k') eqn:E; simpl.
  - apply jsstring_eqb_eq in E. subst. tauto.
  - f_equal. apply IH. tauto.
Qed.

Lemma NoDup_keys_set k v m : NoDup (keys m) -> NoDup (keys (set k v m)).
Proof.
  intros Hnd. destruct (in_dec jsstring_eq_dec k (keys m)) as [Hin|Hnot].
  - now rewrite keys_set_present.
  - rewrite keys_set_absent by assumption.
    apply NoDup_app; [assumption | repeat constructor; simpl; tauto |].
    intros x Hx [<-|[]]. contradiction.
Qed.

Lemma in_keys_set k k' v m : In k' (keys (set k v m)) <-> k' = k \/ In k' (keys m).
Proof.
  destruct (in_dec jsstring_eq_dec k (keys m)) as [Hin|Hnot].
  - rewrite keys_set_present by assumption. split; [tauto | intros [->|]; tauto].
  - rewrite keys_set_absent by assumption. rewrite in_app_iff. simpl.
    split; [intros [|[<-|[]]]; tauto | intros [->|]; tauto].
Qed.

Lemma size_keys m : size m = List.length (keys m).
Proof. unfold size, keys. now rewrite length_map. Qed.

End Facts.

End JsMapFacts.

(** ** Counting folds

    [Document._calculateTermFrequencies] and the body of
    [Corpus._calculateCollectionFrequencies] are the same counting step. *)

Module CountFacts.

Import JsMap JsMapFacts Corpus CorpusState.

Lemma termFrequencies_fold (d : Document.t) :
  Document._calculateTermFrequencies d = fold_left countTerm (Document._words d) empty.
Proof. reflexivity. Qed.

Lemma NoDup_keys_countTerm m term : NoDup (keys m) -> NoDup (keys (countTerm m term)).
Proof. intros H. unfold countTerm. destruct (get term m); now apply NoDup_keys_set. Qed.

Lemma in_keys_countTerm m term k :
  In k (keys (countTerm m term)) <-> k = term \/ In k (keys m).
Proof. unfold countTerm. destruct (get term m); apply in_keys_set. Qed.

Lemma getOr0_countTerm_same m term : getOr0 term (countTerm m term) = S (getOr0 term m).
Proof.
  unfold getOr0, countTerm. destruct (get term m) as [n|] eqn:E;
    rewrite get_set_same; lia.
Qed.

Lemma getOr0_countTerm_other m term k :
  term <> k -> getOr0 k (countTerm m term) = getOr0 k m.
Proof.
  intros Hne. unfold getOr0, countTerm.
  destruct (get term m); now rewrite get_set_other.
Qed.

Lemma NoDup_keys_count ws : forall m,
  NoDup (keys m) -> NoDup (keys (fold_left countTerm ws m)).
Proof.
  induction ws as [|w ws IH]; simpl; intros m H; [assumption|].
  apply IH. now apply NoDup_keys_countTerm.
Qed.

Lemma in_keys_count ws : forall m k,
  In k (keys (fold_left countTerm ws m)) <-> In k ws \/ In k (keys m).
Proof.
  induction ws as [|w ws IH]; simpl; intros m k; [tauto|].
  rewrite IH, in_keys_countTerm. intuition congruence.
Qed.

Lemma getOr0_count ws : forall m k,
  getOr0 k (fold_left countTerm ws m) = getOr0 k m + occurrences k ws.
Proof.
  unfold occurrences.
  induction ws as [|w ws IH]; simpl; intros m k; [lia|].
  rewrite IH. destruct (jsstring_eqb k w) eqn:E; simpl.
  - apply jsstring_eqb_eq in E. subst w. rewrite getOr0_countTerm_same. lia.
  - apply jsstring_eqb_neq in E. rewrite getOr0_countTerm_other by congruence. lia.
Qed.

Lemma sum_values_set_absent (m : JsMap.t nat) k v :
  ~ In k (keys m) -> list_sum (values (set k v m)) = list_sum (values m) + v.
Proof.
  intros H. rewrite set_absent by assumption. unfold values.
  rewrite map_app, list_sum_app. simpl. lia.
Qed.

Lemma sum_values_set_present (m : JsMap.t nat) k n v :
  get k m = Some n -> list_sum (values (set k v m)) + n = list_sum (values m) + v.
Proof.
  unfold values.
  induction m as [|[k' v'] m IH]; simpl; [discriminate|].
  destruct (jsstring_eqb k k') eqn:E; simpl.
  - intros [= ->]. lia.
  - intros H. specialize (IH H). lia.
Qed.

Lemma sum_values_countTerm m term :
  list_sum (values (countTerm m term)) = list_sum (values m) + 1.
Proof.
  unfold countTerm. destruct (get term m) as [n|] eqn:E.
  - pose proof (sum_values_set_present m term (n + 1) E). lia.
  - apply sum_values_set_absent. now apply get_None_iff.
Qed.

Lemma sum_values_count ws : forall m,
  list_sum (values (fold_left countTerm ws m)) = list_sum (values m) + List.length ws.
Proof.
  induction ws as [|w ws IH]; simpl; intros m; [lia|].
  rewrite IH, sum_values_countTerm. lia.
Qed.

Lemma sum_getOr0_keys (m : JsMap.t nat) :
  NoDup (keys m) ->
  list_sum (List.map (fun k => getOr0 k m) (keys m)) = list_sum (values m).
Proof.
  induction m as [|[k v] m IH]; simpl; intros Hnd; [reflexivity|].
  inversion Hnd as [|? ? Hnot Hnd']; subst.
  unfold getOr0 at 1. simpl. rewrite jsstring_eqb_refl. f_equal.
  rewrite <- IH by assumption. f_equal. apply map_ext_in.
  intros k' Hk'. unfold getOr0. simpl.
  assert (jsstring_eqb k' k = false) as ->; [|reflexivity].
  apply jsstring_eqb_neq. intros ->. contradiction.
Qed.

Lemma occurrences_NoDup k ws : NoDup ws -> occurrences k ws <= 1.
Proof.
  unfold occurrences. induction 1 as [|w ws Hnot Hnd IH]; simpl; [lia|].
  destruct (jsstring_eqb k w) eqn:E; simpl; [|assumption].
  apply jsstring_eqb_eq in E. subst w.
  assert (List.filter (jsstring_eqb k) ws = []) as ->; [|simpl; lia].
  destruct (List.filter (jsstring_eqb k) ws) as [|x xs] eqn:F; [reflexivity|].
  assert (In x (List.filter (jsstring_eqb k) ws)) as Hx by (rewrite F; now left).
  apply filter_In in Hx as [Hx1 Hx2]. apply jsstring_eqb_eq in Hx2. subst. contradiction.
Qed.

Lemma occurrences_pos k ws : In k ws <-> 1 <= occurrences k ws.
Proof.
  unfold occurrences. split.
  - intros H. assert (In k (List.filter (jsstring_eqb k) ws)) as Hk.
    { apply filter_In. split; [assumption | apply jsstring_eqb_refl]. }
    destruct (List.filter (jsstring_eqb k) ws); [destruct Hk | simpl; lia].
  - intros H. destruct (List.filter (jsstring_eqb k) ws) as [|x xs] eqn:F; [simpl in H; lia|].
    assert (In x (List.filter (jsstring_eqb k) ws)) as Hx by (rewrite F; now left).
    apply filter_In in Hx as [Hx1 Hx2]. apply jsstring_eqb_eq in Hx2. now subst.
Qed.

Lemma uniqueTerms_NoDup (d : Document.t) : NoDup (Document.getUniqueTerms d).
Proof.
  unfold Document.getUniqueTerms. rewrite termFrequencies_fold.
  apply NoDup_keys_count. constructor.
Qed.

Lemma uniqueTerms_in (d : Document.t) k :
  In k (Document.getUniqueTerms d) <-> In k (Document._words d).
Proof.
  unfold Document.getUniqueTerms. rewrite termFrequencies_fold, in_keys_count.
  simpl. tauto.
Qed.

Lemma termFrequency_occurrences (d : Document.t) k :
  Document.getTermFrequency k d = occurrences k (Document._words d).
Proof.
  unfold Document.getTermFrequency. rewrite termFrequencies_fold.
  change (getOr0 k (fold_left countTerm (Document._words d) empty)
          = occurrences k (Document._words d)).
  now rewrite getOr0_count.
Qed.

End CountFacts.

(** ** Document *)

(** C9: the term frequencies of a document, summed over its unique terms, give
    its length (the number of tokens, duplicates and stopwords included). *)
Theorem term_frequencies_sum_to_length (d : Document.t) :
  list_sum (List.map (fun t => Document.getTermFrequency t d)
                     (Document.getUniqueTerms d))
  = Document.getLength d.
Proof.
  unfold Document.getUniqueTerms, Document.getLength.
  pose proof (@CountFacts.sum_getOr0_keys
                (Document._calculateTermFrequencies d)) as Hsum.
  unfold CorpusState.getOr0 in Hsum. unfold Document.getTermFrequency.
  rewrite Hsum.
  - rewrite CountFacts.termFrequencies_fold, CountFacts.sum_values_count. reflexivity.
  - apply (CountFacts.uniqueTerms_NoDup d).
Qed.

(** ** Building maps from entries with distinct keys *)

Module BuildFacts.

Import JsMap JsMapFacts.

Section Build.

Context {A V : Type} (key : A -> jsstring) (value : A -> V).

Lemma fold_set_fresh (l : list A) : forall acc : JsMap.t V,
  NoDup (List.map key l) ->
  (forall x, In x l -> ~ In (key x) (keys acc)) ->
  fold_left (fun m x => set (key x) (value x) m) l acc
  = acc ++ List.map (fun x => (key x, value x)) l.
Proof.
  induction l as [|x l IH]; simpl; intros acc Hnd Hfresh.
  - now rewrite app_nil_r.
  - inversion Hnd as [|? ? Hnot Hnd']; subst.
    rewrite IH; [| assumption |].
    + rewrite set_absent by (apply Hfresh; now left).
      now rewrite <- app_assoc.
    + intros y Hy Hin. apply in_keys_set in Hin as [E|Hin].
      * apply Hnot. rewrite <- E. now apply in_map.
      * apply (Hfresh y); [now right | assumption].
Qed.

Lemma fold_set_distinct (l : list A) :
  NoDup (List.map key l) ->
  fold_left (fun m x => set (key x) (value x) m) l empty
  = List.map (fun x => (key x, value x)) l.
Proof.
  intros Hnd. rewrite fold_set_fresh; [reflexivity | assumption |].
  intros x _ [].
Qed.

Lemma fold_set_NoDup (l : list A) : forall acc : JsMap.t V,
  NoDup (keys acc) ->
  NoDup (keys (fold_left (fun m x => set (key x) (value x) m) l acc)).
Proof.
  induction l as [|x l IH]; simpl; intros acc H; [assumption|].
  apply IH. now apply NoDup_keys_set.
Qed.

End Build.


Lemma of_entries_NoDup {V} (kvs : list (jsstring * V)) : NoDup (keys (of_entries kvs)).
Proof. unfold of_entries. apply fold_set_NoDup. constructor. Qed.

End BuildFacts.

(** ** TextDocument *)

Module TextFacts.

Import TextDocument.

Lemma letterRuns_nil_iff (text : jsstring) : forall cur,
  letterRuns text cur = [] <-> cur = [] /\ hasNoLetter text = true.
Proof.
  induction text as [|c text IH]; simpl; intros cur.
  - destruct cur; split; try tauto; try discriminate. intros [? _]. discriminate.
  - destruct (isLetter c); simpl.
    + rewrite IH. split; [intros [? _]; discriminate | intros [_ ?]; discriminate].
    + destruct cur.
      * rewrite IH. tauto.
      * split; [discriminate | intros [? _]; discriminate].
  Qed.

Lemma new_no_letter (text : jsstring) :
  hasNoLetter text = true -> new text = Throw TypeError.
Proof.
  intros H. unfold new, matchLetters.
  assert (letterRuns text [] = []) as -> by (apply letterRuns_nil_iff; auto).
  reflexivity.
Qed.

Lemma new_with_letter (text : jsstring) :
  hasNoLetter text = false ->
  new text = Ok (Document.mk
                   (List.map toLowerCase (List.filter keepWord (letterRuns text [])))
                   (Some text)).
Proof.
  intros H. unfold new, matchLetters.
  destruct (letterRuns text []) eqn:E; [|reflexivity].
  apply letterRuns_nil_iff in E as [_ E]. congruence.
Qed.

Lemma new_throws_TypeError (text : jsstring) e : new text = Throw e -> e = TypeError.
Proof. unfold new. destruct (matchLetters text); [discriminate | congruence]. Qed.

Lemma from_throws_TypeError x e : from x = Throw e -> e = TypeError.
Proof. destruct x; simpl; [apply new_throws_TypeError | discriminate]. Qed.

End TextFacts.

(** ** Construction *)

Module BuilderFacts.

Import Corpus.

Lemma fromKvps_unfold kvps options :
  fromKvps kvps options
  = result_bind (mapR convert kvps) (fun documents => Ok (new documents options)).
Proof. reflexivity. Qed.

Lemma mapR_convert_throws kvps : forall id text,
  In (id, TextDocument.Text text) kvps ->
  hasNoLetter text = true ->
  mapR convert kvps = Throw TypeError.
Proof.
  induction kvps as [|kv kvps IH]; simpl; intros id text Hin Hno; [destruct Hin|].
  destruct (convert kv) as [y|e] eqn:E; simpl.
  - destruct Hin as [->|Hin].
    + unfold convert in E. simpl in E. rewrite TextFacts.new_no_letter in E by assumption.
      discriminate.
    + now rewrite (IH id text Hin Hno).
  - unfold convert in E. destruct (TextDocument.from (snd kv)) eqn:F; [discriminate|].
    simpl in E. injection E as <-. f_equal. eapply TextFacts.from_throws_TypeError; eauto.
Qed.


Lemma in_combine_texts (names : list jsstring) : forall texts text,
  List.length names = List.length texts ->
  In text texts ->
  exists id, In (id, TextDocument.Text text)
                (List.combine names (List.map TextDocument.Text texts)).
Proof.
  induction names as [|n names IH]; intros [|t texts] text Hlen Hin;
    try discriminate; try (now destruct Hin).
  destruct Hin as [->|Hin].
  - exists n. now left.
  - destruct (IH texts text) as [id Hid]; [simpl in Hlen; lia | assumption |].
    exists id. now right.
Qed.

Lemma from_equal_length names texts options :
  List.length names = List.length texts ->
  from names texts options
  = fromKvps (List.combine names (List.map TextDocument.Text texts)) options.
Proof. intros H. unfold from. rewrite H, Nat.eqb_refl. reflexivity. Qed.

Lemma from_unequal_length names texts options :
  List.length names <> List.length texts ->
  from names texts options = Throw lengthMismatch.
Proof.
  intros H. unfold from. apply Nat.eqb_neq in H. rewrite H. reflexivity.
Qed.

Lemma fromKvps_no_letter kvps options id text :
  In (id, TextDocument.Text text) kvps ->
  hasNoLetter text = true ->
  fromKvps kvps options = Throw TypeError.
Proof.
  intros Hin Hno. rewrite fromKvps_unfold.
  now rewrite (mapR_convert_throws kvps id text Hin Hno).
Qed.

Lemma from_no_letter names texts options text :
  List.length names = List.length texts ->
  In text texts ->
  hasNoLetter text = true ->
  from names texts options = Throw TypeError.
Proof.
  intros Hlen Hin Hno. rewrite from_equal_length by assumption.
  destruct (in_combine_texts names texts text Hlen Hin) as [id Hid].
  now apply (fromKvps_no_letter _ options id text).
Qed.

Lemma new_valid documents options : CorpusState.valid (new documents options).
Proof.
  unfold CorpusState.valid, new. simpl.
  repeat split; try discriminate. apply BuildFacts.of_entries_NoDup.
Qed.

End BuilderFacts.

(** C10, as amended: a text without any letter makes the [TextDocument]
    constructor throw a [TypeError] (the match is [null]), and so does
    building a corpus from pairs, or from parallel arrays of equal length,
    that contain such a text.  With arrays of unequal length [Corpus.from]
    throws the length error before it looks at any text. *)
Theorem no_letter_text_throws (text : jsstring) (Hno : hasNoLetter text = true) :
  TextDocument.new text = Throw TypeError
  /\ (forall kvps options id,
         In (id, TextDocument.Text text) kvps ->
         Corpus.fromKvps kvps options = Throw TypeError)
  /\ (forall names texts options,
         List.length names = List.length texts ->
         In text texts ->
         Corpus.from names texts options = Throw TypeError)
  /\ (forall names texts options,
         List.length names <> List.length texts ->
         In text texts ->
         Corpus.from names texts options = Throw lengthMismatch).
Proof.
  split; [now apply TextFacts.new_no_letter|]. split; [|split].
  - intros kvps options id Hin. now apply (BuilderFacts.fromKvps_no_letter _ options id text).
  - intros names texts options Hlen Hin. now apply (BuilderFacts.from_no_letter _ _ options text).
  - intros names texts options Hlen _. now apply BuilderFacts.from_unequal_length.
Qed.

Lemma no_letter_text_throws_witness :
  hasNoLetter (js "2 + 2 = 4") = true
  /\ TextDocument.new (js "2 + 2 = 4") = Throw TypeError
  /\ Corpus.from [js "sum"] [js "2 + 2 = 4"] None = Throw TypeError.
Proof.
  split; [reflexivity|].
  destruct (no_letter_text_throws (js "2 + 2 = 4") eq_refl) as (Hnew & _ & Hfrom & _).
  split; [exact Hnew|].
  apply Hfrom; [reflexivity | now left].
Defined.

(** C10, as stated, fails: [Corpus.from] with a text without a letter among
    texts that are fewer than the names throws the length error, not a
    [TypeError]. *)
Lemma no_letter_text_counterexample :
  hasNoLetter (js "1984") = true
  /\ Corpus.from [js "a"; js "b"] [js "1984"] None = Throw lengthMismatch
  /\ Corpus.from [js "a"; js "b"] [js "1984"] None <> Throw TypeError
  /\ ~ (forall text names texts options,
          hasNoLetter text = true -> In text texts ->
          Corpus.from names texts options = Throw TypeError).
Proof.
  assert (Corpus.from [js "a"; js "b"] [js "1984"] None = Throw lengthMismatch) as Hfrom
    by (apply BuilderFacts.from_unequal_length; discriminate).
  split; [reflexivity|]. split; [exact Hfrom|]. split.
  - rewrite Hfrom. discriminate.
  - intros Hall.
    specialize (Hall (js "1984") [js "a"; js "b"] [js "1984"] None eq_refl
                     (or_introl eq_refl)).
    rewrite Hfrom in Hall. discriminate Hall.
Qed.

Lemma JsSet_has_In (k : jsstring) (s : list jsstring) : JsSet.has k s = true <-> In k s.
Proof.
  unfold JsSet.has. rewrite existsb_exists. split.
  - intros [x [Hx E]]. apply jsstring_eqb_eq in E. now subst.
  - intros H. exists k. split; [assumption | apply jsstring_eqb_refl].
Qed.







(** ** The memo fields and the methods that fill them *)

Module MemoFacts.

Import Corpus CorpusState.
Local Open Scope corpus_scope.

Ltac unfold_monad :=
  unfold unlessPresent, deref, read, ret, throw, bind, lift,
    setCollectionFrequencies, setCollectionFrequencyWeights, setDocumentVectors in *.

Lemma base_inv c c' :
  base c' = base c ->
  _stopwords c' = _stopwords c /\ _K1 c' = _K1 c /\ _b c' = _b c
  /\ _documents c' = _documents c.
Proof. unfold base. intros [= -> -> -> ->]. auto. Qed.

Lemma base_frequenciesOf c c' : base c' = base c -> frequenciesOf c' = frequenciesOf c.
Proof.
  intros H. apply base_inv in H as (Hs & _ & _ & Hd).
  unfold frequenciesOf. now rewrite Hs, Hd.
Qed.

Lemma base_weightsOf c c' : base c' = base c -> weightsOf c' = weightsOf c.
Proof.
  intros H. unfold weightsOf. rewrite (base_frequenciesOf H).
  apply base_inv in H as (_ & _ & _ & Hd). now rewrite Hd.
Qed.

Lemma base_avgLengthOf c c' : base c' = base c -> avgLengthOf c' = avgLengthOf c.
Proof.
  intros H. apply base_inv in H as (_ & _ & _ & Hd). unfold avgLengthOf. now rewrite Hd.
Qed.

Lemma base_vectorsOf c c' : base c' = base c -> vectorsOf c' = vectorsOf c.
Proof.
  intros H. unfold vectorsOf. rewrite (base_weightsOf H), (base_avgLengthOf H).
  apply base_inv in H as (_ & HK & Hb & Hd). now rewrite HK, Hb, Hd.
Qed.

Lemma returns_ret {A} (v : A) c : valid c -> returns (ret v) c v.
Proof. intros H. exists c. auto. Qed.

Lemma returns_bind {A B} (m : M A) (k : A -> M B) c v w :
  returns m c v ->
  (forall c', base c' = base c -> valid c' -> returns (k v) c' w) ->
  returns (x <- m ;; k x) c w.
Proof.
  intros (c1 & Hm & Hb1 & Hv1) Hk.
  destruct (Hk c1 Hb1 Hv1) as (c2 & Hk2 & Hb2 & Hv2).
  exists c2. unfold bind. rewrite Hm.
  split; [assumption | split; [congruence | assumption]].
Qed.

Lemma returns_run {A} (m : M A) c v : returns m c v -> run m c = Ok v.
Proof. intros (c' & H & _). unfold run. now rewrite H. Qed.

Lemma returns_after {A} (m : M A) c v :
  returns m c v -> valid (after m c) /\ base (after m c) = base c.
Proof. intros (c' & H & Hb & Hv). unfold after. rewrite H. auto. Qed.

(** [if (!this._collectionFrequencies) this._calculateCollectionFrequencies()] *)
Lemma ensure_frequencies c :
  valid c ->
  exists c',
    unlessPresent _collectionFrequencies _calculateCollectionFrequencies c = (Ok tt, c')
    /\ base c' = base c /\ valid c'
    /\ _collectionFrequencies c' = Some (frequenciesOf c).
Proof.
  intros Hv. unfold unlessPresent at 1. unfold read at 1. unfold bind at 1.
  destruct (_collectionFrequencies c) as [cf|] eqn:E.
  - exists c. unfold ret. repeat split; try apply Hv.
    rewrite E. f_equal. now apply Hv.
  - unfold _calculateCollectionFrequencies. unfold_monad. simpl.
    eexists. split; [reflexivity|]. split; [reflexivity|].
    split; [|reflexivity].
    destruct Hv as (Hnd & _ & Hcfw & Hdv).
    repeat split; simpl; try assumption. now intros m [= <-].
Qed.

Lemma ensure_weights c :
  valid c ->
  exists c',
    unlessPresent _collectionFrequencyWeights _calculateCollectionFrequencyWeights c
    = (Ok tt, c')
    /\ base c' = base c /\ valid c'
    /\ _collectionFrequencyWeights c' = Some (weightsOf c).
Proof.
  intros Hv. unfold unlessPresent at 1. unfold read at 1. unfold bind at 1.
  destruct (_collectionFrequencyWeights c) as [cfw|] eqn:E.
  - exists c. unfold ret. repeat split; try apply Hv.
    rewrite E. f_equal. now apply Hv.
  - unfold _calculateCollectionFrequencyWeights.
    destruct (ensure_frequencies Hv) as (c1 & Hrun & Hb1 & Hv1 & Hcf1).
    unfold bind at 1. rewrite Hrun.
    destruct c1 as [sw K1 b docs cf cfw dv]. unfold_monad. simpl in *. subst cf.
    pose proof (base_inv Hb1) as (Hs & HK & Hb & Hd). simpl in *.
    eexists. split; [reflexivity|]. split; [exact Hb1|].
    assert (weightsOf c
            = fold_left (fun weights entry =>
                           JsMap.set (fst entry) (idfOf (JsMap.size docs) (snd entry))
                                     weights)
                        (JsMap.entries (frequenciesOf c)) JsMap.empty) as Hw.
    { unfold weightsOf. now rewrite Hd. }
    split; [|simpl; now rewrite Hw].
    destruct Hv1 as (Hnd1 & Hcf1 & _ & Hdv1). simpl in *.
    repeat split; simpl; try assumption.
    intros m [= <-]. rewrite <- Hw. symmetry. now apply base_weightsOf.
Qed.

Lemma ensure_vectors c :
  valid c ->
  exists c',
    unlessPresent _documentVectors _calculateDocumentVectors c = (Ok tt, c')
    /\ base c' = base c /\ valid c'
    /\ _documentVectors c' = Some (vectorsOf c).
Proof.
  intros Hv. unfold unlessPresent at 1. unfold read at 1. unfold bind at 1.
  destruct (_documentVectors c) as [dv|] eqn:E.
  - exists c. unfold ret. repeat split; try apply Hv.
    rewrite E. f_equal. now apply Hv.
  - unfold _calculateDocumentVectors.
    destruct (ensure_weights Hv) as (c1 & Hrun & Hb1 & Hv1 & Hcfw1).
    unfold bind at 1. rewrite Hrun.
    destruct c1 as [sw K1 b docs cf cfw dv]. unfold_monad. simpl in *. subst cfw.
    pose proof (base_inv Hb1) as (Hs & HK & Hb & Hd). simpl in *.
    eexists. split; [reflexivity|]. split; [exact Hb1|].
    assert (vectorsOf c
            = fold_left
                (fun vectors entry =>
                   JsMap.set (fst entry)
                     (vectorOf K1 b
                        (INR (totalLengthOf docs) / INR (JsMap.size docs))%R
                        (weightsOf c) (snd entry))
                     vectors)
                (JsMap.entries docs) JsMap.empty) as Hvec.
    { unfold vectorsOf, avgLengthOf. now rewrite HK, Hb, Hd. }
    split; [|simpl; now rewrite Hvec].
    destruct Hv1 as (Hnd1 & Hcf1 & Hcfw1 & _). simpl in *.
    repeat split; simpl; try assumption.
    intros m [= <-]. rewrite <- Hvec. symmetry. now apply base_vectorsOf.
Qed.

End MemoFacts.

(** ** What the getters return *)

Module GetterFacts.

Import Corpus CorpusState MemoFacts.
Local Open Scope corpus_scope.

Lemma getTerms_returns c :
  valid c -> returns getTerms c (JsMap.keys (frequenciesOf c)).
Proof.
  intros Hv. destruct (ensure_frequencies Hv) as (c1 & Hrun & Hb1 & Hv1 & Hcf1).
  exists c1. unfold getTerms. unfold bind at 1. rewrite Hrun.
  unfold_monad. rewrite Hcf1. auto.
Qed.

Lemma getCollectionFrequency_returns term c :
  valid c -> returns (getCollectionFrequency term) c (getOr0 term (frequenciesOf c)).
Proof.
  intros Hv. destruct (ensure_frequencies Hv) as (c1 & Hrun & Hb1 & Hv1 & Hcf1).
  exists c1. unfold getCollectionFrequency. unfold bind at 1. rewrite Hrun.
  unfold_monad. rewrite Hcf1. auto.
Qed.

Lemma getDocument_returns identifier c :
  valid c -> returns (getDocument identifier) c (JsMap.get identifier (_documents c)).
Proof. intros Hv. exists c. auto. Qed.

Lemma getDocumentIdentifiers_returns c :
  valid c -> returns getDocumentIdentifiers c (JsMap.keys (_documents c)).
Proof. intros Hv. exists c. auto. Qed.

Lemma getCollectionFrequencyWeight_returns term c :
  valid c ->
  returns (getCollectionFrequencyWeight term) c (JsMap.get term (weightsOf c)).
Proof.
  intros Hv. destruct (ensure_weights Hv) as (c1 & Hrun & Hb1 & Hv1 & Hw1).
  exists c1. unfold getCollectionFrequencyWeight. unfold bind at 1. rewrite Hrun.
  unfold_monad. rewrite Hw1. auto.
Qed.

Lemma getDocumentVector_returns identifier c :
  valid c ->
  returns (getDocumentVector identifier) c (JsMap.get identifier (vectorsOf c)).
Proof.
  intros Hv. destruct (ensure_vectors Hv) as (c1 & Hrun & Hb1 & Hv1 & Hd1).
  exists c1. unfold getDocumentVector. unfold bind at 1. rewrite Hrun.
  unfold_monad. rewrite Hd1. auto.
Qed.

End GetterFacts.

(** ** The derived structures as functions of the documents *)

Module DerivedFacts.

Import JsMap JsMapFacts CountFacts Corpus CorpusState.

Lemma occurrences_filter (keep : jsstring -> bool) term ws :
  occurrences term (List.filter keep ws)
  = if keep term then occurrences term ws else 0.
Proof.
  unfold occurrences. induction ws as [|w ws IH]; simpl.
  - now destruct (keep term).
  - destruct (keep w) eqn:Kw; simpl; destruct (jsstring_eqb term w) eqn:E; simpl.
    + rewrite IH. apply jsstring_eqb_eq in E. subst w. now rewrite Kw.
    + exact IH.
    + rewrite IH. apply jsstring_eqb_eq in E. subst w. now rewrite Kw.
    + exact IH.
Qed.

Lemma occurrences_unique term ws :
  NoDup ws -> occurrences term ws = if JsSet.has term ws then 1 else 0.
Proof.
  intros Hnd. pose proof (occurrences_NoDup term Hnd) as Hle.
  destruct (JsSet.has term ws) eqn:E.
  - apply JsSet_has_In in E. apply occurrences_pos in E. lia.
  - destruct (occurrences term ws) as [|n] eqn:F; [reflexivity|].
    assert (In term ws) as Hin by (apply occurrences_pos; lia).
    apply JsSet_has_In in Hin. congruence.
Qed.

Lemma getOr0_countDocument sw m d term :
  getOr0 term (countDocument sw m d)
  = getOr0 term m
    + (if Stopwords.includes term sw then 0
       else if JsSet.has term (Document.getUniqueTerms d) then 1 else 0).
Proof.
  unfold countDocument. rewrite getOr0_count, occurrences_filter.
  destruct (Stopwords.includes term sw); simpl; [reflexivity|].
  now rewrite (occurrences_unique term (uniqueTerms_NoDup d)).
Qed.

Lemma getOr0_countDocuments sw ds : forall m term,
  getOr0 term (fold_left (countDocument sw) ds m)
  = getOr0 term m
    + (if Stopwords.includes term sw then 0 else documentsContaining term ds).
Proof.
  unfold documentsContaining.
  induction ds as [|d ds IH]; simpl; intros m term.
  - destruct (Stopwords.includes term sw); lia.
  - rewrite IH, getOr0_countDocument.
    destruct (Stopwords.includes term sw); [lia|].
    destruct (JsSet.has term (Document.getUniqueTerms d)); simpl; lia.
Qed.

(** The collection frequency of a term is the number of documents that
    contain it, and 0 for a stopword. *)
Lemma getOr0_frequenciesOf c term :
  getOr0 term (frequenciesOf c)
  = if Stopwords.includes term (_stopwords c) then 0
    else documentsContaining term (values (_documents c)).
Proof. unfold frequenciesOf. now rewrite getOr0_countDocuments. Qed.

Lemma documentsContaining_le term ds : documentsContaining term ds <= List.length ds.
Proof. unfold documentsContaining. apply filter_length_le. Qed.

Lemma frequency_le_size c term : getOr0 term (frequenciesOf c) <= size (_documents c).
Proof.
  rewrite getOr0_frequenciesOf. destruct (Stopwords.includes term (_stopwords c)); [lia|].
  pose proof (documentsContaining_le term (values (_documents c))) as H.
  unfold values in H. rewrite length_map in H. exact H.
Qed.

Lemma set_values_Forall (Q : nat -> Prop) k v (m : JsMap.t nat) :
  Forall (fun e => Q (snd e)) m -> Q v -> Forall (fun e => Q (snd e)) (set k v m).
Proof.
  intros Hm Hv. induction Hm as [|[k' v'] m Hx Hm IH]; simpl.
  - now repeat constructor.
  - destruct (jsstring_eqb k k'); constructor; auto.
Qed.

Lemma countTerm_positive m term :
  Forall (fun e => 1 <= snd e) m -> Forall (fun e => 1 <= snd e) (countTerm m term).
Proof.
  intros H. unfold countTerm.
  destruct (get term m); apply (set_values_Forall (fun n => 1 <= n)); auto; lia.
Qed.

Lemma count_positive ws : forall m,
  Forall (fun e => 1 <= snd e) m ->
  Forall (fun e => 1 <= snd e) (fold_left countTerm ws m).
Proof.
  induction ws as [|w ws IH]; simpl; intros m H; [assumption|].
  apply IH. now apply countTerm_positive.
Qed.

Lemma countDocuments_positive sw ds : forall m,
  Forall (fun e => 1 <= snd e) m ->
  Forall (fun e => 1 <= snd e) (fold_left (countDocument sw) ds m).
Proof.
  induction ds as [|d ds IH]; simpl; intros m H; [assumption|].
  apply IH. unfold countDocument. now apply count_positive.
Qed.

Lemma frequenciesOf_positive c : Forall (fun e => 1 <= snd e) (frequenciesOf c).
Proof. unfold frequenciesOf. apply countDocuments_positive. constructor. Qed.

Lemma countDocuments_NoDup sw ds : forall m,
  NoDup (keys m) -> NoDup (keys (fold_left (countDocument sw) ds m)).
Proof.
  induction ds as [|d ds IH]; simpl; intros m H; [assumption|].
  apply IH. unfold countDocument. now apply NoDup_keys_count.
Qed.

Lemma frequenciesOf_NoDup c : NoDup (keys (frequenciesOf c)).
Proof. unfold frequenciesOf. apply countDocuments_NoDup. constructor. Qed.

Lemma frequency_get c term n : get term (frequenciesOf c) = Some n -> 1 <= n.
Proof.
  intros H. apply get_Some_in in H.
  pose proof (frequenciesOf_positive c) as Hpos.
  rewrite Forall_forall in Hpos. now apply (Hpos (term, n)).
Qed.

(** The vocabulary is the set of terms of collection frequency at least 1. *)
Lemma vocabulary_iff c term :
  In term (keys (frequenciesOf c)) <-> 1 <= getOr0 term (frequenciesOf c).
Proof.
  unfold getOr0. split.
  - intros H. apply in_keys_get in H as [n Hn]. rewrite Hn. now apply (frequency_get c term).
  - destruct (get term (frequenciesOf c)) eqn:E; [|lia].
    intros _. now apply (get_Some_key term _ E).
Qed.

Lemma weightsOf_map c :
  weightsOf c
  = List.map (fun e => (fst e, idfOf (size (_documents c)) (snd e))) (frequenciesOf c).
Proof.
  unfold weightsOf, entries.
  apply (BuildFacts.fold_set_distinct fst
           (fun e : jsstring * nat => idfOf (size (_documents c)) (snd e))).
  apply frequenciesOf_NoDup.
Qed.

Lemma keys_weightsOf c : keys (weightsOf c) = keys (frequenciesOf c).
Proof. rewrite weightsOf_map. unfold keys. rewrite map_map. reflexivity. Qed.

Lemma get_map_values {V W} (f : V -> W) term (m : JsMap.t V) :
  get term (List.map (fun e => (fst e, f (snd e))) m) = option_map f (get term m).
Proof.
  induction m as [|[k v] m IH]; simpl; [reflexivity|].
  destruct (jsstring_eqb term k); [reflexivity | exact IH].
Qed.

Lemma get_map_entries {V W} (f : jsstring -> V -> W) term (m : JsMap.t V) :
  get term (List.map (fun e => (fst e, f (fst e) (snd e))) m)
  = option_map (f term) (get term m).
Proof.
  induction m as [|[k v] m IH]; simpl; [reflexivity|].
  destruct (jsstring_eqb term k) eqn:E; [|exact IH].
  apply jsstring_eqb_eq in E. now subst.
Qed.

Lemma get_weightsOf c term :
  get term (weightsOf c)
  = option_map (idfOf (size (_documents c))) (get term (frequenciesOf c)).
Proof. rewrite weightsOf_map. apply get_map_values. Qed.

Lemma vectorOf_map K1 b avgLength (weights : JsMap.t R) d :
  NoDup (keys weights) ->
  vectorOf K1 b avgLength weights d
  = List.map (fun e =>
                (fst e,
                 combinedWeight K1 b (INR (Document.getLength d) / avgLength)
                   (snd e) (Document.getTermFrequency (fst e) d)))
             weights.
Proof.
  intros Hnd. unfold vectorOf, entries.
  apply (BuildFacts.fold_set_distinct fst
           (fun e : jsstring * R =>
              combinedWeight K1 b (INR (Document.getLength d) / avgLength)
                (snd e) (Document.getTermFrequency (fst e) d))).
  exact Hnd.
Qed.

Lemma vectorsOf_map c :
  NoDup (keys (_documents c)) ->
  vectorsOf c
  = List.map (fun e =>
                (fst e, vectorOf (_K1 c) (_b c) (avgLengthOf c) (weightsOf c) (snd e)))
             (_documents c).
Proof.
  intros Hnd. unfold vectorsOf, entries.
  apply (BuildFacts.fold_set_distinct fst
           (fun e : jsstring * Document.t =>
              vectorOf (_K1 c) (_b c) (avgLengthOf c) (weightsOf c) (snd e))).
  exact Hnd.
Qed.

Lemma get_vectorsOf c identifier :
  NoDup (keys (_documents c)) ->
  get identifier (vectorsOf c)
  = option_map (vectorOf (_K1 c) (_b c) (avgLengthOf c) (weightsOf c))
               (get identifier (_documents c)).
Proof. intros Hnd. rewrite vectorsOf_map by assumption. apply get_map_values. Qed.

Lemma keys_vectorOf c d :
  keys (vectorOf (_K1 c) (_b c) (avgLengthOf c) (weightsOf c) d)
  = keys (frequenciesOf c).
Proof.
  rewrite vectorOf_map by (rewrite keys_weightsOf; apply frequenciesOf_NoDup).
  unfold keys at 1. rewrite map_map. simpl. apply keys_weightsOf.
Qed.

Lemma get_vectorOf c d term :
  get term (vectorOf (_K1 c) (_b c) (avgLengthOf c) (weightsOf c) d)
  = option_map (bm25 c d term) (get term (weightsOf c)).
Proof.
  rewrite vectorOf_map by (rewrite keys_weightsOf; apply frequenciesOf_NoDup).
  rewrite (get_map_entries
             (fun k idf =>
                combinedWeight (_K1 c) (_b c)
                  (INR (Document.getLength d) / avgLengthOf c) idf
                  (Document.getTermFrequency k d))).
  reflexivity.
Qed.

End DerivedFacts.

(** ** The test corpus *)

Lemma fromKvps_valid kvps options c :
  Corpus.fromKvps kvps options = Ok c -> CorpusState.valid c.
Proof.
  rewrite BuilderFacts.fromKvps_unfold.
  destruct (mapR Corpus.convert kvps); simpl; [|discriminate].
  intros [= <-]. apply BuilderFacts.new_valid.
Qed.

Lemma testCorpus_built : Corpus.fromKvps docsByKvp (Some commonOptions) = Ok testCorpus.
Proof.
  unfold testCorpus. rewrite BuilderFacts.fromKvps_unfold.
  assert (exists documents, mapR Corpus.convert docsByKvp = Ok documents) as [documents ->].
  { eexists. vm_compute. reflexivity. }
  reflexivity.
Qed.

Lemma testCorpus_valid : CorpusState.valid testCorpus.
Proof. exact (fromKvps_valid _ _ testCorpus_built). Qed.

(** ** Collection statistics *)

(** C6: for a stopword the collection frequency is 0 and the collection
    frequency weight is the absent value [null] (never the number 0), however
    many documents contain the term; a document still reports how often the
    term occurs in it. *)
Theorem stopword_statistics (c : Corpus.t) (term : jsstring)
    (Hvalid : CorpusState.valid c)
    (Hstop : Stopwords.includes term (Corpus._stopwords c) = true) :
  Corpus.run (Corpus.getCollectionFrequency term) c = Ok 0
  /\ Corpus.run (Corpus.getCollectionFrequencyWeight term) c = Ok None
  /\ Corpus.run (Corpus.getCollectionFrequencyWeight term) c <> Ok (Some 0%R)
  /\ (forall d : Document.t,
        Document.getTermFrequency term d = occurrences term (Document._words d)).
Proof.
  assert (CorpusState.getOr0 term (CorpusState.frequenciesOf c) = 0) as Hzero.
  { rewrite DerivedFacts.getOr0_frequenciesOf. now rewrite Hstop. }
  assert (JsMap.get term (CorpusState.frequenciesOf c) = None) as Hnone.
  { destruct (JsMap.get term (CorpusState.frequenciesOf c)) as [n|] eqn:E; [|reflexivity].
    pose proof (DerivedFacts.frequency_get c term E) as Hn.
    unfold CorpusState.getOr0 in Hzero. rewrite E in Hzero. lia. }
  assert (Corpus.run (Corpus.getCollectionFrequencyWeight term) c = Ok None) as Hweight.
  { rewrite (MemoFacts.returns_run
               (GetterFacts.getCollectionFrequencyWeight_returns term Hvalid)).
    now rewrite DerivedFacts.get_weightsOf, Hnone. }
  split; [|split; [exact Hweight|split]].
  - rewrite (MemoFacts.returns_run (GetterFacts.getCollectionFrequency_returns term Hvalid)).
    now rewrite Hzero.
  - rewrite Hweight. discriminate.
  - intros d. apply CountFacts.termFrequency_occurrences.
Qed.

Lemma stopword_statistics_witness :
  Corpus.run (Corpus.getCollectionFrequency (js "and")) testCorpus = Ok 0
  /\ Corpus.run (Corpus.getCollectionFrequencyWeight (js "and")) testCorpus = Ok None
  /\ Document.getTermFrequency (js "and") (testDocument "document3") = 1.
Proof.
  destruct (@stopword_statistics testCorpus (js "and") testCorpus_valid)
    as (H0 & Hnull & _ & Htf).
  - vm_compute. reflexivity.
  - split; [exact H0|]. split; [exact Hnull|].
    rewrite Htf. vm_compute. reflexivity.
Defined.

(** C2: a term of collection frequency [n >= 1] in a corpus of [N] documents
    has the collection frequency weight [ln (N + 1) - ln n], which is strictly
    positive (also when [n = N]). *)
Theorem collection_frequency_weight (c : Corpus.t) (term : jsstring) (n : nat)
    (Hvalid : CorpusState.valid c)
    (Hcf : Corpus.run (Corpus.getCollectionFrequency term) c = Ok n)
    (Hpos : 1 <= n) :
  let N := JsMap.size (Corpus._documents c) in
  Corpus.run (Corpus.getCollectionFrequencyWeight term) c
  = Ok (Some (ln (INR N + 1) - ln (INR n))%R)
  /\ (0 < ln (INR N + 1) - ln (INR n))%R.
Proof.
  intros N.
  rewrite (MemoFacts.returns_run (GetterFacts.getCollectionFrequency_returns term Hvalid))
    in Hcf.
  injection Hcf as Hcf.
  assert (JsMap.get term (CorpusState.frequenciesOf c) = Some n) as Hget.
  { unfold CorpusState.getOr0 in Hcf.
    destruct (JsMap.get term (CorpusState.frequenciesOf c)); [congruence | lia]. }
  split.
  - rewrite (MemoFacts.returns_run
               (GetterFacts.getCollectionFrequencyWeight_returns term Hvalid)).
    now rewrite DerivedFacts.get_weightsOf, Hget.
  - pose proof (DerivedFacts.frequency_le_size c term) as Hle.
    rewrite Hcf in Hle. fold N in Hle.
    assert (0 < INR n)%R as Hn by (apply lt_0_INR; lia).
    assert (INR n <= INR N)%R as HnN by (apply le_INR; lia).
    assert (ln (INR n) < ln (INR N + 1))%R; [|lra].
    apply ln_increasing; lra.
Qed.

Lemma collection_frequency_weight_witness :
  Corpus.run (Corpus.getCollectionFrequencyWeight (js "test")) testCorpus
  = Ok (Some (ln (INR 3 + 1) - ln (INR 3))%R)
  /\ (0 < ln (INR 3 + 1) - ln (INR 3))%R.
Proof.
  apply (@collection_frequency_weight testCorpus (js "test") 3 testCorpus_valid).
  - vm_compute. reflexivity.
  - lia.
Defined.

(** ** Document vectors *)

Lemma fold_left_add_sum (l : list nat) : forall a,
  fold_left (fun x y => x + y) l a = a + list_sum l.
Proof.
  induction l as [|n l IH]; simpl; intros a; [lia|]. rewrite IH. lia.
Qed.

Lemma avgLengthOf_averageLength (c : Corpus.t) :
  CorpusState.avgLengthOf c = averageLength c.
Proof.
  unfold CorpusState.avgLengthOf, averageLength, Corpus.totalLengthOf.
  now rewrite fold_left_add_sum.
Qed.

(** The vector of a document of the corpus. *)
Lemma getDocumentVector_present (c : Corpus.t) (identifier : jsstring) (d : Document.t) :
  CorpusState.valid c ->
  JsMap.get identifier (Corpus._documents c) = Some d ->
  CorpusState.returns (Corpus.getDocumentVector identifier) c
    (Some (Corpus.vectorOf (Corpus._K1 c) (Corpus._b c) (CorpusState.avgLengthOf c)
                           (CorpusState.weightsOf c) d)).
Proof.
  intros Hvalid Hd.
  pose proof (GetterFacts.getDocumentVector_returns identifier Hvalid) as H.
  rewrite DerivedFacts.get_vectorsOf in H by apply Hvalid.
  now rewrite Hd in H.
Qed.

Lemma getDocumentVector_absent (c : Corpus.t) (identifier : jsstring) :
  CorpusState.valid c ->
  JsMap.get identifier (Corpus._documents c) = None ->
  CorpusState.returns (Corpus.getDocumentVector identifier) c None.
Proof.
  intros Hvalid Hd.
  pose proof (GetterFacts.getDocumentVector_returns identifier Hvalid) as H.
  rewrite DerivedFacts.get_vectorsOf in H by apply Hvalid.
  now rewrite Hd in H.
Qed.

(** C1: the vector of a document [d] of the corpus has an entry for every
    vocabulary term [t], and only for those: with [tf] the frequency of [t] in
    [d], [idf] the collection frequency weight of [t] and
    [ndl = length(d) / avgLen], the entry is
    [idf * tf * (K1 + 1) / (K1 * (1 - b + b * ndl) + tf)] when [tf > 0] and
    exactly 0 when [tf = 0]. *)
Theorem document_vector_weights (c : Corpus.t) (identifier : jsstring) (d : Document.t)
    (terms : list jsstring) (term : jsstring)
    (Hvalid : CorpusState.valid c)
    (Hdoc : Corpus.run (Corpus.getDocument identifier) c = Ok (Some d))
    (Hterms : Corpus.run Corpus.getTerms c = Ok terms)
    (Hterm : In term terms) :
  exists (vector : JsMap.t R) (idf : R),
    Corpus.run (Corpus.getDocumentVector identifier) c = Ok (Some vector)
    /\ Corpus.run (Corpus.getCollectionFrequencyWeight term) c = Ok (Some idf)
    /\ JsMap.keys vector = terms
    /\ let K1 := Corpus._K1 c in
       let b := Corpus._b c in
       let tf := Document.getTermFrequency term d in
       let ndl := (INR (Document.getLength d) / averageLength c)%R in
       JsMap.get term vector
       = Some (if tf =? 0 then 0%R
               else (idf * INR tf * (K1 + 1) / (K1 * (1 - b + b * ndl) + INR tf))%R).
Proof.
  rewrite (MemoFacts.returns_run (GetterFacts.getDocument_returns identifier Hvalid)) in Hdoc.
  injection Hdoc as Hdoc.
  rewrite (MemoFacts.returns_run (GetterFacts.getTerms_returns Hvalid)) in Hterms.
  injection Hterms as <-.
  destruct (JsMapFacts.in_keys_get term (CorpusState.frequenciesOf c) Hterm) as [n Hn].
  exists (Corpus.vectorOf (Corpus._K1 c) (Corpus._b c) (CorpusState.avgLengthOf c)
                          (CorpusState.weightsOf c) d).
  exists (Corpus.idfOf (JsMap.size (Corpus._documents c)) n).
  split; [|split; [|split]].
  - apply MemoFacts.returns_run. now apply getDocumentVector_present.
  - rewrite (MemoFacts.returns_run
               (GetterFacts.getCollectionFrequencyWeight_returns term Hvalid)).
    now rewrite DerivedFacts.get_weightsOf, Hn.
  - apply DerivedFacts.keys_vectorOf.
  - simpl. rewrite DerivedFacts.get_vectorOf, DerivedFacts.get_weightsOf, Hn. simpl.
    unfold CorpusState.bm25. now rewrite avgLengthOf_averageLength.
Qed.

Lemma document_vector_weights_witness :
  exists (vector : JsMap.t R) (idf : R),
    Corpus.run (Corpus.getDocumentVector (js "document3")) testCorpus = Ok (Some vector)
    /\ List.length (JsMap.keys vector) = 11
    /\ JsMap.get (js "bit") vector
       = Some (idf * INR 2 * (Corpus._K1 testCorpus + 1)
               / (Corpus._K1 testCorpus
                  * (1 - Corpus._b testCorpus
                     + Corpus._b testCorpus * (INR 13 / averageLength testCorpus))
                  + INR 2))%R.
Proof.
  destruct (@document_vector_weights testCorpus (js "document3") (testDocument "document3")
              (List.map js ["test"; "document"; "number"; "quite"; "short"; "also";
                            "three"; "bit"; "different"; "tiny"; "longer"]%string)
              (js "bit") testCorpus_valid)
    as (vector & idf & Hvector & _ & Hkeys & Hbit).
  - vm_compute. reflexivity.
  - vm_compute. reflexivity.
  - apply JsSet_has_In. vm_compute. reflexivity.
  - exists vector, idf. split; [exact Hvector|]. split; [now rewrite Hkeys|].
    assert (Document.getTermFrequency (js "bit") (testDocument "document3") = 2) as Htf
      by (vm_compute; reflexivity).
    assert (Document.getLength (testDocument "document3") = 13) as Hlen
      by (vm_compute; reflexivity).
    cbv zeta in Hbit. rewrite Htf, Hlen in Hbit. exact Hbit.
Defined.

(** ** Sorting by score *)

Module SortFacts.

Lemma positive_iff (x : R) : positive x = true <-> (0 < x)%R.
Proof. unfold positive. destruct (Rlt_dec 0 x); split; auto; discriminate. Qed.

Lemma positive_false_iff (x : R) : positive x = false <-> (x <= 0)%R.
Proof.
  unfold positive. destruct (Rlt_dec 0 x); split; auto; try discriminate; lra.
Qed.

Lemma truthy_false_iff (x : R) : truthy x = false <-> x = 0%R.
Proof. unfold truthy. destruct (Req_dec_T x 0); split; auto; try discriminate; tauto. Qed.

Lemma truthy_iff (x : R) : truthy x = true <-> x <> 0%R.
Proof. unfold truthy. destruct (Req_dec_T x 0); split; auto; try discriminate; tauto. Qed.

Section Sort.

Context {A : Type} (compare : A -> A -> R).

Lemma insertBy_perm (x : A) (l : list A) : Permutation (insertBy compare x l) (x :: l).
Proof.
  induction l as [|y l IH]; simpl; [reflexivity|].
  destruct (positive (compare x y)); [|reflexivity].
  rewrite IH. apply perm_swap.
Qed.

Lemma sortBy_perm (l : list A) : Permutation (sortBy compare l) l.
Proof.
  induction l as [|x l IH]; simpl; [reflexivity|].
  rewrite insertBy_perm. now constructor.
Qed.

Lemma sortBy_In (l : list A) (x : A) : In x (sortBy compare l) <-> In x l.
Proof.
  split; apply Permutation_in; [apply sortBy_perm | symmetry; apply sortBy_perm].
Qed.

End Sort.

Lemma insertBy_descending {A} (x : A * R) (l : list (A * R)) :
  StronglySorted descending l -> StronglySorted descending (insertBy byScoreDesc x l).
Proof.
  induction 1 as [|y l Hsorted IH Hall]; simpl.
  - repeat constructor.
  - destruct (positive (byScoreDesc x y)) eqn:E.
    + apply positive_iff in E. unfold byScoreDesc in E.
      constructor; [assumption|].
      apply (Permutation_Forall (Permutation_sym (insertBy_perm byScoreDesc x l))).
      constructor; [unfold descending; lra | assumption].
    + apply positive_false_iff in E. unfold byScoreDesc in E.
      constructor; [now constructor|].
      constructor; [unfold descending; lra|].
      rewrite Forall_forall in Hall |- *. intros z Hz.
      specialize (Hall z Hz). unfold descending in *. lra.
Qed.

Lemma sortBy_descending {A} (l : list (A * R)) :
  StronglySorted descending (sortBy byScoreDesc l).
Proof.
  induction l as [|x l IH]; simpl; [constructor | now apply insertBy_descending].
Qed.

Lemma firstn_In {A} (n : nat) (l : list A) (x : A) : In x (List.firstn n l) -> In x l.
Proof.
  revert l; induction n as [|n IH]; intros [|y l]; simpl; try tauto.
  intros [->|H]; auto.
Qed.

End SortFacts.

(** ** Common terms *)

Module CommonFacts.

Import Corpus CorpusState MemoFacts.

Lemma mapR_ok {A B} (g : A -> B) (l : list A) :
  mapR (fun x => Ok (g x)) l = Ok (List.map g l).
Proof. induction l as [|x l IH]; simpl; [reflexivity | now rewrite IH]. Qed.

Lemma base_vectorFor c c' d : base c' = base c -> vectorFor c' d = vectorFor c d.
Proof.
  intros H. unfold vectorFor. rewrite (base_weightsOf H), (base_avgLengthOf H).
  apply base_inv in H as (_ & HK & Hb & _). now rewrite HK, Hb.
Qed.

Lemma getDocumentVector_in c c' identifier :
  valid c' -> base c' = base c ->
  returns (getDocumentVector identifier) c'
          (option_map (vectorFor c) (JsMap.get identifier (_documents c))).
Proof.
  intros Hvalid Hbase.
  pose proof (GetterFacts.getDocumentVector_returns identifier Hvalid) as H.
  rewrite DerivedFacts.get_vectorsOf in H by apply Hvalid.
  pose proof (base_inv Hbase) as (_ & _ & _ & Hd). rewrite Hd in H.
  destruct (JsMap.get identifier (_documents c)); simpl in *; [|exact H].
  fold (vectorFor c' t0) in H. now rewrite (base_vectorFor t0 Hbase) in H.
Qed.

Lemma getCommonTerms_returns c identifier1 identifier2 maxTerms d1 d2 :
  valid c ->
  JsMap.get identifier1 (_documents c) = Some d1 ->
  JsMap.get identifier2 (_documents c) = Some d2 ->
  returns (getCommonTerms identifier1 identifier2 maxTerms) c
          (commonTermsOf (vectorFor c d1) (vectorFor c d2)
                         (match maxTerms with Some n => n | None => 10 end)).
Proof.
  intros Hvalid H1 H2.
  destruct (getDocumentVector_in (c := c) identifier1 Hvalid eq_refl)
    as (c1 & Hrun1 & Hb1 & Hv1).
  destruct (getDocumentVector_in (c := c) identifier2 Hv1 Hb1)
    as (c2 & Hrun2 & Hb2 & Hv2).
  rewrite H1 in Hrun1. rewrite H2 in Hrun2. simpl in *.
  exists c2. unfold getCommonTerms, bind. rewrite Hrun1, Hrun2.
  unfold lift, JsMap.entries. rewrite mapR_ok. unfold ret.
  split; [reflexivity | split; [congruence | assumption]].
Qed.

(** [vector1] is [undefined]: reading its entries throws. *)
Lemma getCommonTerms_first_unknown c identifier1 identifier2 maxTerms :
  valid c ->
  JsMap.get identifier1 (_documents c) = None ->
  run (getCommonTerms identifier1 identifier2 maxTerms) c = Throw TypeError.
Proof.
  intros Hvalid H1.
  destruct (getDocumentVector_in (c := c) identifier1 Hvalid eq_refl)
    as (c1 & Hrun1 & Hb1 & Hv1).
  destruct (getDocumentVector_in (c := c) identifier2 Hv1 Hb1)
    as (c2 & Hrun2 & Hb2 & Hv2).
  rewrite H1 in Hrun1. simpl in *.
  unfold run, getCommonTerms, bind. rewrite Hrun1, Hrun2. reflexivity.
Qed.

(** [vector2] is [undefined]: the first product throws. *)
Lemma getCommonTerms_second_unknown c identifier1 identifier2 maxTerms d1 :
  valid c ->
  JsMap.get identifier1 (_documents c) = Some d1 ->
  JsMap.get identifier2 (_documents c) = None ->
  frequenciesOf c <> [] ->
  run (getCommonTerms identifier1 identifier2 maxTerms) c = Throw TypeError.
Proof.
  intros Hvalid H1 H2 Hvocabulary.
  destruct (getDocumentVector_in (c := c) identifier1 Hvalid eq_refl)
    as (c1 & Hrun1 & Hb1 & Hv1).
  destruct (getDocumentVector_in (c := c) identifier2 Hv1 Hb1)
    as (c2 & Hrun2 & Hb2 & Hv2).
  rewrite H1 in Hrun1. rewrite H2 in Hrun2. simpl in *.
  unfold run, getCommonTerms, bind. rewrite Hrun1, Hrun2. unfold lift, JsMap.entries.
  pose proof (DerivedFacts.keys_vectorOf c d1) as Hkeys. fold (vectorFor c d1) in Hkeys.
  destruct (vectorFor c d1) as [|e v]; [|reflexivity].
  destruct (frequenciesOf c); [contradiction | discriminate].
Qed.

Lemma getTopTermsForDocument_unknown c identifier maxTerms :
  valid c ->
  JsMap.get identifier (_documents c) = None ->
  run (getTopTermsForDocument identifier maxTerms) c = Ok [].
Proof.
  intros Hvalid H.
  destruct (getDocumentVector_in (c := c) identifier Hvalid eq_refl)
    as (c1 & Hrun1 & Hb1 & Hv1).
  rewrite H in Hrun1. simpl in *.
  unfold run, getTopTermsForDocument, bind. rewrite Hrun1. reflexivity.
Qed.

Lemma getTopTermsForDocument_returns c identifier maxTerms d :
  valid c ->
  JsMap.get identifier (_documents c) = Some d ->
  returns (getTopTermsForDocument identifier maxTerms) c
          (List.firstn (match maxTerms with Some n => n | None => 30 end)
             (sortBy byScoreDesc
                (List.filter (fun e => positive (snd e)) (vectorFor c d)))).
Proof.
  intros Hvalid H.
  destruct (getDocumentVector_in (c := c) identifier Hvalid eq_refl)
    as (c1 & Hrun1 & Hb1 & Hv1).
  rewrite H in Hrun1. simpl in *.
  exists c1. unfold getTopTermsForDocument, bind. rewrite Hrun1.
  unfold ret, JsMap.entries. auto.
Qed.

(** Two vectors over the same weighted vocabulary give the same products in
    either order. *)
Lemma products_symmetric (weights : JsMap.t R) (f g : jsstring * R -> R) :
  NoDup (JsMap.keys weights) ->
  List.map (fun entry =>
              (fst entry,
               timesLookup (snd entry)
                 (JsMap.get (fst entry) (List.map (fun e => (fst e, g e)) weights))))
           (List.map (fun e => (fst e, f e)) weights)
  = List.map (fun e => (fst e, Some (f e * g e)%R)) weights.
Proof.
  intros Hnd. rewrite map_map. apply map_ext_in. intros e He. simpl.
  rewrite (@JsMapFacts.in_get_nodup _ (fst e) (g e)); [reflexivity | |].
  - unfold JsMap.keys. rewrite map_map. exact Hnd.
  - apply in_map_iff. exists e. auto.
Qed.

Lemma vectorFor_map c d :
  vectorFor c d
  = List.map (fun e => (fst e, bm25 c d (fst e) (snd e))) (weightsOf c).
Proof.
  unfold vectorFor. rewrite DerivedFacts.vectorOf_map; [reflexivity|].
  rewrite DerivedFacts.keys_weightsOf. apply DerivedFacts.frequenciesOf_NoDup.
Qed.

Lemma commonTermsOf_symmetric c d1 d2 n :
  commonTermsOf (vectorFor c d1) (vectorFor c d2) n
  = commonTermsOf (vectorFor c d2) (vectorFor c d1) n.
Proof.
  assert (NoDup (JsMap.keys (weightsOf c))) as Hnd.
  { rewrite DerivedFacts.keys_weightsOf. apply DerivedFacts.frequenciesOf_NoDup. }
  unfold commonTermsOf. rewrite !vectorFor_map.
  rewrite (@products_symmetric _ (fun e => bm25 c d1 (fst e) (snd e))
                               (fun e => bm25 c d2 (fst e) (snd e)) Hnd).
  rewrite (@products_symmetric _ (fun e => bm25 c d2 (fst e) (snd e))
                               (fun e => bm25 c d1 (fst e) (snd e)) Hnd).
  do 3 f_equal. apply map_ext. intros e. now rewrite Rmult_comm.
Qed.

Lemma commonTermsOf_In (vector1 vector2 : JsMap.t R) n term score :
  NoDup (JsMap.keys vector1) ->
  In (term, score) (commonTermsOf vector1 vector2 n) ->
  exists w1 w2,
    JsMap.get term vector1 = Some w1 /\ JsMap.get term vector2 = Some w2
    /\ score = (w1 * w2)%R /\ (0 < score)%R.
Proof.
  intros Hnd Hin. unfold commonTermsOf in Hin.
  apply SortFacts.firstn_In in Hin. apply SortFacts.sortBy_In in Hin.
  apply in_flat_map in Hin as [[t o] [Hprod Hkeep]].
  apply in_map_iff in Hprod as [[t1 w1] [E Hin1]]. simpl in E.
  injection E as -> <-.
  unfold keepPositive in Hkeep. simpl in Hkeep.
  destruct (JsMap.get t vector2) as [w2|] eqn:E2; simpl in Hkeep; [|destruct Hkeep].
  destruct (positive (w1 * w2)) eqn:Hpos; [|destruct Hkeep].
  destruct Hkeep as [E|[]]. injection E as -> <-.
  exists w1, w2. repeat split; auto.
  - now apply JsMapFacts.in_get_nodup.
  - now apply SortFacts.positive_iff.
Qed.

End CommonFacts.

(** C8: for two documents [a] and [b] of the corpus, [getCommonTerms(a, b)] and
    [getCommonTerms(b, a)] return the same (term, score) pairs (indeed the same
    list, whether called on the same state or one after the other), and each
    score is the product of the two documents' weights for the term. *)
Theorem common_terms_symmetric (c : Corpus.t) (a b : jsstring) (maxTerms : option nat)
    (da db : Document.t)
    (Hvalid : CorpusState.valid c)
    (Ha : Corpus.run (Corpus.getDocument a) c = Ok (Some da))
    (Hb : Corpus.run (Corpus.getDocument b) c = Ok (Some db)) :
  exists (common : list (jsstring * R)) (va vb : JsMap.t R),
    Corpus.run (Corpus.getCommonTerms a b maxTerms) c = Ok common
    /\ Corpus.run (Corpus.getCommonTerms b a maxTerms) c = Ok common
    /\ Corpus.run
         (Corpus.bind (Corpus.getCommonTerms a b maxTerms) (fun ab =>
          Corpus.bind (Corpus.getCommonTerms b a maxTerms) (fun ba =>
          Corpus.ret (ab, ba)))) c
       = Ok (common, common)
    /\ Corpus.run (Corpus.getDocumentVector a) c = Ok (Some va)
    /\ Corpus.run (Corpus.getDocumentVector b) c = Ok (Some vb)
    /\ (forall p, In p common ->
          snd p = (weightAt va (fst p) * weightAt vb (fst p))%R /\ (0 < snd p)%R).
Proof.
  rewrite (MemoFacts.returns_run (GetterFacts.getDocument_returns a Hvalid)) in Ha.
  rewrite (MemoFacts.returns_run (GetterFacts.getDocument_returns b Hvalid)) in Hb.
  injection Ha as Ha. injection Hb as Hb.
  set (n := match maxTerms with Some n => n | None => 10 end).
  exists (commonTermsOf (CorpusState.vectorFor c da) (CorpusState.vectorFor c db) n),
         (CorpusState.vectorFor c da), (CorpusState.vectorFor c db).
  pose proof (@CommonFacts.getCommonTerms_returns c a b maxTerms da db Hvalid Ha Hb) as Hab.
  pose proof (@CommonFacts.getCommonTerms_returns c b a maxTerms db da Hvalid Hb Ha) as Hba.
  fold n in Hab, Hba.
  rewrite <- (CommonFacts.commonTermsOf_symmetric c da db n) in Hba.
  split; [now apply MemoFacts.returns_run|].
  split; [now apply MemoFacts.returns_run|].
  split; [|split; [|split]].
  - apply MemoFacts.returns_run.
    eapply MemoFacts.returns_bind; [exact Hab|]. intros c1 Hb1 Hv1.
    pose proof (MemoFacts.base_inv Hb1) as (_ & _ & _ & Hd). rewrite <- Hd in Ha, Hb.
    pose proof (@CommonFacts.getCommonTerms_returns c1 b a maxTerms db da Hv1 Hb Ha) as Hba1.
    fold n in Hba1.
    rewrite !(CommonFacts.base_vectorFor _ Hb1) in Hba1.
    rewrite <- (CommonFacts.commonTermsOf_symmetric c da db n) in Hba1.
    eapply MemoFacts.returns_bind; [exact Hba1|]. intros c2 Hb2 Hv2.
    now apply MemoFacts.returns_ret.
  - apply MemoFacts.returns_run. now apply getDocumentVector_present.
  - apply MemoFacts.returns_run. now apply getDocumentVector_present.
  - intros [term score] Hin. simpl.
    apply CommonFacts.commonTermsOf_In in Hin.
    + destruct Hin as (w1 & w2 & H1 & H2 & Hscore & Hpos).
      unfold weightAt. rewrite H1, H2. auto.
    + unfold CorpusState.vectorFor. rewrite DerivedFacts.keys_vectorOf.
      apply DerivedFacts.frequenciesOf_NoDup.
Qed.

Lemma common_terms_symmetric_witness :
  exists common : list (jsstring * R),
    Corpus.run (Corpus.getCommonTerms (js "document1") (js "document2") None) testCorpus
    = Ok common
    /\ Corpus.run (Corpus.getCommonTerms (js "document2") (js "document1") None) testCorpus
       = Ok common.
Proof.
  destruct (@common_terms_symmetric testCorpus (js "document1") (js "document2") None
              (testDocument "document1") (testDocument "document2") testCorpus_valid)
    as (common & _ & _ & Hab & Hba & _).
  - vm_compute. reflexivity.
  - vm_compute. reflexivity.
  - exists common. split; assumption.
Defined.

(** ** Queries *)

Module QueryFacts.

Import Corpus CorpusState MemoFacts.

Lemma scoreOf_from (v : JsMap.t R) (terms : list jsstring) : forall score : R,
  fold_left
    (fun acc term =>
       result_bind acc (fun score =>
         match Some v with
         | None => Throw TypeError
         | Some v =>
             match JsMap.get term v with
             | Some weight => if truthy weight then Ok (score + weight)%R else Ok score
             | None => Ok score
             end
         end))
    terms (Ok score)
  = Ok (score + queryScore v terms)%R.
Proof.
  unfold queryScore.
  induction terms as [|term terms IH]; simpl; intros score.
  - f_equal. lra.
  - assert (weightAt v term
            = match JsMap.get term v with Some w => w | None => 0%R end) as Hw
      by reflexivity.
    destruct (JsMap.get term v) as [weight|].
    + destruct (truthy weight) eqn:E; rewrite IH, Hw; f_equal; [lra|].
      apply SortFacts.truthy_false_iff in E. lra.
    + rewrite IH, Hw. f_equal. lra.
Qed.

Lemma scoreOf_vector (v : JsMap.t R) (terms : list jsstring) :
  scoreOf (Some v) terms = Ok (queryScore v terms).
Proof. unfold scoreOf. rewrite scoreOf_from. f_equal. lra. Qed.

Lemma mapM_returns {A B} (f : A -> M B) (g : A -> B) (xs : list A) : forall c,
  valid c ->
  (forall x c', In x xs -> base c' = base c -> valid c' -> returns (f x) c' (g x)) ->
  returns (mapM f xs) c (List.map g xs).
Proof.
  induction xs as [|x xs IH]; simpl; intros c Hvalid Hf.
  - now apply returns_ret.
  - eapply returns_bind; [apply Hf; auto|]. intros c1 Hb1 Hv1.
    eapply returns_bind.
    + apply IH; [assumption|]. intros y c' Hy Hb' Hv'. apply Hf; auto. congruence.
    + intros c2 Hb2 Hv2. now apply returns_ret.
Qed.

(** The score [getResultsForQuery] gives the document with an identifier. *)
Lemma score_returns c c' (terms : list jsstring) identifier d :
  valid c' -> base c' = base c ->
  JsMap.get identifier (_documents c) = Some d ->
  returns (bind (getDocumentVector identifier) (fun vector =>
           bind (lift (scoreOf vector terms)) (fun score =>
           ret (identifier, score))))
          c' (identifier, queryScore (vectorFor c d) terms).
Proof.
  intros Hvalid Hbase Hd.
  pose proof (@CommonFacts.getDocumentVector_in c c' identifier Hvalid Hbase) as Hvec.
  rewrite Hd in Hvec. simpl in Hvec.
  eapply returns_bind; [exact Hvec|]. intros c1 Hb1 Hv1.
  rewrite scoreOf_vector. exists c1. auto.
Qed.

Lemma map_keys_entries {V W} (f : jsstring -> V -> W) (default : jsstring -> W)
    (m : JsMap.t V) :
  NoDup (JsMap.keys m) ->
  List.map (fun k => match JsMap.get k m with Some v => f k v | None => default k end)
           (JsMap.keys m)
  = List.map (fun e => f (fst e) (snd e)) m.
Proof.
  intros Hnd. unfold JsMap.keys. rewrite map_map. apply map_ext_in.
  intros [k v] Hin. simpl. now rewrite (@JsMapFacts.in_get_nodup _ k v m Hnd Hin).
Qed.

Lemma getResultsForQuery_returns c (query : jsvalue) (terms : list jsstring) :
  valid c ->
  _queryToUniqueTerms query = Ok terms ->
  terms <> [] ->
  returns (getResultsForQuery query) c (resultsOf c terms).
Proof.
  intros Hvalid Hterms Hne.
  unfold getResultsForQuery. rewrite Hterms.
  eapply returns_bind; [exists c; unfold lift; auto|]. intros c0 Hb0 Hv0.
  destruct terms as [|term0 terms0]; [contradiction|].
  change (List.length (term0 :: terms0) =? 0) with false. cbv iota.
  eapply returns_bind; [apply GetterFacts.getDocumentIdentifiers_returns; assumption|].
  intros c1 Hb1 Hv1.
  pose proof (base_inv Hb0) as (_ & _ & _ & Hd0).
  eapply returns_bind.
  - apply (@mapM_returns _ _ _
             (fun identifier =>
                match JsMap.get identifier (_documents c) with
                | Some d => (identifier, queryScore (vectorFor c d) (term0 :: terms0))
                | None => (identifier, 0%R)
                end)); [assumption|].
    intros identifier c' Hin Hb' Hv'.
    rewrite Hd0 in Hin. apply JsMapFacts.in_keys_get in Hin as [d Hd].
    rewrite Hd. apply score_returns; [assumption | congruence | assumption].
  - intros c2 Hb2 Hv2. rewrite Hd0.
    rewrite (@map_keys_entries _ _
               (fun identifier d =>
                  (identifier, queryScore (vectorFor c d) (term0 :: terms0)))
               (fun identifier => (identifier, 0%R)))
      by apply Hvalid.
    apply returns_ret. assumption.
Qed.

Lemma queryToUniqueTerms_text (query : jsstring) (d : Document.t) :
  TextDocument.new query = Ok d ->
  _queryToUniqueTerms (VString query) = Ok (Document.getUniqueTerms d).
Proof.
  intros H. unfold _queryToUniqueTerms.
  destruct query as [|u query]; [discriminate|].
  change (0 <? List.length (u :: query)) with true. cbv iota. now rewrite H.
Qed.

Lemma NoDup_keys_filter {V} (keep : jsstring * V -> bool) (l : list (jsstring * V)) :
  NoDup (List.map fst l) -> NoDup (List.map fst (List.filter keep l)).
Proof.
  induction l as [|e l IH]; simpl; intros H; [constructor|].
  inversion H as [|? ? Hnot Hnd]; subst.
  destruct (keep e); simpl; [|now apply IH].
  constructor; [|now apply IH].
  intros Hin. apply Hnot. apply in_map_iff in Hin as [e' [E He']].
  apply filter_In in He' as [He' _]. rewrite <- E. now apply in_map.
Qed.

End QueryFacts.

(** C4: for a query whose text tokenizes to a non-empty list of unique terms
    (a list without repetition, so a repeated query word counts once),
    [getResultsForQuery] returns exactly the documents whose score is positive,
    each once, with the score the sum over the query terms of the document's
    weight for the term (a term without an entry in the vector adds nothing),
    in descending order of score. *)
Theorem query_results (c : Corpus.t) (query : jsstring) (q : Document.t)
    (Hvalid : CorpusState.valid c)
    (Hquery : TextDocument.new query = Ok q)
    (Hterms : Document.getUniqueTerms q <> []) :
  let terms := Document.getUniqueTerms q in
  exists results : list (jsstring * R),
    Corpus.run (Corpus.getResultsForQuery (VString query)) c = Ok results
    /\ NoDup terms
    /\ (forall p,
          In p results <->
          exists vector,
            Corpus.run (Corpus.getDocumentVector (fst p)) c = Ok (Some vector)
            /\ snd p = sumOver terms (weightAt vector)
            /\ (0 < snd p)%R)
    /\ NoDup (List.map fst results)
    /\ StronglySorted descending results.
Proof.
  intros terms. exists (resultsOf c terms).
  pose proof (QueryFacts.queryToUniqueTerms_text query Hquery) as Hq. fold terms in Hq.
  assert (NoDup (JsMap.keys (Corpus._documents c))) as Hnd by apply Hvalid.
  split; [|split; [|split; [|split]]].
  - apply MemoFacts.returns_run. now apply QueryFacts.getResultsForQuery_returns.
  - apply CountFacts.uniqueTerms_NoDup.
  - intros [identifier score]. unfold resultsOf. rewrite SortFacts.sortBy_In, filter_In.
    rewrite in_map_iff. simpl. split.
    + intros [[[id d] [E Hin]] Hpos]. simpl in E. injection E as -> <-.
      exists (CorpusState.vectorFor c d).
      split; [|split; [reflexivity | now apply SortFacts.positive_iff]].
      apply MemoFacts.returns_run. apply getDocumentVector_present; [assumption|].
      now apply JsMapFacts.in_get_nodup.
    + intros (vector & Hvector & Hscore & Hpos).
      rewrite (MemoFacts.returns_run
                 (@CommonFacts.getDocumentVector_in c c identifier Hvalid eq_refl))
        in Hvector.
      destruct (JsMap.get identifier (Corpus._documents c)) as [d|] eqn:Hd;
        simpl in Hvector; [|discriminate].
      injection Hvector as <-.
      split; [|now apply SortFacts.positive_iff].
      exists (identifier, d). split; [simpl; now rewrite Hscore|].
      now apply JsMapFacts.get_Some_in.
  - unfold resultsOf.
    apply (Permutation_NoDup
             (Permutation_map fst (Permutation_sym (SortFacts.sortBy_perm byScoreDesc _)))).
    apply QueryFacts.NoDup_keys_filter. rewrite map_map. exact Hnd.
  - apply SortFacts.sortBy_descending.
Qed.

Lemma query_results_witness :
  exists results : list (jsstring * R),
    Corpus.run (Corpus.getResultsForQuery (VString (js "a bit of a test query")))
               testCorpus
    = Ok results
    /\ StronglySorted descending results.
Proof.
  destruct (TextDocument.new (js "a bit of a test query")) as [q|e] eqn:Hq;
    [|vm_compute in Hq; discriminate].
  destruct (@query_results testCorpus (js "a bit of a test query") q testCorpus_valid Hq)
    as (results & Hrun & _ & _ & _ & Hsorted).
  - vm_compute in Hq. injection Hq as <-. vm_compute. discriminate.
  - exists results. split; assumption.
Defined.

(** C5: where the guards are and where they are missing, on the test corpus.
    An empty or non-string query gives no results, an unknown identifier gives
    no vector and no top terms; but [getCommonTerms] with an unknown identifier
    throws a [TypeError], and so does a query without any letter. *)
Theorem unknown_input_behaviour :
  Corpus.run (Corpus.getResultsForQuery (VString [])) testCorpus = Ok []
  /\ Corpus.run (Corpus.getResultsForQuery (VNumber 2)) testCorpus = Ok []
  /\ Corpus.run (Corpus.getDocumentVector (js "missing")) testCorpus = Ok None
  /\ Corpus.run (Corpus.getTopTermsForDocument (js "missing") None) testCorpus = Ok []
  /\ Corpus.run (Corpus.getCommonTerms (js "missing") (js "document1") None) testCorpus
     = Throw TypeError
  /\ Corpus.run (Corpus.getCommonTerms (js "document1") (js "missing") None) testCorpus
     = Throw TypeError
  /\ Corpus.run (Corpus.getResultsForQuery (VString (js "42"))) testCorpus
     = Throw TypeError.
Proof.
  assert (JsMap.get (js "missing") (Corpus._documents testCorpus) = None) as Hmissing
    by (vm_compute; reflexivity).
  split; [reflexivity|]. split; [reflexivity|].
  split; [|split; [|split; [|split]]].
  - apply MemoFacts.returns_run.
    now apply getDocumentVector_absent; [apply testCorpus_valid|].
  - now apply CommonFacts.getTopTermsForDocument_unknown; [apply testCorpus_valid|].
  - now apply CommonFacts.getCommonTerms_first_unknown; [apply testCorpus_valid|].
  - apply (@CommonFacts.getCommonTerms_second_unknown testCorpus (js "document1")
             (js "missing") None (testDocument "document1") testCorpus_valid).
    + vm_compute. reflexivity.
    + exact Hmissing.
    + vm_compute. discriminate.
  - reflexivity.
Qed.

(** ** Cosine similarity *)

Module CosineFacts.

Import Similarity.
Local Open Scope R_scope.

Lemma sumOver_perm (f : jsstring -> R) (l l' : list jsstring) :
  Permutation l l' -> sumOver l f = sumOver l' f.
Proof.
  unfold sumOver. induction 1 as [|x l l' _ IH|x y l|l l' l'' _ IH1 _ IH2]; simpl.
  - reflexivity.
  - now rewrite IH.
  - lra.
  - congruence.
Qed.

Lemma sumOver_ext (f g : jsstring -> R) (l : list jsstring) :
  (forall t, In t l -> f t = g t) -> sumOver l f = sumOver l g.
Proof.
  unfold sumOver. induction l as [|x l IH]; simpl; intros H; [reflexivity|].
  rewrite (H x) by now left. rewrite IH; [reflexivity|]. intros t Ht. apply H. now right.
Qed.

Lemma sumOver_nonneg (f : jsstring -> R) (l : list jsstring) :
  (forall t, In t l -> 0 <= f t) -> 0 <= sumOver l f.
Proof.
  unfold sumOver. induction l as [|x l IH]; simpl; intros H; [lra|].
  assert (0 <= f x) by (apply H; now left).
  assert (0 <= fold_right (fun term acc => f term + acc) 0 l)
    by (apply IH; intros t Ht; apply H; now right).
  lra.
Qed.

Lemma sumOver_squares_nonneg (a : jsstring -> R) (l : list jsstring) :
  0 <= sumOver l (fun t => a t * a t).
Proof. apply sumOver_nonneg. intros t _. nra. Qed.

Lemma cauchy_schwarz (a b : jsstring -> R) (l : list jsstring) :
  sumOver l (fun t => a t * b t) * sumOver l (fun t => a t * b t)
  <= sumOver l (fun t => a t * a t) * sumOver l (fun t => b t * b t).
Proof.
  induction l as [|x l IH].
  - unfold sumOver. simpl. lra.
  - pose proof (sumOver_squares_nonneg a l) as Ha.
    pose proof (sumOver_squares_nonneg b l) as Hb.
    unfold sumOver in *. simpl.
    set (sab := fold_right (fun term acc => a term * b term + acc) 0 l) in *.
    set (saa := fold_right (fun term acc => a term * a term + acc) 0 l) in *.
    set (sbb := fold_right (fun term acc => b term * b term + acc) 0 l) in *.
    set (u := a x) in *. set (v := b x) in *.
    clearbody sab saa sbb u v.
    assert (2 * (u * v) * sab <= u * u * sbb + v * v * saa) as Hmid.
    { destruct (Rle_or_lt (2 * (u * v) * sab) (u * u * sbb + v * v * saa)) as [H|H];
        [exact H|].
      assert (0 <= u * u * sbb) by nra.
      assert (0 <= v * v * saa) by nra.
      assert ((u * u * sbb + v * v * saa) * (u * u * sbb + v * v * saa)
              < (2 * (u * v) * sab) * (2 * (u * v) * sab)) by nra.
      assert ((2 * (u * v) * sab) * (2 * (u * v) * sab)
              <= 4 * (u * u * sbb) * (v * v * saa)).
      { assert (0 <= (u * v) * (u * v)) by nra.
        replace ((2 * (u * v) * sab) * (2 * (u * v) * sab))
          with (4 * ((u * v) * (u * v)) * (sab * sab)) by ring.
        replace (4 * (u * u * sbb) * (v * v * saa))
          with (4 * ((u * v) * (u * v)) * (saa * sbb)) by ring.
        nra. }
      pose proof (Rle_0_sqr (u * u * sbb - v * v * saa)) as Hsq. unfold Rsqr in Hsq.
      nra. }
    nra.
Qed.

Lemma sumOver_zero (f : jsstring -> R) (l : list jsstring) :
  (forall t, In t l -> f t = 0) -> sumOver l f = 0.
Proof.
  unfold sumOver. induction l as [|x l IH]; simpl; intros H; [reflexivity|].
  rewrite (H x) by now left. rewrite IH; [lra|]. intros t Ht. apply H. now right.
Qed.

Lemma sumOver_pos (f : jsstring -> R) (l : list jsstring) (t : jsstring) :
  (forall x, In x l -> 0 <= f x) -> In t l -> 0 < f t -> 0 < sumOver l f.
Proof.
  unfold sumOver. induction l as [|x l IH]; simpl; intros Hnn Hin Hpos; [destruct Hin|].
  assert (0 <= f x) by (apply Hnn; now left).
  assert (0 <= fold_right (fun term acc => f term + acc) 0 l).
  { apply (sumOver_nonneg f l). intros y Hy. apply Hnn. now right. }
  destruct Hin as [->|Hin]; [lra|].
  assert (0 < fold_right (fun term acc => f term + acc) 0 l); [|lra].
  apply IH; auto.
Qed.

(** The dot product is at most the product of the norms. *)
Lemma dot_le_norms (terms : list jsstring) (vectorA vectorB : JsMap.t R) :
  (forall t, 0 <= weightAt vectorA t) ->
  (forall t, 0 <= weightAt vectorB t) ->
  0 <= dot terms vectorA vectorB <= norm terms vectorA * norm terms vectorB.
Proof.
  intros HA HB. unfold dot, norm.
  pose proof (cauchy_schwarz (weightAt vectorA) (weightAt vectorB) terms) as Hcs.
  pose proof (sumOver_squares_nonneg (weightAt vectorA) terms) as Haa.
  pose proof (sumOver_squares_nonneg (weightAt vectorB) terms) as Hbb.
  assert (0 <= sumOver terms (fun t => weightAt vectorA t * weightAt vectorB t)) as Hab.
  { apply sumOver_nonneg. intros t _. specialize (HA t). specialize (HB t). nra. }
  split; [exact Hab|].
  set (sab := sumOver terms (fun t => weightAt vectorA t * weightAt vectorB t)) in *.
  set (saa := sumOver terms (fun t => weightAt vectorA t * weightAt vectorA t)) in *.
  set (sbb := sumOver terms (fun t => weightAt vectorB t * weightAt vectorB t)) in *.
  clearbody sab saa sbb.
  pose proof (sqrt_pos saa) as Hpa. pose proof (sqrt_pos sbb) as Hpb.
  pose proof (sqrt_sqrt saa Haa) as Hsa. pose proof (sqrt_sqrt sbb Hbb) as Hsb.
  destruct (Rle_or_lt sab (sqrt saa * sqrt sbb)) as [H|H]; [exact H|].
  assert (0 <= sqrt saa * sqrt sbb) by nra.
  assert ((sqrt saa * sqrt sbb) * (sqrt saa * sqrt sbb) < sab * sab) by nra.
  replace ((sqrt saa * sqrt sbb) * (sqrt saa * sqrt sbb))
    with ((sqrt saa * sqrt saa) * (sqrt sbb * sqrt sbb)) in * by ring.
  rewrite Hsa, Hsb in *. lra.
Qed.

(** Non-negative weights give a cosine in [0,1]. *)
Lemma cosineSimilarity_range (vectorA vectorB : JsMap.t R) :
  (forall t, 0 <= weightAt vectorA t) ->
  (forall t, 0 <= weightAt vectorB t) ->
  0 <= cosineSimilarity vectorA vectorB <= 1.
Proof.
  intros HA HB. unfold cosineSimilarity.
  set (terms := termUnion vectorA vectorB).
  destruct (truthy (norm terms vectorA) && truthy (norm terms vectorB)) eqn:E; [|lra].
  apply andb_prop in E as [Ea Eb].
  apply SortFacts.truthy_iff in Ea. apply SortFacts.truthy_iff in Eb.
  pose proof (@dot_le_norms terms vectorA vectorB HA HB) as [Hdot Hle].
  assert (0 <= norm terms vectorA) as Hna by apply sqrt_pos.
  assert (0 <= norm terms vectorB) as Hnb by apply sqrt_pos.
  assert (0 < norm terms vectorA * norm terms vectorB) as Hpos by nra.
  set (p := norm terms vectorA * norm terms vectorB) in *.
  set (x := dot terms vectorA vectorB) in *. clearbody p x.
  assert (0 < / p) as Hinv by now apply Rinv_0_lt_compat.
  unfold Rdiv. split; [nra|].
  assert (x * / p <= p * / p) by nra.
  rewrite Rinv_r in * by lra. assumption.
Qed.

Lemma support_In (vector : JsMap.t R) (t : jsstring) :
  In t (support vector) <-> exists w, In (t, w) vector /\ w <> 0.
Proof.
  unfold support, JsMap.keys, JsMap.entries. rewrite in_map_iff. split.
  - intros [[k w] [E Hin]]. simpl in E. subst k.
    apply filter_In in Hin as [Hin Hw]. simpl in Hw.
    exists w. split; [assumption | now apply SortFacts.truthy_iff].
  - intros [w [Hin Hw]]. exists (t, w). split; [reflexivity|].
    apply filter_In. split; [assumption | now apply SortFacts.truthy_iff].
Qed.

Lemma support_NoDup (vector : JsMap.t R) :
  NoDup (JsMap.keys vector) -> NoDup (support vector).
Proof. intros H. unfold support. now apply QueryFacts.NoDup_keys_filter. Qed.

Lemma weightAt_support (vector : JsMap.t R) (t : jsstring) :
  weightAt vector t <> 0 -> In t (support vector).
Proof.
  unfold weightAt. destruct (JsMap.get t vector) as [w|] eqn:E; [|tauto].
  intros Hw. apply support_In. exists w. split; [|assumption].
  now apply JsMapFacts.get_Some_in.
Qed.

Lemma termUnion_In (vectorA vectorB : JsMap.t R) (t : jsstring) :
  In t (termUnion vectorA vectorB) <-> In t (support vectorA) \/ In t (support vectorB).
Proof.
  unfold termUnion. rewrite in_app_iff, filter_In. split.
  - tauto.
  - intros [H|H]; [now left|].
    destruct (JsSet.has t (support vectorA)) eqn:E.
    + left. now apply JsSet_has_In.
    + right. split; [assumption | reflexivity].
Qed.

Lemma termUnion_NoDup (vectorA vectorB : JsMap.t R) :
  NoDup (support vectorA) -> NoDup (support vectorB) ->
  NoDup (termUnion vectorA vectorB).
Proof.
  intros HA HB. unfold termUnion. apply NoDup_app.
  - assumption.
  - now apply NoDup_filter.
  - intros t Ht Hin. apply filter_In in Hin as [_ Hin].
    apply JsSet_has_In in Ht. rewrite Ht in Hin. discriminate.
Qed.

Lemma termUnion_perm (vectorA vectorB : JsMap.t R) :
  NoDup (JsMap.keys vectorA) -> NoDup (JsMap.keys vectorB) ->
  Permutation (termUnion vectorA vectorB) (termUnion vectorB vectorA).
Proof.
  intros HA HB. apply support_NoDup in HA. apply support_NoDup in HB.
  apply NoDup_Permutation; try now apply termUnion_NoDup.
  intros t. rewrite !termUnion_In. tauto.
Qed.

Lemma termUnion_self (vector : JsMap.t R) : termUnion vector vector = support vector.
Proof.
  unfold termUnion.
  assert (List.filter (fun term => negb (JsSet.has term (support vector))) (support vector)
          = []) as ->; [|apply app_nil_r].
  destruct (List.filter _ (support vector)) as [|t l] eqn:E; [reflexivity|].
  assert (In t (List.filter (fun term => negb (JsSet.has term (support vector)))
                            (support vector))) as Hin by (rewrite E; now left).
  apply filter_In in Hin as [Hin Hnot]. apply JsSet_has_In in Hin.
  rewrite Hin in Hnot. discriminate.
Qed.

Lemma cosineSimilarity_sym (vectorA vectorB : JsMap.t R) :
  NoDup (JsMap.keys vectorA) -> NoDup (JsMap.keys vectorB) ->
  cosineSimilarity vectorA vectorB = cosineSimilarity vectorB vectorA.
Proof.
  intros HA HB. pose proof (@termUnion_perm vectorA vectorB HA HB) as Hperm.
  unfold cosineSimilarity, norm, dot.
  rewrite !(sumOver_perm _ Hperm).
  rewrite (sumOver_ext (fun t => weightAt vectorA t * weightAt vectorB t)
                       (fun t => weightAt vectorB t * weightAt vectorA t))
    by (intros; apply Rmult_comm).
  rewrite andb_comm. rewrite (Rmult_comm (sqrt _) (sqrt _)). reflexivity.
Qed.

(** A vector with a non-zero weight is at cosine 1 from itself. *)
Lemma cosineSimilarity_self (vector : JsMap.t R) (t : jsstring) :
  weightAt vector t <> 0 -> cosineSimilarity vector vector = 1.
Proof.
  intros Hw. unfold cosineSimilarity. rewrite termUnion_self. unfold norm, dot.
  set (s := sumOver (support vector) (fun term => weightAt vector term * weightAt vector term)).
  assert (0 < s) as Hs.
  { apply (@sumOver_pos _ _ t).
    - intros x _. nra.
    - now apply weightAt_support.
    - nra. }
  pose proof (sqrt_lt_R0 s Hs) as Hroot.
  assert (truthy (sqrt s) = true) as -> by (apply SortFacts.truthy_iff; lra).
  simpl. rewrite sqrt_sqrt by lra. apply Rdiv_diag. lra.
Qed.

(** A vector without any non-zero weight is at cosine 0 from every vector. *)
Lemma cosineSimilarity_zero (vectorA vectorB : JsMap.t R) :
  (forall t, weightAt vectorA t = 0) -> cosineSimilarity vectorA vectorB = 0.
Proof.
  intros Hzero. unfold cosineSimilarity, norm.
  rewrite (@sumOver_zero (fun t => weightAt vectorA t * weightAt vectorA t))
    by (intros t _; rewrite Hzero; lra).
  rewrite sqrt_0.
  assert (truthy 0 = false) as -> by now apply SortFacts.truthy_false_iff.
  reflexivity.
Qed.

End CosineFacts.

(** ** Weights are non-negative in the specified parameter domain *)

Module WeightFacts.

Import Corpus CorpusState.
Local Open Scope R_scope.

Lemma idfOf_pos (N n : nat) : (1 <= n)%nat -> (n <= N)%nat -> 0 < idfOf N n.
Proof.
  intros H1 HN. unfold idfOf.
  assert (0 < INR n) by (apply lt_0_INR; lia).
  assert (INR n <= INR N) by (apply le_INR; lia).
  assert (ln (INR n) < ln (INR N + 1)); [|lra].
  apply ln_increasing; lra.
Qed.

Lemma div_nonneg (x y : R) : 0 <= x -> 0 <= y -> 0 <= x / y.
Proof.
  intros Hx Hy. destruct (Req_dec_T y 0) as [->|Hne].
  - rewrite Rdiv_0_r. lra.
  - assert (0 < / y) by (apply Rinv_0_lt_compat; lra). unfold Rdiv. nra.
Qed.

Lemma avgLengthOf_nonneg c : 0 <= avgLengthOf c.
Proof. unfold avgLengthOf. apply div_nonneg; apply pos_INR. Qed.

Lemma bm25_nonneg c d term idf :
  0 <= _K1 c -> 0 <= _b c <= 1 -> 0 <= idf -> 0 <= bm25 c d term idf.
Proof.
  intros HK Hb Hidf. unfold bm25.
  destruct (Document.getTermFrequency term d =? 0)%nat eqn:E; [lra|].
  apply Nat.eqb_neq in E.
  assert (1 <= INR (Document.getTermFrequency term d)).
  { change 1 with (INR 1). apply le_INR. lia. }
  assert (0 <= INR (Document.getLength d) / avgLengthOf c).
  { apply div_nonneg; [apply pos_INR | apply avgLengthOf_nonneg]. }
  set (tf := INR (Document.getTermFrequency term d)) in *.
  set (ndl := INR (Document.getLength d) / avgLengthOf c) in *.
  clearbody tf ndl. destruct Hb as [Hb0 Hb1].
  assert (0 <= _b c * ndl) by now apply Rmult_le_pos.
  apply div_nonneg.
  - repeat apply Rmult_le_pos; lra.
  - assert (0 <= _K1 c * (1 - _b c + _b c * ndl)) by (apply Rmult_le_pos; lra).
    lra.
Qed.

Lemma get_vectorFor c d term :
  JsMap.get term (vectorFor c d)
  = option_map (fun n => bm25 c d term (idfOf (JsMap.size (_documents c)) n))
               (JsMap.get term (frequenciesOf c)).
Proof.
  unfold vectorFor. rewrite DerivedFacts.get_vectorOf, DerivedFacts.get_weightsOf.
  now destruct (JsMap.get term (frequenciesOf c)).
Qed.

Lemma weightAt_vectorFor_nonneg c d term :
  0 <= _K1 c -> 0 <= _b c <= 1 -> 0 <= weightAt (vectorFor c d) term.
Proof.
  intros HK Hb. unfold weightAt. rewrite get_vectorFor.
  destruct (JsMap.get term (frequenciesOf c)) as [n|] eqn:E; simpl; [|lra].
  apply bm25_nonneg; try assumption. apply Rlt_le. apply idfOf_pos.
  - now apply (DerivedFacts.frequency_get c term).
  - pose proof (DerivedFacts.frequency_le_size c term) as Hle.
    unfold getOr0 in Hle. now rewrite E in Hle.
Qed.

(** A document without any vocabulary term has the zero vector. *)
Lemma weightAt_vectorFor_zero c d :
  (forall term, In term (JsMap.keys (frequenciesOf c)) ->
                Document.getTermFrequency term d = 0%nat) ->
  forall term, weightAt (vectorFor c d) term = 0.
Proof.
  intros Hzero term. unfold weightAt. rewrite get_vectorFor.
  destruct (JsMap.get term (frequenciesOf c)) as [n|] eqn:E; simpl; [|reflexivity].
  unfold bm25. rewrite Hzero; [reflexivity|]. now apply (JsMapFacts.get_Some_key term _ E).
Qed.

Lemma vectorFor_NoDup c d : NoDup (JsMap.keys (vectorFor c d)).
Proof.
  unfold vectorFor. rewrite DerivedFacts.keys_vectorOf. apply DerivedFacts.frequenciesOf_NoDup.
Qed.

End WeightFacts.

(** ** The distance matrix *)

Module MatrixFacts.

Import Corpus CorpusState MemoFacts Similarity.

Lemma getDistanceMatrix_returns c :
  valid c -> returns getDistanceMatrix c (distanceMatrixOf c).
Proof.
  intros Hvalid. unfold getDistanceMatrix.
  eapply returns_bind; [now apply GetterFacts.getDocumentIdentifiers_returns|].
  intros c1 Hb1 Hv1.
  eapply returns_bind.
  - apply (@QueryFacts.mapM_returns _ _ _
             (fun identifier =>
                match JsMap.get identifier (_documents c) with
                | Some d => vectorFor c d
                | None => []
                end)); [assumption|].
    intros identifier c' Hin Hb' Hv'.
    apply JsMapFacts.in_keys_get in Hin as [d Hd].
    assert (base c' = base c) as Hbase by congruence.
    pose proof (@CommonFacts.getDocumentVector_in c c' identifier Hv' Hbase) as Hvec.
    rewrite Hd in *. simpl in Hvec.
    eapply returns_bind; [exact Hvec|]. intros c2 Hb2 Hv2. now apply returns_ret.
  - intros c2 Hb2 Hv2.
    rewrite (@QueryFacts.map_keys_entries _ _ (fun _ d => vectorFor c d) (fun _ => []))
      by apply Hvalid.
    now apply returns_ret.
Qed.

Lemma nth_error_combine_seq {A} (l : list A) : forall start i,
  List.nth_error (List.combine (List.seq start (List.length l)) l) i
  = option_map (fun x => (start + i, x)) (List.nth_error l i).
Proof.
  induction l as [|x l IH]; intros start i; simpl.
  - now destruct i.
  - destruct i as [|i]; simpl; [now rewrite Nat.add_0_r|].
    rewrite IH. now rewrite Nat.add_succ_r.
Qed.

Lemma nth_error_indexed {A} (l : list A) i :
  List.nth_error (indexed l) i = option_map (fun x => (i, x)) (List.nth_error l i).
Proof. unfold indexed. now rewrite nth_error_combine_seq. Qed.

Lemma entryAt_distanceMatrixOf c i j :
  entryAt (distanceMatrixOf c) i j
  = match List.nth_error (_documents c) i, List.nth_error (_documents c) j with
    | Some ei, Some ej =>
        Some (if i =? j then 0
              else 1 - cosineSimilarity (vectorFor c (snd ei)) (vectorFor c (snd ej)))%R
    | _, _ => None
    end.
Proof.
  unfold entryAt, distanceMatrixOf, distanceRows. simpl.
  rewrite nth_error_map, nth_error_indexed, nth_error_map.
  destruct (List.nth_error (_documents c) i) as [ei|]; simpl; [|reflexivity].
  rewrite nth_error_map, nth_error_indexed, nth_error_map.
  now destruct (List.nth_error (_documents c) j).
Qed.

(** The document and vector behind the [i]-th identifier. *)
Lemma identifier_vector c i identifier vector :
  valid c ->
  List.nth_error (JsMap.keys (_documents c)) i = Some identifier ->
  run (getDocumentVector identifier) c = Ok (Some vector) ->
  exists d,
    List.nth_error (_documents c) i = Some (identifier, d) /\ vector = vectorFor c d.
Proof.
  intros Hvalid Hnth Hvec. unfold JsMap.keys in Hnth. rewrite nth_error_map in Hnth.
  destruct (List.nth_error (_documents c) i) as [[k d]|] eqn:E; [|discriminate].
  simpl in Hnth. injection Hnth as ->.
  exists d. split; [reflexivity|].
  rewrite (returns_run (@CommonFacts.getDocumentVector_in c c identifier Hvalid eq_refl))
    in Hvec.
  rewrite (@JsMapFacts.in_get_nodup _ identifier d (_documents c)) in Hvec.
  - simpl in Hvec. congruence.
  - apply Hvalid.
  - now apply (nth_error_In _ i).
Qed.

End MatrixFacts.

Lemma from_valid names texts options c :
  Corpus.from names texts options = Ok c -> CorpusState.valid c.
Proof.
  unfold Corpus.from. destruct (negb _); [discriminate | apply fromKvps_valid].
Qed.

Lemma stopwordCorpus_built :
  Corpus.from [js "words"; js "stop"] [js "quite short"; js "the and of"]
              (Some commonOptions)
  = Ok stopwordCorpus.
Proof.
  unfold stopwordCorpus.
  rewrite BuilderFacts.from_equal_length, BuilderFacts.fromKvps_unfold by reflexivity.
  assert (exists documents,
             mapR Corpus.convert
                  (List.combine [js "words"; js "stop"]
                     (List.map TextDocument.Text [js "quite short"; js "the and of"]))
             = Ok documents) as [documents ->].
  { eexists. vm_compute. reflexivity. }
  reflexivity.
Qed.

Lemma stopwordCorpus_valid : CorpusState.valid stopwordCorpus.
Proof. exact (from_valid _ _ _ stopwordCorpus_built). Qed.

Lemma Some_inj {A} (x y : A) : Some x = Some y -> x = y.
Proof. now intros [= ->]. Qed.

Lemma Ok_Some_inj {A} (x y : A) : Ok (Some x) = Ok (Some y) -> x = y.
Proof. now intros [= ->]. Qed.

Lemma Ok_inj {A} (x y : A) : Ok x = Ok y -> x = y.
Proof. now intros [= ->]. Qed.

(** C7, as amended: [matrix[i][i]] is 0 for every [i]; for [i <> j],
    [matrix[i][j]] is 1 minus the cosine similarity of the vectors of
    [identifiers[i]] and [identifiers[j]], and so it is on the diagonal for a
    document whose vector has a non-zero weight; the matrix is symmetric; and
    for tuning constants in the domain of the specification ([K1 >= 0],
    [0 <= b <= 1]) every entry lies in [0,1]. *)
Theorem distance_matrix_properties (c : Corpus.t) (Hvalid : CorpusState.valid c) :
  exists dm : Similarity.DistanceMatrix,
    Corpus.run Similarity.getDistanceMatrix c = Ok dm
    /\ Corpus.run Corpus.getDocumentIdentifiers c = Ok (Similarity.identifiers dm)
    /\ (forall i, i < List.length (Similarity.identifiers dm) ->
                  entryAt dm i i = Some 0%R)
    /\ (forall i j idi idj vi vj,
          i <> j ->
          List.nth_error (Similarity.identifiers dm) i = Some idi ->
          List.nth_error (Similarity.identifiers dm) j = Some idj ->
          Corpus.run (Corpus.getDocumentVector idi) c = Ok (Some vi) ->
          Corpus.run (Corpus.getDocumentVector idj) c = Ok (Some vj) ->
          entryAt dm i j = Some (1 - Similarity.cosineSimilarity vi vj)%R)
    /\ (forall i idi vi,
          List.nth_error (Similarity.identifiers dm) i = Some idi ->
          Corpus.run (Corpus.getDocumentVector idi) c = Ok (Some vi) ->
          (exists t, weightAt vi t <> 0%R) ->
          entryAt dm i i = Some (1 - Similarity.cosineSimilarity vi vi)%R)
    /\ (forall i j, entryAt dm i j = entryAt dm j i)
    /\ ((0 <= Corpus._K1 c)%R -> (0 <= Corpus._b c <= 1)%R ->
        forall i j x, entryAt dm i j = Some x -> (0 <= x <= 1)%R).
Proof.
  exists (distanceMatrixOf c).
  split; [apply MemoFacts.returns_run; now apply MatrixFacts.getDistanceMatrix_returns|].
  split; [apply MemoFacts.returns_run; now apply GetterFacts.getDocumentIdentifiers_returns|].
  split; [|split; [|split; [|split]]].
  - intros i Hi. simpl in Hi. unfold JsMap.keys in Hi. rewrite length_map in Hi.
    rewrite MatrixFacts.entryAt_distanceMatrixOf.
    destruct (List.nth_error (Corpus._documents c) i) as [ei|] eqn:E.
    + now rewrite Nat.eqb_refl.
    + apply nth_error_None in E. lia.
  - intros i j idi idj vi vj Hij Hi Hj Hvi Hvj. simpl in Hi, Hj.
    destruct (@MatrixFacts.identifier_vector c i idi vi Hvalid Hi Hvi) as (di & Hdi & ->).
    destruct (@MatrixFacts.identifier_vector c j idj vj Hvalid Hj Hvj) as (dj & Hdj & ->).
    rewrite MatrixFacts.entryAt_distanceMatrixOf, Hdi, Hdj.
    apply Nat.eqb_neq in Hij. rewrite Hij. reflexivity.
  - intros i idi vi Hi Hvi [t Ht]. simpl in Hi.
    destruct (@MatrixFacts.identifier_vector c i idi vi Hvalid Hi Hvi) as (di & Hdi & ->).
    rewrite MatrixFacts.entryAt_distanceMatrixOf, Hdi, Nat.eqb_refl.
    rewrite (@CosineFacts.cosineSimilarity_self _ t Ht). f_equal. lra.
  - intros i j. rewrite !MatrixFacts.entryAt_distanceMatrixOf.
    destruct (List.nth_error (Corpus._documents c) i) as [ei|];
      destruct (List.nth_error (Corpus._documents c) j) as [ej|]; try reflexivity.
    rewrite (Nat.eqb_sym j i).
    rewrite (@CosineFacts.cosineSimilarity_sym _ _
               (WeightFacts.vectorFor_NoDup c (snd ei))
               (WeightFacts.vectorFor_NoDup c (snd ej))).
    reflexivity.
  - intros HK Hb i j x. rewrite MatrixFacts.entryAt_distanceMatrixOf.
    destruct (List.nth_error (Corpus._documents c) i) as [ei|]; [|discriminate].
    destruct (List.nth_error (Corpus._documents c) j) as [ej|]; [|discriminate].
    intros Hx. apply Some_inj in Hx. subst x.
    destruct (i =? j); [lra|].
    pose proof (@CosineFacts.cosineSimilarity_range
                  (CorpusState.vectorFor c (snd ei)) (CorpusState.vectorFor c (snd ej)))
      as Hrange.
    assert (0 <= Similarity.cosineSimilarity (CorpusState.vectorFor c (snd ei))
                                             (CorpusState.vectorFor c (snd ej)) <= 1)%R.
    { apply Hrange; intros t; now apply WeightFacts.weightAt_vectorFor_nonneg. }
    lra.
Qed.

Lemma distance_matrix_properties_witness :
  exists dm : Similarity.DistanceMatrix,
    Corpus.run Similarity.getDistanceMatrix testCorpus = Ok dm
    /\ entryAt dm 0 1 = entryAt dm 1 0.
Proof.
  destruct (@distance_matrix_properties testCorpus testCorpus_valid)
    as (dm & Hrun & _ & _ & _ & _ & Hsym & _).
  exists dm. split; [exact Hrun | apply Hsym].
Defined.

(** The document of stopwords in [stopwordCorpus] and its vector. *)
Lemma stopword_document_vector :
  exists d,
    List.nth_error (Corpus._documents stopwordCorpus) 1 = Some (js "stop", d)
    /\ (forall t, weightAt (CorpusState.vectorFor stopwordCorpus d) t = 0%R)
    /\ Corpus.run (Corpus.getDocumentVector (js "stop")) stopwordCorpus
       = Ok (Some (CorpusState.vectorFor stopwordCorpus d)).
Proof.
  assert (exists d, List.nth_error (Corpus._documents stopwordCorpus) 1
                    = Some (js "stop", d)
                    /\ Document._words d = [js "the"; js "and"; js "of"]) as (d & Hd & Hwords).
  { eexists. split; vm_compute; reflexivity. }
  exists d. split; [exact Hd|]. split.
  - apply WeightFacts.weightAt_vectorFor_zero. intros term Hin.
    rewrite CountFacts.termFrequency_occurrences, Hwords.
    assert (JsMap.keys (CorpusState.frequenciesOf stopwordCorpus)
            = [js "quite"; js "short"]) as Hkeys by (vm_compute; reflexivity).
    rewrite Hkeys in Hin. destruct Hin as [<-|[<-|[]]]; vm_compute; reflexivity.
  - apply MemoFacts.returns_run.
    apply getDocumentVector_present; [apply stopwordCorpus_valid|].
    apply JsMapFacts.in_get_nodup; [apply stopwordCorpus_valid|].
    now apply (nth_error_In _ 1).
Qed.

(** C7, as stated, fails: in a corpus with a document made of stopwords only,
    that document's vector is zero and its cosine with itself is 0 by the rule
    for a zero norm.  The diagonal entry [matrix[1][1]] is 0, whereas the
    formula [1 - cosineSimilarity] gives 1 there: the formula and the zero
    diagonal cannot both hold of that entry. *)
Lemma diagonal_formula_counterexample :
  (exists (dm : Similarity.DistanceMatrix) (v : JsMap.t R),
      Corpus.run Similarity.getDistanceMatrix stopwordCorpus = Ok dm
      /\ List.nth_error (Similarity.identifiers dm) 1 = Some (js "stop")
      /\ Corpus.run (Corpus.getDocumentVector (js "stop")) stopwordCorpus = Ok (Some v)
      /\ entryAt dm 1 1 = Some 0%R
      /\ (1 - Similarity.cosineSimilarity v v)%R = 1%R)
  /\ ~ (exists dm : Similarity.DistanceMatrix,
          Corpus.run Similarity.getDistanceMatrix stopwordCorpus = Ok dm
          /\ (forall i j idi idj vi vj,
                List.nth_error (Similarity.identifiers dm) i = Some idi ->
                List.nth_error (Similarity.identifiers dm) j = Some idj ->
                Corpus.run (Corpus.getDocumentVector idi) stopwordCorpus = Ok (Some vi) ->
                Corpus.run (Corpus.getDocumentVector idj) stopwordCorpus = Ok (Some vj) ->
                entryAt dm i j = Some (1 - Similarity.cosineSimilarity vi vj)%R)
          /\ (forall i x, entryAt dm i i = Some x -> x = 0%R)).
Proof.
  destruct stopword_document_vector as (d & Hd & Hzero & Hvector).
  pose proof (@CosineFacts.cosineSimilarity_zero _
                (CorpusState.vectorFor stopwordCorpus d) Hzero) as Hcos.
  pose proof (MemoFacts.returns_run
                (MatrixFacts.getDistanceMatrix_returns stopwordCorpus_valid)) as Hrun.
  assert (List.nth_error (Similarity.identifiers (distanceMatrixOf stopwordCorpus)) 1
          = Some (js "stop")) as Hid.
  { unfold distanceMatrixOf. cbn [Similarity.identifiers]. unfold JsMap.keys.
    rewrite nth_error_map, Hd. reflexivity. }
  split.
  - exists (distanceMatrixOf stopwordCorpus), (CorpusState.vectorFor stopwordCorpus d).
    split; [exact Hrun|]. split; [exact Hid|]. split; [exact Hvector|]. split.
    + rewrite MatrixFacts.entryAt_distanceMatrixOf, Hd. reflexivity.
    + rewrite Hcos. lra.
  - intros (dm & Hdm & Hformula & Hdiag).
    rewrite Hrun in Hdm. apply Ok_inj in Hdm. subst dm.
    specialize (Hformula 1 1 (js "stop") (js "stop") _ _ Hid Hid Hvector Hvector).
    apply Hdiag in Hformula. rewrite Hcos in Hformula. lra.
Qed.

(** ** The assertions of the test suite that do not involve weights *)

Example test_corpus_builders :
  (exists c, Corpus.fromKvps docsByKvp (Some commonOptions) = Ok c
             /\ Corpus.run Corpus.getDocumentIdentifiers c
                = Ok [js "document1"; js "document2"; js "document3"])
  /\ Corpus.from [js "document2"; js "document3"]
                 [js "This is test document number 1. It is quite a short document.";
                  js "This is test document 2. It is also quite short, and is a test.";
                  js "Test document number three is a bit different and is also a tiny bit longer."]
                 (Some commonOptions)
     = Throw lengthMismatch.
Proof.
  split.
  - exists testCorpus. split; [apply testCorpus_built | vm_compute; reflexivity].
  - apply BuilderFacts.from_unequal_length. simpl. lia.
Qed.

Example test_corpus_terms :
  exists terms,
    Corpus.run Corpus.getTerms testCorpus = Ok terms
    /\ JsSet.has (js "test") terms = true
    /\ JsSet.has (js "short") terms = true
    /\ JsSet.has (js "1") terms = false
    /\ JsSet.has (js "a") terms = false
    /\ JsSet.has (js "and") terms = false.
Proof. eexists. split; [vm_compute; reflexivity|]. repeat split. Qed.

Example test_collection_frequencies :
  Corpus.run (Corpus.getCollectionFrequency (js "test")) testCorpus = Ok 3
  /\ Corpus.run (Corpus.getCollectionFrequency (js "short")) testCorpus = Ok 2
  /\ Corpus.run (Corpus.getCollectionFrequency (js "and")) testCorpus = Ok 0.
Proof. repeat split; vm_compute; reflexivity. Qed.

Example test_text_document :
  let textDoc := testDocument "document3" in
  List.length (Document.getUniqueTerms textDoc) = 11
  /\ Document.getTermFrequency (js "bit") textDoc = 2
  /\ Document.getTermFrequency (js "and") textDoc = 1
  /\ Document.getTermFrequency (js "a") textDoc = 0
  /\ TextDocument.from (TextDocument.Doc textDoc) = Ok textDoc.
Proof. repeat split; vm_compute; reflexivity. Qed.

Example test_stopwords :
  let customStopwords := [js "test"; js "words"] in
  let customStopwordsOnly := Stopwords.new customStopwords in
  let emptyStopwords := Stopwords.new [] in
  let defaultPlusCustomStopwords := Stopwords.with_ customStopwords defaultStopwords in
  Stopwords.includes (js "test") customStopwordsOnly = true
  /\ Stopwords.includes (js "words") customStopwordsOnly = true
  /\ Stopwords.includes (js "the") customStopwordsOnly = false
  /\ Stopwords.includes (js "test") emptyStopwords = false
  /\ Stopwords.includes (js "words") emptyStopwords = false
  /\ Stopwords.includes (js "the") emptyStopwords = false
  /\ Stopwords.includes (js "test") defaultPlusCustomStopwords = true
  /\ Stopwords.includes (js "words") defaultPlusCustomStopwords = true
  /\ Stopwords.includes (js "the") defaultPlusCustomStopwords = true.
Proof. repeat split; vm_compute; reflexivity. Qed.

Example test_collection_frequency_weights :
  exists testWeight shortWeight : R,
    Corpus.run (Corpus.getCollectionFrequencyWeight (js "test")) testCorpus
    = Ok (Some testWeight)
    /\ Corpus.run (Corpus.getCollectionFrequencyWeight (js "short")) testCorpus
       = Ok (Some shortWeight)
    /\ (testWeight < shortWeight)%R
    /\ Corpus.run (Corpus.getCollectionFrequencyWeight (js "and")) testCorpus = Ok None.
Proof.
  exists (Corpus.idfOf 3 3), (Corpus.idfOf 3 2).
  assert (forall term,
             Corpus.run (Corpus.getCollectionFrequencyWeight term) testCorpus
             = Ok (option_map (Corpus.idfOf 3)
                              (JsMap.get term (CorpusState.frequenciesOf testCorpus))))
    as Hweight.
  { intros term.
    rewrite (MemoFacts.returns_run
               (GetterFacts.getCollectionFrequencyWeight_returns term testCorpus_valid)).
    now rewrite DerivedFacts.get_weightsOf. }
  split; [|split; [|split]].
  - rewrite Hweight.
    assert (JsMap.get (js "test") (CorpusState.frequenciesOf testCorpus) = Some 3) as ->
      by (vm_compute; reflexivity).
    reflexivity.
  - rewrite Hweight.
    assert (JsMap.get (js "short") (CorpusState.frequenciesOf testCorpus) = Some 2) as ->
      by (vm_compute; reflexivity).
    reflexivity.
  - unfold Corpus.idfOf.
    assert (ln (INR 2) < ln (INR 3))%R; [|lra].
    apply ln_increasing; simpl; lra.
  - rewrite Hweight.
    assert (JsMap.get (js "and") (CorpusState.frequenciesOf testCorpus) = None) as ->
      by (vm_compute; reflexivity).
    reflexivity.
Qed.

(** * Further properties of the code *)

(** ** Document: unique terms and frequencies *)

Module DocumentFacts.

Import JsMap JsMapFacts CountFacts Corpus.

Lemma keys_countTerm_add (m : JsMap.t nat) (w : jsstring) :
  keys (countTerm m w) = JsSet.add w (keys m).
Proof.
  unfold countTerm, JsSet.add. destruct (get w m) as [n|] eqn:E.
  - pose proof (get_Some_key w m E) as Hin.
    rewrite keys_set_present by assumption.
    now rewrite (proj2 (JsSet_has_In w (keys m)) Hin).
  - apply get_None_iff in E. rewrite keys_set_absent by assumption.
    destruct (JsSet.has w (keys m)) eqn:F; [|reflexivity].
    apply JsSet_has_In in F. contradiction.
Qed.

Lemma keys_count_adds (ws : list jsstring) : forall m : JsMap.t nat,
  keys (fold_left countTerm ws m) = fold_left (fun s k => JsSet.add k s) ws (keys m).
Proof.
  induction ws as [|w ws IH]; simpl; intros m; [reflexivity|].
  now rewrite IH, keys_countTerm_add.
Qed.

Lemma occurrences_app (t : jsstring) (ws1 ws2 : list jsstring) :
  occurrences t (ws1 ++ ws2) = occurrences t ws1 + occurrences t ws2.
Proof. unfold occurrences. now rewrite filter_app, length_app. Qed.

Lemma occurrences_le_length (t : jsstring) (ws : list jsstring) :
  occurrences t ws <= List.length ws.
Proof. unfold occurrences. apply filter_length_le. Qed.

End DocumentFacts.

(** X1: [getUniqueTerms] lists the distinct words of the document in the order
    of their first occurrence (the order of [new Set(words)]), each once. *)
Theorem unique_terms_first_occurrences (d : Document.t) :
  Document.getUniqueTerms d = JsSet.of_list (Document._words d)
  /\ NoDup (Document.getUniqueTerms d)
  /\ (forall t, In t (Document.getUniqueTerms d) <-> In t (Document._words d)).
Proof.
  split; [|split].
  - unfold Document.getUniqueTerms, JsSet.of_list.
    rewrite CountFacts.termFrequencies_fold. apply DocumentFacts.keys_count_adds.
  - apply CountFacts.uniqueTerms_NoDup.
  - apply CountFacts.uniqueTerms_in.
Qed.

(** X2: [getTermFrequency] is the number of occurrences of the term among the
    words: it is 0 exactly for a term that is not a unique term of the
    document, it never exceeds the length, and the frequencies of a
    concatenation of word lists add up. *)
Theorem term_frequency_counts (d : Document.t) (t : jsstring) :
  Document.getTermFrequency t d = occurrences t (Document._words d)
  /\ (Document.getTermFrequency t d = 0 <-> ~ In t (Document.getUniqueTerms d))
  /\ Document.getTermFrequency t d <= Document.getLength d
  /\ (forall ws1 ws2,
        Document.getTermFrequency t (Document.new (ws1 ++ ws2))
        = Document.getTermFrequency t (Document.new ws1)
          + Document.getTermFrequency t (Document.new ws2)).
Proof.
  split; [apply CountFacts.termFrequency_occurrences|]. split; [|split].
  - rewrite CountFacts.termFrequency_occurrences, CountFacts.uniqueTerms_in.
    pose proof (CountFacts.occurrences_pos t (Document._words d)) as H.
    split.
    + intros Hz Hin. apply H in Hin. lia.
    + intros Hnot. destruct (occurrences t (Document._words d)) eqn:E; [reflexivity|].
      exfalso. apply Hnot. apply H. lia.
  - rewrite CountFacts.termFrequency_occurrences.
    apply DocumentFacts.occurrences_le_length.
  - intros ws1 ws2. rewrite !CountFacts.termFrequency_occurrences. simpl.
    apply DocumentFacts.occurrences_app.
Qed.

(** ** TextDocument: what the tokenizer produces *)

Module TokenFacts.

Import TextDocument.

Lemma in_range_spec (lo hi c : N) : in_range lo hi c = true <-> (lo <= c <= hi)%N.
Proof. unfold in_range. rewrite andb_true_iff, !N.leb_le. tauto. Qed.

Lemma isLetter_spec (c : N) :
  isLetter c = true
  <-> (97 <= c <= 122 \/ 65 <= c <= 90 \/ 192 <= c <= 214
       \/ 216 <= c <= 246 \/ 248 <= c <= 255)%N.
Proof. unfold isLetter. rewrite !orb_true_iff, !in_range_spec. tauto. Qed.

Lemma isDigit_spec (c : N) : isDigit c = true <-> (48 <= c <= 57)%N.
Proof. apply in_range_spec. Qed.

Lemma lowerUnit_cases (c : N) :
  ((65 <= c <= 90 \/ 192 <= c <= 214 \/ 216 <= c <= 222)%N /\ lowerUnit c = (c + 32)%N)
  \/ (~ (65 <= c <= 90 \/ 192 <= c <= 214 \/ 216 <= c <= 222)%N /\ lowerUnit c = c).
Proof.
  unfold lowerUnit.
  destruct (in_range 65 90 c || in_range 192 214 c || in_range 216 222 c) eqn:E.
  - left. split; [|reflexivity].
    rewrite !orb_true_iff, !in_range_spec in E. tauto.
  - right. split; [|reflexivity]. intros H.
    assert (in_range 65 90 c || in_range 192 214 c || in_range 216 222 c = true) as F
      by (rewrite !orb_true_iff, !in_range_spec; tauto).
    congruence.
Qed.

Lemma isLetter_lowerUnit (c : N) : isLetter (lowerUnit c) = isLetter c.
Proof.
  apply eq_true_iff_eq. rewrite !isLetter_spec.
  destruct (lowerUnit_cases c) as [[H ->]|[H ->]]; [lia | tauto].
Qed.

Lemma isDigit_lowerUnit (c : N) : isDigit (lowerUnit c) = isDigit c.
Proof.
  apply eq_true_iff_eq. rewrite !isDigit_spec.
  destruct (lowerUnit_cases c) as [[H ->]|[H ->]]; [lia | tauto].
Qed.

Lemma lowerUnit_idempotent (c : N) : lowerUnit (lowerUnit c) = lowerUnit c.
Proof.
  destruct (lowerUnit_cases c) as [[H E]|[H E]]; rewrite E.
  - destruct (lowerUnit_cases (c + 32)) as [[H' _]|[_ E']]; [lia | exact E'].
  - exact E.
Qed.

Lemma isLetter_not_digit (c : N) : isLetter c = true -> isDigit c = false.
Proof.
  intros H. apply isLetter_spec in H.
  destruct (isDigit c) eqn:E; [|reflexivity]. apply isDigit_spec in E. lia.
Qed.

(** Every match is a non-empty run of letters. *)
Lemma letterRuns_words (text : jsstring) : forall cur w,
  (forall c, In c cur -> isLetter c = true) ->
  In w (letterRuns text cur) ->
  w <> [] /\ (forall c, In c w -> isLetter c = true).
Proof.
  induction text as [|u text IH]; simpl; intros cur w Hcur Hin.
  - destruct cur as [|c cur]; [destruct Hin|].
    destruct Hin as [<-|[]]. split.
    + intros E. apply (f_equal (@List.length N)) in E.
      rewrite length_rev in E. discriminate.
    + intros x Hx. apply in_rev in Hx. now apply Hcur.
  - destruct (isLetter u) eqn:Hu.
    + apply (IH (u :: cur)); [|assumption]. intros c [<-|Hc]; auto.
    + destruct cur as [|c cur].
      * apply (IH [] w); [intros c [] | assumption].
      * destruct Hin as [<-|Hin].
        -- split.
           ++ intros E. apply (f_equal (@List.length N)) in E.
              rewrite length_rev in E. discriminate.
           ++ intros x Hx. apply in_rev in Hx. now apply Hcur.
        -- apply (IH [] w); [intros x [] | assumption].
Qed.

Lemma keepWord_length (w : jsstring) :
  (forall c, In c w -> isLetter c = true) -> keepWord w = (2 <=? List.length w).
Proof.
  intros Hw. unfold keepWord.
  assert (startsWithDigit w = false) as ->.
  { destruct w as [|c w]; [reflexivity|]. simpl. apply isLetter_not_digit.
    apply Hw. now left. }
  rewrite orb_false_r.
  destruct (List.length w <? 2) eqn:E.
  - apply Nat.ltb_lt in E. symmetry. apply Nat.leb_gt. lia.
  - apply Nat.ltb_ge in E. symmetry. apply Nat.leb_le. lia.
Qed.

(** A separator ends the run before it and starts afresh after it. *)
Lemma letterRuns_separator (a b : jsstring) (sep : N) : forall cur,
  isLetter sep = false ->
  letterRuns (a ++ sep :: b) cur = letterRuns a cur ++ letterRuns b [].
Proof.
  intros cur Hsep. revert cur.
  induction a as [|u a IH]; simpl; intros cur.
  - rewrite Hsep. now destruct cur.
  - destruct (isLetter u); [apply IH|].
    destruct cur; rewrite IH; reflexivity.
Qed.

Lemma letterRuns_lowered (text : jsstring) : forall cur,
  letterRuns (toLowerCase text) (toLowerCase cur)
  = List.map toLowerCase (letterRuns text cur).
Proof.
  unfold toLowerCase.
  induction text as [|u text IH]; simpl; intros cur.
  - destruct cur as [|c cur]; [reflexivity|]. simpl.
    now rewrite map_app, map_rev.
  - rewrite isLetter_lowerUnit. destruct (isLetter u).
    + apply (IH (u :: cur)).
    + destruct cur as [|c cur]; simpl.
      * apply (IH []).
      * rewrite map_app, map_rev. f_equal. apply (IH []).
Qed.

Lemma keepWord_lowered (w : jsstring) : keepWord (toLowerCase w) = keepWord w.
Proof.
  unfold keepWord, toLowerCase. rewrite length_map.
  destruct w as [|c w]; [reflexivity|]. simpl. now rewrite isDigit_lowerUnit.
Qed.

Lemma toLowerCase_idempotent (w : jsstring) : toLowerCase (toLowerCase w) = toLowerCase w.
Proof.
  unfold toLowerCase. rewrite map_map. apply map_ext. apply lowerUnit_idempotent.
Qed.

Lemma filter_map_commute {A B} (f : B -> bool) (g : A -> B) (l : list A) :
  List.filter f (List.map g l) = List.map g (List.filter (fun x => f (g x)) l).
Proof.
  induction l as [|x l IH]; simpl; [reflexivity|].
  destruct (f (g x)); simpl; now rewrite IH.
Qed.

Lemma new_words (text : jsstring) (d : Document.t) :
  new text = Ok d ->
  Document._words d = List.map toLowerCase (List.filter keepWord (letterRuns text []))
  /\ Document._text d = Some text
  /\ hasNoLetter text = false.
Proof.
  intros H. destruct (hasNoLetter text) eqn:E.
  - rewrite TextFacts.new_no_letter in H by assumption. discriminate.
  - rewrite TextFacts.new_with_letter in H by assumption.
    injection H as <-. auto.
Qed.

End TokenFacts.



(** X4: the matches of the tokenizer's expression are non-empty runs of
    letters, so the filter's test for a leading digit never fires: a match is
    dropped exactly when it is a single letter. *)
Theorem digit_test_never_fires (text : jsstring) (matched : list jsstring)
    (Hmatch : TextDocument.matchLetters text = Some matched) :
  forall w, In w matched ->
    w <> []
    /\ TextDocument.startsWithDigit w = false
    /\ TextDocument.keepWord w = (2 <=? List.length w).
Proof.
  intros w Hw. unfold TextDocument.matchLetters in Hmatch.
  assert (In w (TextDocument.letterRuns text [])) as Hrun.
  { destruct (TextDocument.letterRuns text []); [discriminate|].
    now injection Hmatch as <-. }
  destruct (@TokenFacts.letterRuns_words text [] w) as [Hne Hletters];
    [intros c [] | assumption |].
  split; [exact Hne|]. split; [|now apply TokenFacts.keepWord_length].
  destruct w as [|c w]; [reflexivity|]. simpl.
  apply TokenFacts.isLetter_not_digit. apply Hletters. now left.
Qed.

Lemma digit_test_never_fires_witness :
  TextDocument.matchLetters (js "1st a2b x") = Some [js "st"; js "a"; js "b"; js "x"]
  /\ List.map TextDocument.keepWord [js "st"; js "a"; js "b"; js "x"]
     = [true; false; false; false].
Proof.
  assert (TextDocument.matchLetters (js "1st a2b x")
          = Some [js "st"; js "a"; js "b"; js "x"]) as Hmatch by reflexivity.
  split; [exact Hmatch|].
  pose proof (@digit_test_never_fires _ _ Hmatch) as H.
  simpl. repeat f_equal; apply H; simpl; auto.
Defined.

(** X5: tokenizing two texts joined by a code unit that is no letter gives the
    words of the first followed by the words of the second; text without a
    letter after such a separator adds nothing. *)
Theorem text_document_concatenation (a b : jsstring) (sep : N) (da : Document.t)
    (Hsep : TextDocument.isLetter sep = false)
    (Ha : TextDocument.new a = Ok da) :
  (forall db, TextDocument.new b = Ok db ->
     TextDocument.new (a ++ sep :: b)
     = Ok (Document.mk (Document._words da ++ Document._words db)
                       (Some (a ++ sep :: b))))
  /\ (hasNoLetter b = true ->
      TextDocument.new (a ++ sep :: b)
      = Ok (Document.mk (Document._words da) (Some (a ++ sep :: b)))).
Proof.
  destruct (@TokenFacts.new_words _ _ Ha) as (Hwa & _ & Hla).
  assert (TextDocument.letterRuns a [] <> []) as Hruns.
  { intros E. apply TextFacts.letterRuns_nil_iff in E as [_ E]. congruence. }
  assert (forall words,
             TextDocument.letterRuns b [] = words ->
             TextDocument.new (a ++ sep :: b)
             = Ok (Document.mk
                     (Document._words da
                      ++ List.map TextDocument.toLowerCase
                           (List.filter TextDocument.keepWord words))
                     (Some (a ++ sep :: b)))) as Hjoin.
  { intros words Hb. unfold TextDocument.new, TextDocument.matchLetters.
    rewrite (@TokenFacts.letterRuns_separator a b sep [] Hsep), Hb.
    destruct (TextDocument.letterRuns a []) as [|w ws] eqn:E; [contradiction|].
    change ((w :: ws) ++ words) with (w :: (ws ++ words)). cbv iota.
    change (w :: (ws ++ words)) with ((w :: ws) ++ words).
    rewrite Hwa. now rewrite filter_app, map_app. }
  split.
  - intros db Hb. destruct (@TokenFacts.new_words _ _ Hb) as (Hwb & _ & _).
    rewrite (Hjoin _ eq_refl). now rewrite Hwb.
  - intros Hb. rewrite (Hjoin []); [now rewrite app_nil_r|].
    apply TextFacts.letterRuns_nil_iff. auto.
Qed.

Lemma text_document_concatenation_witness :
  exists d : Document.t,
    TextDocument.new (js "tiny test" ++ 46%N :: js " more words") = Ok d
    /\ Document._words d = [js "tiny"; js "test"; js "more"; js "words"].
Proof.
  destruct (TextDocument.new (js "tiny test")) as [da|] eqn:Ha;
    [|vm_compute in Ha; discriminate].
  destruct (TextDocument.new (js " more words")) as [db|] eqn:Hb;
    [|vm_compute in Hb; discriminate].
  destruct (@text_document_concatenation (js "tiny test") (js " more words") 46%N da
              eq_refl Ha) as [Hjoin _].
  eexists. split; [apply (Hjoin db Hb)|].
  vm_compute in Ha. injection Ha as <-. vm_compute in Hb. injection Hb as <-.
  reflexivity.
Defined.

Module CaseFacts.

Import TextDocument.

Lemma sameLetter_lowerUnit (x y : N) :
  sameLetter x y = true -> lowerUnit x = lowerUnit y.
Proof.
  unfold sameLetter. rewrite orb_true_iff, !andb_true_iff, !N.eqb_eq.
  intros [->|[_ H]]; [reflexivity | exact H].
Qed.

Lemma sameUpToCase_lowered (a : jsstring) : forall b,
  sameUpToCase a b = true -> List.map lowerUnit a = List.map lowerUnit b.
Proof.
  induction a as [|x a IH]; intros [|y b]; simpl; try discriminate; [reflexivity|].
  rewrite andb_true_iff. intros [Hxy Hab].
  now rewrite (sameLetter_lowerUnit _ _ Hxy), (IH b Hab).
Qed.

Lemma hasNoLetter_lowered (text : jsstring) :
  hasNoLetter (List.map lowerUnit text) = hasNoLetter text.
Proof.
  unfold hasNoLetter. induction text as [|u text IH]; simpl; [reflexivity|].
  now rewrite TokenFacts.isLetter_lowerUnit, IH.
Qed.

(** The words of a text are those of the text with its upper-case letters of
    the class lowered. *)
Lemma words_lowered (text : jsstring) :
  List.map toLowerCase (List.filter keepWord (letterRuns text []))
  = List.map toLowerCase
      (List.filter keepWord (letterRuns (List.map lowerUnit text) [])).
Proof.
  pose proof (TokenFacts.letterRuns_lowered text []) as Hlow.
  unfold toLowerCase at 1 2 in Hlow. simpl in Hlow. rewrite Hlow.
  rewrite TokenFacts.filter_map_commute, map_map.
  rewrite (filter_ext (fun x => keepWord (toLowerCase x)) keepWord)
    by (intros x; apply TokenFacts.keepWord_lowered).
  apply map_ext. intros x. symmetry. apply TokenFacts.toLowerCase_idempotent.
Qed.

End CaseFacts.

(** X6: tokenization does not depend on the case of the letters: two texts
    that differ only in the case of letters of the tokenizer's class give
    documents with the same words, each keeping its own text; and if one of
    them has no letter and throws, so does the other. *)
Theorem text_document_case_insensitive (a b : jsstring)
    (Hsame : sameUpToCase a b = true) :
  (forall da, TextDocument.new a = Ok da ->
     exists db, TextDocument.new b = Ok db
                /\ Document._words db = Document._words da
                /\ TextDocument.getText db = Some b)
  /\ (forall e, TextDocument.new a = Throw e -> TextDocument.new b = Throw e).
Proof.
  pose proof (CaseFacts.sameUpToCase_lowered _ _ Hsame) as Hlow.
  assert (hasNoLetter b = hasNoLetter a) as Hletter.
  { rewrite <- (CaseFacts.hasNoLetter_lowered a), <- (CaseFacts.hasNoLetter_lowered b).
    now rewrite Hlow. }
  split.
  - intros da Hnew.
    destruct (@TokenFacts.new_words _ _ Hnew) as (Hwords & _ & Ha).
    rewrite <- Hletter in Ha.
    eexists. split; [now apply TextFacts.new_with_letter|].
    split; [|reflexivity].
    simpl. rewrite Hwords, (CaseFacts.words_lowered a), (CaseFacts.words_lowered b).
    now rewrite Hlow.
  - intros e Hnew. destruct (hasNoLetter a) eqn:Ha.
    + rewrite TextFacts.new_no_letter in Hnew by assumption.
      rewrite TextFacts.new_no_letter by assumption. exact Hnew.
    + rewrite TextFacts.new_with_letter in Hnew by assumption. discriminate.
Qed.

Lemma text_document_case_insensitive_witness :
  exists d d' : Document.t,
    TextDocument.new (js "Test Document") = Ok d
    /\ TextDocument.new (js "TEST document") = Ok d'
    /\ Document._words d' = Document._words d.
Proof.
  destruct (TextDocument.new (js "Test Document")) as [d|] eqn:Hd;
    [|vm_compute in Hd; discriminate].
  destruct (@text_document_case_insensitive (js "Test Document") (js "TEST document")
              eq_refl) as [Hok _].
  destruct (Hok d Hd) as (d' & Hd' & Hwords & _).
  exists d, d'. split; [reflexivity|]. split; [exact Hd' | exact Hwords].
Defined.

(** ** Stopwords *)

Module SetFacts.

Lemma add_In (k x : jsstring) (s : JsSet.t) : In k (JsSet.add x s) <-> k = x \/ In k s.
Proof.
  unfold JsSet.add. destruct (JsSet.has x s) eqn:E.
  - apply JsSet_has_In in E. split; [tauto | intros [->|]; assumption].
  - rewrite in_app_iff. simpl. split; [intros [|[<-|[]]]; tauto | intros [->|]; tauto].
Qed.

Lemma add_NoDup (x : jsstring) (s : JsSet.t) : NoDup s -> NoDup (JsSet.add x s).
Proof.
  intros H. unfold JsSet.add. destruct (JsSet.has x s) eqn:E; [assumption|].
  apply NoDup_app; [assumption | repeat constructor; simpl; tauto |].
  intros y Hy [<-|[]]. apply JsSet_has_In in Hy. congruence.
Qed.

Lemma adds_In (ks : list jsstring) : forall (s : JsSet.t) k,
  In k (fold_left (fun s k => JsSet.add k s) ks s) <-> In k ks \/ In k s.
Proof.
  induction ks as [|x ks IH]; simpl; intros s k; [tauto|].
  rewrite IH, add_In. intuition congruence.
Qed.

Lemma adds_NoDup (ks : list jsstring) : forall s : JsSet.t,
  NoDup s -> NoDup (fold_left (fun s k => JsSet.add k s) ks s).
Proof.
  induction ks as [|x ks IH]; simpl; intros s H; [assumption|].
  apply IH. now apply add_NoDup.
Qed.

Lemma of_list_In (ks : list jsstring) (k : jsstring) : In k (JsSet.of_list ks) <-> In k ks.
Proof. unfold JsSet.of_list. rewrite adds_In. simpl. tauto. Qed.

Lemma of_list_NoDup (ks : list jsstring) : NoDup (JsSet.of_list ks).
Proof. unfold JsSet.of_list. apply adds_NoDup. constructor. Qed.

Lemma keys_set_add {V} (k : jsstring) (v : V) (m : JsMap.t V) :
  JsMap.keys (JsMap.set k v m) = JsSet.add k (JsMap.keys m).
Proof.
  unfold JsSet.add. destruct (JsSet.has k (JsMap.keys m)) eqn:E.
  - apply JsSet_has_In in E. now apply JsMapFacts.keys_set_present.
  - apply JsMapFacts.keys_set_absent. intros Hin.
    apply JsSet_has_In in Hin. congruence.
Qed.

Lemma keys_sets {V} (kvs : list (jsstring * V)) : forall m : JsMap.t V,
  JsMap.keys (fold_left (fun m kv => JsMap.set (fst kv) (snd kv) m) kvs m)
  = fold_left (fun s k => JsSet.add k s) (List.map fst kvs) (JsMap.keys m).
Proof.
  induction kvs as [|kv kvs IH]; simpl; intros m; [reflexivity|].
  now rewrite IH, keys_set_add.
Qed.

(** The keys of [new Map(entries)] are the distinct keys of the entries in the
    order of their first occurrence. *)
Lemma keys_of_entries {V} (kvs : list (jsstring * V)) :
  JsMap.keys (JsMap.of_entries kvs) = JsSet.of_list (List.map fst kvs).
Proof. unfold JsMap.of_entries, JsSet.of_list. apply keys_sets. Qed.

Lemma has_app (k : jsstring) (s1 s2 : list jsstring) :
  JsSet.has k (s1 ++ s2) = JsSet.has k s1 || JsSet.has k s2.
Proof. unfold JsSet.has. apply existsb_app. Qed.

Lemma has_of_list (k : jsstring) (ks : list jsstring) :
  JsSet.has k (JsSet.of_list ks) = JsSet.has k ks.
Proof.
  apply eq_true_iff_eq. rewrite !JsSet_has_In. apply of_list_In.
Qed.

End SetFacts.

(** X7: a [Stopwords] built from a list of terms includes exactly those terms,
    and its stopword list holds each of them once; built from nothing
    ([Stopwords.from(undefined)]) it includes no word. *)
Theorem stopwords_include_their_terms (terms : list jsstring) (word : jsstring) :
  (Stopwords.includes word (Stopwords.new terms) = true <-> In word terms)
  /\ Stopwords.includes word (Stopwords.from (Some (Stopwords.Terms terms)))
     = Stopwords.includes word (Stopwords.new terms)
  /\ NoDup (Stopwords.getStopwordList (Stopwords.new terms))
  /\ (In word (Stopwords.getStopwordList (Stopwords.new terms)) <-> In word terms)
  /\ Stopwords.includes word (Stopwords.from None) = false.
Proof.
  unfold Stopwords.includes, Stopwords.getStopwordList. simpl.
  split; [|split; [reflexivity|split; [|split; [|reflexivity]]]].
  - rewrite JsSet_has_In. apply SetFacts.of_list_In.
  - apply SetFacts.of_list_NoDup.
  - apply SetFacts.of_list_In.
Qed.

(** X8: [with] adds words and removes none: the new instance includes a word
    exactly when the old one does or the word is among the additions. *)
Theorem stopwords_with_additions (s : Stopwords.t) (additional : list jsstring)
    (word : jsstring) :
  Stopwords.includes word (Stopwords.with_ additional s)
  = Stopwords.includes word s || JsSet.has word additional.
Proof.
  unfold Stopwords.includes, Stopwords.with_. simpl.
  now rewrite SetFacts.has_of_list, SetFacts.has_app.
Qed.

(** X9: the variant of [Stopwords] with built-in defaults includes a word
    exactly when it is a custom stopword, or the defaults are in use (the
    flag is [true] or omitted) and it is a default stopword. *)
Theorem stopwords_with_defaults_include (useDefault : option bool)
    (custom : option (list jsstring)) (word : jsstring) :
  StopwordsWithDefaults.includes word (StopwordsWithDefaults.new useDefault custom)
  = JsSet.has word (match custom with Some l => l | None => [] end)
    || (match useDefault with Some u => u | None => true end)
       && JsSet.has word defaultStopwordTerms.
Proof.
  assert (forall l : list jsstring,
             JsMap.has word (JsMap.of_entries (List.map (fun d => (d, true)) l))
             = JsSet.has word l) as Hhas.
  { intros l. apply eq_true_iff_eq. rewrite JsMapFacts.has_get, JsSet_has_In.
    assert (JsMap.keys (JsMap.of_entries (List.map (fun d => (d, true)) l))
            = JsSet.of_list l) as Hkeys.
    { rewrite SetFacts.keys_of_entries, map_map. simpl. now rewrite map_id. }
    rewrite <- (SetFacts.of_list_In l word), <- Hkeys. split.
    - intros [v Hv]. now apply (JsMapFacts.get_Some_key word _ Hv).
    - apply JsMapFacts.in_keys_get. }
  unfold StopwordsWithDefaults.includes, StopwordsWithDefaults.new.
  remember defaultStopwordTerms as defaults.
  destruct custom as [l|]; destruct useDefault as [[|]|]; simpl; rewrite ?Hhas;
    rewrite ?SetFacts.has_app, ?orb_false_r; reflexivity.
Qed.

(** ** Corpus: construction *)

Module ConstructionFacts.

Import JsMap JsMapFacts Corpus CorpusState.

Lemma get_set {V} (k k' : jsstring) (v : V) (m : JsMap.t V) :
  get k' (set k v m) = if jsstring_eqb k' k then Some v else get k' m.
Proof.
  destruct (jsstring_eqb k' k) eqn:E.
  - apply jsstring_eqb_eq in E. subst. apply get_set_same.
  - apply jsstring_eqb_neq in E. apply get_set_other. congruence.
Qed.

Lemma get_app {V} (k : jsstring) (m1 m2 : JsMap.t V) :
  get k (m1 ++ m2) = match get k m1 with Some v => Some v | None => get k m2 end.
Proof.
  induction m1 as [|[k' v'] m1 IH]; simpl; [reflexivity|].
  destruct (jsstring_eqb k k'); [reflexivity | exact IH].
Qed.

(** Of several entries with the same key, the last one gives the value. *)
Lemma get_sets {V} (k : jsstring) (kvs : list (jsstring * V)) : forall m : JsMap.t V,
  get k (fold_left (fun m kv => set (fst kv) (snd kv) m) kvs m)
  = match get k (List.rev kvs) with Some v => Some v | None => get k m end.
Proof.
  induction kvs as [|[k0 v0] kvs IH]; simpl; intros m; [reflexivity|].
  rewrite IH, get_app, get_set. simpl.
  destruct (get k (List.rev kvs)); [reflexivity|].
  now destruct (jsstring_eqb k k0).
Qed.

Lemma get_of_entries {V} (k : jsstring) (kvs : list (jsstring * V)) :
  get k (of_entries kvs) = get k (List.rev kvs).
Proof.
  unfold of_entries. rewrite get_sets. now destruct (get k (List.rev kvs)).
Qed.



End ConstructionFacts.

(** X10: the constructor keeps the documents in a [Map]: an identifier given
    several times appears once, at the position of its first occurrence, and
    [getDocument] returns the document given last for it (the first match in
    the reversed list of pairs); an identifier never given yields
    [undefined]. *)
Theorem constructor_keeps_last_document (documents : list (jsstring * Document.t))
    (options : option Corpus.CorpusOptions) (identifier : jsstring) :
  let c := Corpus.new documents options in
  Corpus.run (Corpus.getDocument identifier) c
  = Ok (JsMap.get identifier (List.rev documents))
  /\ Corpus.run Corpus.getDocumentIdentifiers c
     = Ok (JsSet.of_list (List.map fst documents))
  /\ (~ In identifier (List.map fst documents) ->
      Corpus.run (Corpus.getDocument identifier) c = Ok None).
Proof.
  intros c.
  assert (Corpus.run (Corpus.getDocument identifier) c
          = Ok (JsMap.get identifier (List.rev documents))) as Hget.
  { unfold c, Corpus.run, Corpus.getDocument, Corpus.bind, Corpus.read, Corpus.ret.
    simpl. now rewrite ConstructionFacts.get_of_entries. }
  split; [exact Hget|]. split.
  - unfold c, Corpus.run, Corpus.getDocumentIdentifiers, Corpus.bind, Corpus.read,
      Corpus.ret. simpl. now rewrite SetFacts.keys_of_entries.
  - intros Hnot. rewrite Hget. f_equal. apply JsMapFacts.get_None_iff.
    unfold JsMap.keys. rewrite map_rev. intros Hin. apply in_rev in Hin. contradiction.
Qed.



(** ** Corpus: vocabulary, collection frequencies and their weights *)

Module VocabularyFacts.

Import JsMap JsMapFacts Corpus CorpusState.

Lemma documentsContaining_pos (t : jsstring) (ds : list Document.t) :
  1 <= documentsContaining t ds
  <-> exists d, In d ds /\ In t (Document._words d).
Proof.
  unfold documentsContaining. split.
  - intros H.
    destruct (List.filter (fun d => JsSet.has t (Document.getUniqueTerms d)) ds)
      as [|d l] eqn:E; [simpl in H; lia|].
    assert (In d (List.filter (fun d => JsSet.has t (Document.getUniqueTerms d)) ds))
      as Hd by (rewrite E; now left).
    apply filter_In in Hd as [Hd Hhas]. exists d. split; [assumption|].
    apply JsSet_has_In in Hhas. now apply CountFacts.uniqueTerms_in.
  - intros (d & Hd & Ht).
    assert (In d (List.filter (fun d => JsSet.has t (Document.getUniqueTerms d)) ds))
      as Hin.
    { apply filter_In. split; [assumption|]. apply JsSet_has_In.
      now apply CountFacts.uniqueTerms_in. }
    destruct (List.filter _ ds); [destruct Hin | simpl; lia].
Qed.

Lemma in_values_get {V} (m : JsMap.t V) (v : V) :
  NoDup (keys m) -> (In v (values m) <-> exists k, get k m = Some v).
Proof.
  intros Hnd. unfold values. rewrite in_map_iff. split.
  - intros [[k v'] [E Hin]]. simpl in E. subst v'. exists k.
    now apply in_get_nodup.
  - intros [k Hk]. exists (k, v). split; [reflexivity | now apply get_Some_in].
Qed.

(** The vocabulary: the terms that are no stopwords and occur in a document. *)
Lemma vocabulary_members c (t : jsstring) :
  valid c ->
  (In t (keys (frequenciesOf c))
   <-> Stopwords.includes t (_stopwords c) = false
       /\ exists id d, get id (_documents c) = Some d /\ In t (Document._words d)).
Proof.
  intros Hvalid. rewrite DerivedFacts.vocabulary_iff, DerivedFacts.getOr0_frequenciesOf.
  destruct (Stopwords.includes t (_stopwords c)).
  - split; [lia | intros [H _]; discriminate].
  - rewrite documentsContaining_pos. split.
    + intros (d & Hd & Ht). split; [reflexivity|].
      apply in_values_get in Hd as [id Hid]; [|apply Hvalid]. eauto.
    + intros (_ & id & d & Hid & Ht). exists d. split; [|assumption].
      apply in_values_get; [apply Hvalid | eauto].
Qed.

Lemma idfOf_decreasing (N n1 n2 : nat) :
  1 <= n1 -> n1 < n2 -> (idfOf N n2 < idfOf N n1)%R.
Proof.
  intros H1 H12. unfold idfOf.
  assert (0 < INR n1)%R by (apply lt_0_INR; lia).
  assert (INR n1 < INR n2)%R by (apply lt_INR; lia).
  assert (ln (INR n1) < ln (INR n2))%R by (apply ln_increasing; lra).
  lra.
Qed.

Lemma frequency_cases c (t : jsstring) (n : nat) :
  valid c ->
  run (getCollectionFrequency t) c = Ok n ->
  (n = 0 /\ get t (frequenciesOf c) = None)
  \/ (1 <= n /\ get t (frequenciesOf c) = Some n).
Proof.
  intros Hvalid Hn.
  rewrite (MemoFacts.returns_run (GetterFacts.getCollectionFrequency_returns t Hvalid))
    in Hn.
  injection Hn as <-. unfold getOr0.
  destruct (get t (frequenciesOf c)) as [n|] eqn:E; [right | left; auto].
  split; [now apply (DerivedFacts.frequency_get c t) | reflexivity].
Qed.

Lemma weight_of_frequency c (t : jsstring) :
  valid c ->
  run (getCollectionFrequencyWeight t) c
  = Ok (option_map (idfOf (size (_documents c))) (get t (frequenciesOf c))).
Proof.
  intros Hvalid.
  rewrite (MemoFacts.returns_run
             (GetterFacts.getCollectionFrequencyWeight_returns t Hvalid)).
  now rewrite DerivedFacts.get_weightsOf.
Qed.

End VocabularyFacts.

(** X12: [getTerms] has no repetition, and a term is in it exactly when it is
    no stopword and some document of the corpus has it among its words. *)
Theorem terms_are_the_vocabulary (c : Corpus.t) (terms : list jsstring)
    (Hvalid : CorpusState.valid c)
    (Hterms : Corpus.run Corpus.getTerms c = Ok terms) :
  NoDup terms
  /\ (forall t,
        In t terms <->
        Stopwords.includes t (Corpus._stopwords c) = false
        /\ exists id d,
             Corpus.run (Corpus.getDocument id) c = Ok (Some d)
             /\ In t (Document.getUniqueTerms d)).
Proof.
  rewrite (MemoFacts.returns_run (GetterFacts.getTerms_returns Hvalid)) in Hterms.
  injection Hterms as <-. split; [apply DerivedFacts.frequenciesOf_NoDup|].
  intros t. rewrite (VocabularyFacts.vocabulary_members t Hvalid).
  split; intros (Hstop & id & d & Hd & Ht); (split; [assumption|]); exists id, d.
  - rewrite (MemoFacts.returns_run (GetterFacts.getDocument_returns id Hvalid)).
    split; [now f_equal | now apply CountFacts.uniqueTerms_in].
  - rewrite (MemoFacts.returns_run (GetterFacts.getDocument_returns id Hvalid)) in Hd.
    split; [congruence | now apply CountFacts.uniqueTerms_in].
Qed.

Lemma terms_are_the_vocabulary_witness :
  exists terms,
    Corpus.run Corpus.getTerms testCorpus = Ok terms
    /\ NoDup terms
    /\ In (js "tiny") terms
    /\ ~ In (js "and") terms.
Proof.
  destruct (Corpus.run Corpus.getTerms testCorpus) as [terms|] eqn:Hterms;
    [|vm_compute in Hterms; discriminate].
  destruct (@terms_are_the_vocabulary testCorpus terms testCorpus_valid Hterms)
    as [Hnd Hin].
  exists terms. split; [reflexivity|]. split; [exact Hnd|]. split.
  - apply Hin. split; [vm_compute; reflexivity|].
    exists (js "document3"), (testDocument "document3").
    split; [vm_compute; reflexivity|].
    apply (proj1 (JsSet_has_In (js "tiny")
                    (Document.getUniqueTerms (testDocument "document3")))).
    vm_compute. reflexivity.
  - intros H. apply Hin in H as [Hstop _]. vm_compute in Hstop. discriminate.
Defined.

(** X13: the collection frequency of a term that is no stopword is the number
    of documents containing it; it never exceeds the number of documents, and
    it is 0 exactly for the terms outside [getTerms]. *)
Theorem collection_frequency_counts_documents (c : Corpus.t) (t : jsstring) (n : nat)
    (terms identifiers : list jsstring)
    (Hvalid : CorpusState.valid c)
    (Hn : Corpus.run (Corpus.getCollectionFrequency t) c = Ok n)
    (Hterms : Corpus.run Corpus.getTerms c = Ok terms)
    (Hids : Corpus.run Corpus.getDocumentIdentifiers c = Ok identifiers) :
  n <= List.length identifiers
  /\ (Stopwords.includes t (Corpus._stopwords c) = false ->
      n = documentsContaining t (JsMap.values (Corpus._documents c)))
  /\ (n = 0 <-> ~ In t terms).
Proof.
  rewrite (MemoFacts.returns_run (GetterFacts.getCollectionFrequency_returns t Hvalid))
    in Hn.
  rewrite (MemoFacts.returns_run (GetterFacts.getTerms_returns Hvalid)) in Hterms.
  rewrite (MemoFacts.returns_run (GetterFacts.getDocumentIdentifiers_returns Hvalid))
    in Hids.
  injection Hn as <-. injection Hterms as <-. injection Hids as <-.
  split; [|split].
  - rewrite <- JsMapFacts.size_keys. apply DerivedFacts.frequency_le_size.
  - intros Hstop. now rewrite DerivedFacts.getOr0_frequenciesOf, Hstop.
  - rewrite DerivedFacts.vocabulary_iff. lia.
Qed.

Lemma collection_frequency_counts_documents_witness :
  Corpus.run (Corpus.getCollectionFrequency (js "short")) testCorpus = Ok 2
  /\ 2 = documentsContaining (js "short") (JsMap.values (Corpus._documents testCorpus))
  /\ 2 <= 3.
Proof.
  destruct (Corpus.run Corpus.getTerms testCorpus) as [terms|] eqn:Hterms;
    [|vm_compute in Hterms; discriminate].
  destruct (@collection_frequency_counts_documents testCorpus (js "short") 2 terms
              [js "document1"; js "document2"; js "document3"] testCorpus_valid)
    as (Hle & Hcount & _);
    [vm_compute; reflexivity | exact Hterms | vm_compute; reflexivity |].
  split; [vm_compute; reflexivity|]. split; [|exact Hle].
  apply Hcount. vm_compute. reflexivity.
Defined.

(** X14: the collection frequency weight depends only on the collection
    frequency and decreases with it: of two terms of the vocabulary, the one in
    more documents has the strictly smaller weight, and terms in equally many
    documents have equal weights. *)
Theorem rarer_terms_weigh_more (c : Corpus.t) (t1 t2 : jsstring) (n1 n2 : nat)
    (Hvalid : CorpusState.valid c)
    (H1 : Corpus.run (Corpus.getCollectionFrequency t1) c = Ok n1)
    (H2 : Corpus.run (Corpus.getCollectionFrequency t2) c = Ok n2)
    (Hpos : 1 <= n1)
    (Hle : n1 <= n2) :
  exists w1 w2 : R,
    Corpus.run (Corpus.getCollectionFrequencyWeight t1) c = Ok (Some w1)
    /\ Corpus.run (Corpus.getCollectionFrequencyWeight t2) c = Ok (Some w2)
    /\ (n1 < n2 -> (w2 < w1)%R)
    /\ (n1 = n2 -> w1 = w2).
Proof.
  destruct (VocabularyFacts.frequency_cases t1 Hvalid H1) as [[E _]|[_ G1]]; [lia|].
  destruct (VocabularyFacts.frequency_cases t2 Hvalid H2) as [[E _]|[_ G2]]; [lia|].
  exists (Corpus.idfOf (JsMap.size (Corpus._documents c)) n1),
         (Corpus.idfOf (JsMap.size (Corpus._documents c)) n2).
  rewrite !VocabularyFacts.weight_of_frequency by assumption. rewrite G1, G2.
  split; [reflexivity|]. split; [reflexivity|]. split.
  - intros Hlt. now apply VocabularyFacts.idfOf_decreasing.
  - now intros ->.
Qed.

Lemma rarer_terms_weigh_more_witness :
  exists w1 w2 : R,
    Corpus.run (Corpus.getCollectionFrequencyWeight (js "short")) testCorpus = Ok (Some w1)
    /\ Corpus.run (Corpus.getCollectionFrequencyWeight (js "test")) testCorpus
       = Ok (Some w2)
    /\ (w2 < w1)%R.
Proof.
  destruct (@rarer_terms_weigh_more testCorpus (js "short") (js "test") 2 3
              testCorpus_valid) as (w1 & w2 & Hw1 & Hw2 & Hlt & _);
    [vm_compute; reflexivity | vm_compute; reflexivity | lia | lia |].
  exists w1, w2. split; [exact Hw1|]. split; [exact Hw2|]. apply Hlt. lia.
Defined.

(** X15: [getCollectionFrequencyWeight] returns [null] exactly for the terms of
    collection frequency 0, that is the stopwords and the terms no document
    contains; for every other term it returns a number. *)
Theorem weight_is_null_iff_frequency_is_zero (c : Corpus.t) (t : jsstring) (n : nat)
    (Hvalid : CorpusState.valid c)
    (Hn : Corpus.run (Corpus.getCollectionFrequency t) c = Ok n) :
  (n = 0 <-> Corpus.run (Corpus.getCollectionFrequencyWeight t) c = Ok None)
  /\ (1 <= n <->
      exists w, Corpus.run (Corpus.getCollectionFrequencyWeight t) c = Ok (Some w)).
Proof.
  rewrite VocabularyFacts.weight_of_frequency by assumption.
  destruct (VocabularyFacts.frequency_cases t Hvalid Hn) as [[-> G]|[Hpos G]]; rewrite G;
    simpl; split; split; try lia; try discriminate; eauto.
  intros [w Hw]. discriminate.
Qed.

Lemma weight_is_null_iff_frequency_is_zero_witness :
  Corpus.run (Corpus.getCollectionFrequencyWeight (js "unseen")) testCorpus = Ok None.
Proof.
  destruct (@weight_is_null_iff_frequency_is_zero testCorpus (js "unseen") 0
              testCorpus_valid) as [[Hnull _] _]; [vm_compute; reflexivity|].
  now apply Hnull.
Defined.

(** ** Corpus: document vectors and the tuning constants *)

Module VectorFacts.

Import JsMap JsMapFacts Corpus CorpusState.
Local Open Scope R_scope.

(** The entry of a vocabulary term in the vector of a document. *)
Lemma vector_entry c (identifier t : jsstring) (d : Document.t) (n : nat) :
  valid c ->
  run (getDocument identifier) c = Ok (Some d) ->
  run (getCollectionFrequency t) c = Ok n ->
  (1 <= n)%nat ->
  let idf := idfOf (size (_documents c)) n in
  run (getDocumentVector identifier) c = Ok (Some (vectorFor c d))
  /\ run (getCollectionFrequencyWeight t) c = Ok (Some idf)
  /\ get t (vectorFor c d) = Some (bm25 c d t idf)
  /\ 0 < idf.
Proof.
  intros Hvalid Hd Hn Hpos idf.
  rewrite (MemoFacts.returns_run (GetterFacts.getDocument_returns identifier Hvalid)) in Hd.
  injection Hd as Hd.
  destruct (VocabularyFacts.frequency_cases t Hvalid Hn) as [[E _]|[_ G]]; [lia|].
  split; [apply MemoFacts.returns_run; now apply getDocumentVector_present|].
  split; [rewrite VocabularyFacts.weight_of_frequency by assumption; now rewrite G|].
  split; [rewrite WeightFacts.get_vectorFor; now rewrite G|].
  apply WeightFacts.idfOf_pos; [assumption|].
  pose proof (DerivedFacts.frequency_le_size c t) as Hle.
  unfold getOr0 in Hle. now rewrite G in Hle.
Qed.

Lemma bm25_absent c d t idf :
  Document.getTermFrequency t d = 0%nat -> bm25 c d t idf = 0.
Proof. intros H. unfold bm25. now rewrite H. Qed.

Lemma bm25_nonzero c d t idf :
  bm25 c d t idf <> 0 -> (1 <= Document.getTermFrequency t d)%nat.
Proof.
  intros H. destruct (Document.getTermFrequency t d) eqn:E; [|lia].
  exfalso. apply H. now apply bm25_absent.
Qed.

End VectorFacts.

(** X16: for an identifier the corpus does not have, [getDocument] and
    [getDocumentVector] return [undefined] and [getTopTermsForDocument] returns
    an empty array, whereas [getCommonTerms] with it as first identifier throws
    a [TypeError]; for an identifier of the corpus the vector is defined. *)
Theorem vector_defined_for_known_identifiers (c : Corpus.t) (identifier : jsstring)
    (Hvalid : CorpusState.valid c) :
  (Corpus.run (Corpus.getDocument identifier) c = Ok None ->
   Corpus.run (Corpus.getDocumentVector identifier) c = Ok None
   /\ (forall maxTerms,
         Corpus.run (Corpus.getTopTermsForDocument identifier maxTerms) c = Ok [])
   /\ (forall other maxTerms,
         Corpus.run (Corpus.getCommonTerms identifier other maxTerms) c
         = Throw TypeError))
  /\ (forall d, Corpus.run (Corpus.getDocument identifier) c = Ok (Some d) ->
        exists v, Corpus.run (Corpus.getDocumentVector identifier) c = Ok (Some v)).
Proof.
  rewrite (MemoFacts.returns_run (GetterFacts.getDocument_returns identifier Hvalid)).
  split.
  - intros H. injection H as H. split; [|split].
    + apply MemoFacts.returns_run. now apply getDocumentVector_absent.
    + intros maxTerms. now apply CommonFacts.getTopTermsForDocument_unknown.
    + intros other maxTerms. now apply CommonFacts.getCommonTerms_first_unknown.
  - intros d H. injection H as H. exists (CorpusState.vectorFor c d).
    apply MemoFacts.returns_run.
    apply (@getDocumentVector_present c identifier d Hvalid H).
Qed.

Lemma vector_defined_for_known_identifiers_witness :
  Corpus.run (Corpus.getDocumentVector (js "document4")) testCorpus = Ok None
  /\ Corpus.run (Corpus.getTopTermsForDocument (js "document4") (Some 5)) testCorpus
     = Ok []
  /\ exists v, Corpus.run (Corpus.getDocumentVector (js "document2")) testCorpus
               = Ok (Some v).
Proof.
  destruct (@vector_defined_for_known_identifiers testCorpus (js "document4")
              testCorpus_valid) as [Hunknown _].
  destruct Hunknown as (Hvector & Htop & _); [vm_compute; reflexivity|].
  destruct (@vector_defined_for_known_identifiers testCorpus (js "document2")
              testCorpus_valid) as [_ Hknown].
  split; [exact Hvector|]. split; [apply Htop|].
  apply (Hknown (testDocument "document2")). vm_compute. reflexivity.
Defined.

(** X18: with [b = 0] the document's length plays no part: the weight of a
    term the document contains [tf] times is [idf * tf * (K1 + 1) / (K1 + tf)]. *)
Theorem no_length_normalization_when_b_is_zero (c : Corpus.t) (identifier t : jsstring)
    (d : Document.t) (n : nat)
    (Hvalid : CorpusState.valid c)
    (Hb : Corpus._b c = 0%R)
    (Hdoc : Corpus.run (Corpus.getDocument identifier) c = Ok (Some d))
    (Hcf : Corpus.run (Corpus.getCollectionFrequency t) c = Ok n)
    (Hpos : 1 <= n)
    (Htf : 1 <= Document.getTermFrequency t d) :
  exists (v : JsMap.t R) (idf : R),
    Corpus.run (Corpus.getDocumentVector identifier) c = Ok (Some v)
    /\ Corpus.run (Corpus.getCollectionFrequencyWeight t) c = Ok (Some idf)
    /\ JsMap.get t v
       = Some (idf * INR (Document.getTermFrequency t d) * (Corpus._K1 c + 1)
               / (Corpus._K1 c + INR (Document.getTermFrequency t d)))%R.
Proof.
  destruct (@VectorFacts.vector_entry c identifier t d n Hvalid Hdoc Hcf Hpos)
    as (Hv & Hidf & Hget & _).
  eexists _, _. split; [exact Hv|]. split; [exact Hidf|].
  rewrite Hget. f_equal. unfold CorpusState.bm25. rewrite Hb.
  destruct (Document.getTermFrequency t d =? 0) eqn:E; [apply Nat.eqb_eq in E; lia|].
  f_equal. ring.
Qed.

Lemma no_length_normalization_when_b_is_zero_witness :
  exists (v : JsMap.t R) (idf : R),
    Corpus.run (Corpus.getDocumentVector (js "tea")) unnormalizedCorpus = Ok (Some v)
    /\ JsMap.get (js "tea") v
       = Some (idf * INR 2 * (Corpus._K1 unnormalizedCorpus + 1)
               / (Corpus._K1 unnormalizedCorpus + INR 2))%R.
Proof.
  assert (Document.getTermFrequency (js "tea")
            (Document.new [js "tea"; js "tea"; js "cup"]) = 2) as Htf
    by (vm_compute; reflexivity).
  destruct (@no_length_normalization_when_b_is_zero unnormalizedCorpus (js "tea")
              (js "tea") (Document.new [js "tea"; js "tea"; js "cup"]) 1
              (BuilderFacts.new_valid _ _))
    as (v & idf & Hv & _ & Hget).
  - reflexivity.
  - vm_compute. reflexivity.
  - vm_compute. reflexivity.
  - lia.
  - rewrite Htf. lia.
  - exists v, idf. split; [exact Hv|]. rewrite Htf in Hget. exact Hget.
Defined.

(** X19: with [K1 = 0] and [0 <= b <= 1] the document's length and [b] play no
    part: the weight of a term the document contains [tf] times is
    [(idf * tf) / tf], and two documents that contain the term equally often
    give it the same weight. *)
Theorem length_plays_no_part_when_K1_is_zero (c : Corpus.t) (identifier t : jsstring)
    (d : Document.t) (n : nat)
    (Hvalid : CorpusState.valid c)
    (HK1 : Corpus._K1 c = 0%R)
    (Hb : (0 <= Corpus._b c <= 1)%R)
    (Hdoc : Corpus.run (Corpus.getDocument identifier) c = Ok (Some d))
    (Hcf : Corpus.run (Corpus.getCollectionFrequency t) c = Ok n)
    (Hpos : 1 <= n)
    (Htf : 1 <= Document.getTermFrequency t d) :
  exists (v : JsMap.t R) (idf : R),
    Corpus.run (Corpus.getDocumentVector identifier) c = Ok (Some v)
    /\ Corpus.run (Corpus.getCollectionFrequencyWeight t) c = Ok (Some idf)
    /\ JsMap.get t v
       = Some (idf * INR (Document.getTermFrequency t d)
               / INR (Document.getTermFrequency t d))%R
    /\ (forall identifier' d' v',
          Corpus.run (Corpus.getDocument identifier') c = Ok (Some d') ->
          Corpus.run (Corpus.getDocumentVector identifier') c = Ok (Some v') ->
          Document.getTermFrequency t d' = Document.getTermFrequency t d ->
          JsMap.get t v' = JsMap.get t v).
Proof.
  assert (forall d0,
             Document.getTermFrequency t d0 = Document.getTermFrequency t d ->
             CorpusState.bm25 c d0 t
               (Corpus.idfOf (JsMap.size (Corpus._documents c)) n)
             = (Corpus.idfOf (JsMap.size (Corpus._documents c)) n
                * INR (Document.getTermFrequency t d)
                / INR (Document.getTermFrequency t d))%R) as Hweight.
  { intros d0 E. unfold CorpusState.bm25. rewrite HK1, E.
    destruct (Document.getTermFrequency t d =? 0) eqn:E0;
      [apply Nat.eqb_eq in E0; lia|].
    f_equal; ring. }
  destruct (@VectorFacts.vector_entry c identifier t d n Hvalid Hdoc Hcf Hpos)
    as (Hv & Hidf & Hget & _).
  eexists _, _. split; [exact Hv|]. split; [exact Hidf|]. split.
  - rewrite Hget. f_equal. now apply Hweight.
  - intros identifier' d' v' Hdoc' Hv' E.
    destruct (@VectorFacts.vector_entry c identifier' t d' n Hvalid Hdoc' Hcf Hpos)
      as (Hv'' & _ & Hget' & _).
    rewrite Hv'' in Hv'. apply Ok_Some_inj in Hv'. subst v'.
    rewrite Hget, Hget'. f_equal.
    rewrite (Hweight d' E). symmetry. now apply Hweight.
Qed.

Lemma length_plays_no_part_when_K1_is_zero_witness :
  exists (v : JsMap.t R) (idf : R),
    Corpus.run (Corpus.getDocumentVector (js "tea")) presenceCorpus = Ok (Some v)
    /\ Corpus.run (Corpus.getCollectionFrequencyWeight (js "tea")) presenceCorpus
       = Ok (Some idf)
    /\ JsMap.get (js "tea") v = Some (idf * INR 2 / INR 2)%R.
Proof.
  assert (Document.getTermFrequency (js "tea")
            (Document.new [js "tea"; js "tea"; js "cup"]) = 2) as Htf
    by (vm_compute; reflexivity).
  destruct (@length_plays_no_part_when_K1_is_zero presenceCorpus (js "tea") (js "tea")
              (Document.new [js "tea"; js "tea"; js "cup"]) 1
              (BuilderFacts.new_valid _ _))
    as (v & idf & Hv & Hidf & Hget & _).
  - reflexivity.
  - assert (Corpus._b presenceCorpus = (3 / 4)%R) as -> by reflexivity. lra.
  - vm_compute. reflexivity.
  - vm_compute. reflexivity.
  - lia.
  - rewrite Htf. lia.
  - exists v, idf. split; [exact Hv|]. split; [exact Hidf|].
    rewrite Htf in Hget. exact Hget.
Defined.

(** ** Corpus: top terms and common terms *)

Module RankingFacts.

Import JsMap JsMapFacts Corpus CorpusState.
Local Open Scope R_scope.

Lemma NoDup_firstn {A} (n : nat) (l : list A) : NoDup l -> NoDup (List.firstn n l).
Proof.
  revert l. induction n as [|n IH]; intros [|x l] H; simpl; try constructor.
  - inversion H as [|? ? Hnot Hnd]; subst. intros Hin. apply Hnot.
    now apply (SortFacts.firstn_In n).
  - inversion H; subst. now apply IH.
Qed.

Lemma StronglySorted_firstn {A} (P : A -> A -> Prop) (n : nat) (l : list A) :
  StronglySorted P l -> StronglySorted P (List.firstn n l).
Proof.
  revert l. induction n as [|n IH]; intros [|x l] H; simpl; try constructor.
  - apply IH. now inversion H.
  - inversion H as [|? ? _ Hall]; subst. rewrite Forall_forall in *.
    intros y Hy. apply Hall. now apply (SortFacts.firstn_In n).
Qed.

(** The shape of a ranked list: the first [limit] entries of a stable sort. *)
Lemma ranked_shape (limit : nat) (l : list (jsstring * R)) :
  NoDup (List.map fst l) ->
  let ranked := List.firstn limit (sortBy byScoreDesc l) in
  (List.length ranked <= limit)%nat
  /\ StronglySorted descending ranked
  /\ NoDup (List.map fst ranked)
  /\ (forall p, In p ranked -> In p l)
  /\ ((List.length l <= limit)%nat -> forall p, In p l -> In p ranked).
Proof.
  intros Hnd ranked. unfold ranked.
  split; [apply firstn_le_length|].
  split; [apply StronglySorted_firstn, SortFacts.sortBy_descending|].
  split; [|split].
  - rewrite <- firstn_map. apply NoDup_firstn.
    apply (Permutation_NoDup
             (Permutation_map fst (Permutation_sym (SortFacts.sortBy_perm byScoreDesc l)))).
    exact Hnd.
  - intros p Hp. apply SortFacts.firstn_In in Hp. now apply SortFacts.sortBy_In in Hp.
  - intros Hlen p Hp. rewrite firstn_all2.
    + now apply SortFacts.sortBy_In.
    + now rewrite (Permutation_length (SortFacts.sortBy_perm byScoreDesc l)).
Qed.

(** An entry of a document's vector. *)
Lemma vectorFor_entry c d t w :
  In (t, w) (vectorFor c d) ->
  exists n, get t (frequenciesOf c) = Some n
            /\ w = bm25 c d t (idfOf (size (_documents c)) n).
Proof.
  intros Hin.
  assert (get t (vectorFor c d) = Some w) as Hget.
  { apply in_get_nodup; [apply WeightFacts.vectorFor_NoDup | assumption]. }
  rewrite WeightFacts.get_vectorFor in Hget.
  destruct (get t (frequenciesOf c)) as [n|]; [|discriminate].
  exists n. split; [reflexivity|]. simpl in Hget. congruence.
Qed.

Lemma keepPositive_keys (l : list (jsstring * option R)) :
  NoDup (List.map fst l) -> NoDup (List.map fst (List.flat_map keepPositive l)).
Proof.
  induction l as [|[k o] l IH]; simpl; intros H; [constructor|].
  inversion H as [|? ? Hnot Hnd]; subst. specialize (IH Hnd).
  unfold keepPositive at 1. simpl.
  destruct o as [s|]; [|exact IH]. destruct (positive s); [|exact IH].
  simpl. constructor; [|exact IH].
  intros Hin. apply Hnot. apply in_map_iff in Hin as [[k' s'] [E Hin]]. simpl in E. subst k'.
  apply in_flat_map in Hin as [[k2 o2] [Hin2 Hkeep]].
  unfold keepPositive in Hkeep. simpl in Hkeep.
  destruct o2 as [s2|]; [|destruct Hkeep]. destruct (positive s2); [|destruct Hkeep].
  destruct Hkeep as [E|[]]. injection E as -> _.
  change k with (fst (k, Some s2)). now apply in_map.
Qed.

End RankingFacts.

(** X20: for a document of the corpus, [getTopTermsForDocument] returns at most
    [maxTerms] entries (30 when omitted), in descending order of weight, no
    term twice; each is a vocabulary term the document contains, with its
    positive weight from the document's vector. *)
Theorem top_terms_of_a_document (c : Corpus.t) (identifier : jsstring) (d : Document.t)
    (maxTerms : option nat) (terms : list jsstring) (top : list (jsstring * R))
    (Hvalid : CorpusState.valid c)
    (Hdoc : Corpus.run (Corpus.getDocument identifier) c = Ok (Some d))
    (Hterms : Corpus.run Corpus.getTerms c = Ok terms)
    (Htop : Corpus.run (Corpus.getTopTermsForDocument identifier maxTerms) c = Ok top) :
  let limit := match maxTerms with Some n => n | None => 30 end in
  List.length top <= limit
  /\ StronglySorted descending top
  /\ NoDup (List.map fst top)
  /\ (forall p, In p top ->
        (0 < snd p)%R
        /\ In (fst p) terms
        /\ 1 <= Document.getTermFrequency (fst p) d
        /\ exists v, Corpus.run (Corpus.getDocumentVector identifier) c = Ok (Some v)
                     /\ JsMap.get (fst p) v = Some (snd p)).
Proof.
  intros limit.
  rewrite (MemoFacts.returns_run (GetterFacts.getDocument_returns identifier Hvalid)) in Hdoc.
  injection Hdoc as Hdoc.
  rewrite (MemoFacts.returns_run (GetterFacts.getTerms_returns Hvalid)) in Hterms.
  injection Hterms as <-.
  rewrite (MemoFacts.returns_run
             (@CommonFacts.getTopTermsForDocument_returns c identifier maxTerms d
                Hvalid Hdoc)) in Htop.
  injection Htop as <-. fold limit.
  set (positives := List.filter (fun e : jsstring * R => positive (snd e))
                                (CorpusState.vectorFor c d)).
  assert (NoDup (List.map fst positives)) as Hnd.
  { apply QueryFacts.NoDup_keys_filter. apply WeightFacts.vectorFor_NoDup. }
  destruct (@RankingFacts.ranked_shape limit positives Hnd)
    as (Hlen & Hsorted & Hkeys & Hsub & Hall).
  split; [exact Hlen|]. split; [exact Hsorted|]. split; [exact Hkeys|].
  assert (forall p, In p positives ->
            (0 < snd p)%R /\ In (fst p) (JsMap.keys (CorpusState.frequenciesOf c))
            /\ 1 <= Document.getTermFrequency (fst p) d
            /\ JsMap.get (fst p) (CorpusState.vectorFor c d) = Some (snd p)) as Hmember.
  { intros [t w] Hp. apply filter_In in Hp as [Hin Hpos]. simpl in *.
    apply SortFacts.positive_iff in Hpos.
    destruct (RankingFacts.vectorFor_entry _ _ _ _ Hin) as (n & Hn & Hw).
    split; [exact Hpos|]. split; [now apply (JsMapFacts.get_Some_key t _ Hn)|].
    split.
    - apply (@VectorFacts.bm25_nonzero c d t
               (Corpus.idfOf (JsMap.size (Corpus._documents c)) n)).
      rewrite <- Hw. lra.
    - apply JsMapFacts.in_get_nodup; [apply WeightFacts.vectorFor_NoDup | assumption]. }
  intros p Hp. destruct (Hmember p (Hsub p Hp)) as (Hpos & Hin & Htf & Hget).
  split; [exact Hpos|]. split; [exact Hin|]. split; [exact Htf|].
  exists (CorpusState.vectorFor c d). split; [|exact Hget].
  apply MemoFacts.returns_run.
  apply (@getDocumentVector_present c identifier d Hvalid Hdoc).
Qed.

Lemma top_terms_of_a_document_witness :
  exists top : list (jsstring * R),
    Corpus.run (Corpus.getTopTermsForDocument (js "document3") None) testCorpus = Ok top
    /\ List.length top <= 30
    /\ StronglySorted descending top
    /\ ~ In (js "quite") (List.map fst top).
Proof.
  pose proof (@CommonFacts.getTopTermsForDocument_returns testCorpus (js "document3")
                None (testDocument "document3") testCorpus_valid
                ltac:(vm_compute; reflexivity)) as Hret.
  apply MemoFacts.returns_run in Hret.
  match type of Hret with _ = Ok ?l => remember l as top eqn:Etop end. clear Etop.
  destruct (@top_terms_of_a_document testCorpus (js "document3")
              (testDocument "document3") None
              (List.map js ["test"; "document"; "number"; "quite"; "short"; "also";
                            "three"; "bit"; "different"; "tiny"; "longer"]%string)
              _ testCorpus_valid
              ltac:(vm_compute; reflexivity) ltac:(vm_compute; reflexivity) Hret)
    as (Hlen & Hsorted & _ & Hmember).
  exists top. split; [exact Hret|]. split; [exact Hlen|]. split; [exact Hsorted|].
  intros Hin. destruct (proj1 (in_map_iff fst top (js "quite")) Hin) as [p [Hp Hp']].
  destruct (Hmember p Hp') as (_ & _ & Htf & _).
  rewrite Hp in Htf.
  assert (Document.getTermFrequency (js "quite") (testDocument "document3") = 0)
    as E by (vm_compute; reflexivity).
  rewrite E in Htf. lia.
Defined.

(** X21: for two documents of the corpus, [getCommonTerms] returns at most
    [maxTerms] entries (10 when omitted), in descending order of score, no term
    twice, and every term returned is a vocabulary term that occurs in both
    documents. *)
Theorem common_terms_occur_in_both (c : Corpus.t) (a b : jsstring) (da db : Document.t)
    (maxTerms : option nat) (terms : list jsstring) (common : list (jsstring * R))
    (Hvalid : CorpusState.valid c)
    (Ha : Corpus.run (Corpus.getDocument a) c = Ok (Some da))
    (Hb : Corpus.run (Corpus.getDocument b) c = Ok (Some db))
    (Hterms : Corpus.run Corpus.getTerms c = Ok terms)
    (Hcommon : Corpus.run (Corpus.getCommonTerms a b maxTerms) c = Ok common) :
  let limit := match maxTerms with Some n => n | None => 10 end in
  List.length common <= limit
  /\ StronglySorted descending common
  /\ NoDup (List.map fst common)
  /\ (forall p, In p common ->
        In (fst p) terms
        /\ 1 <= Document.getTermFrequency (fst p) da
        /\ 1 <= Document.getTermFrequency (fst p) db).
Proof.
  intros limit.
  rewrite (MemoFacts.returns_run (GetterFacts.getDocument_returns a Hvalid)) in Ha.
  rewrite (MemoFacts.returns_run (GetterFacts.getDocument_returns b Hvalid)) in Hb.
  injection Ha as Ha. injection Hb as Hb.
  rewrite (MemoFacts.returns_run (GetterFacts.getTerms_returns Hvalid)) in Hterms.
  injection Hterms as <-.
  rewrite (MemoFacts.returns_run
             (@CommonFacts.getCommonTerms_returns c a b maxTerms da db Hvalid Ha Hb))
    in Hcommon.
  injection Hcommon as <-. fold limit. unfold commonTermsOf.
  set (products :=
         List.map (fun entry : jsstring * R =>
                     (fst entry,
                      Corpus.timesLookup (snd entry)
                        (JsMap.get (fst entry) (CorpusState.vectorFor c db))))
                  (CorpusState.vectorFor c da)).
  assert (List.map fst products = JsMap.keys (CorpusState.frequenciesOf c)) as Hkeys.
  { unfold products. rewrite map_map. simpl.
    apply (DerivedFacts.keys_vectorOf c da). }
  assert (NoDup (List.map fst (List.flat_map Corpus.keepPositive products))) as Hnd.
  { apply RankingFacts.keepPositive_keys. rewrite Hkeys.
    apply DerivedFacts.frequenciesOf_NoDup. }
  destruct (@RankingFacts.ranked_shape limit _ Hnd)
    as (Hlen & Hsorted & Hnodup & Hsub & Hall).
  split; [exact Hlen|]. split; [exact Hsorted|]. split; [exact Hnodup|].
  assert (forall t s,
             In (t, s) (List.flat_map Corpus.keepPositive products) <->
             exists wa wb,
               In (t, wa) (CorpusState.vectorFor c da)
               /\ JsMap.get t (CorpusState.vectorFor c db) = Some wb
               /\ s = (wa * wb)%R /\ (0 < s)%R) as Hmember.
  { intros t s. rewrite in_flat_map. split.
    - intros [[k o] [Hprod Hkeep]]. unfold products in Hprod.
      apply in_map_iff in Hprod as [[k1 wa] [E Hin]]. simpl in E. injection E as -> <-.
      unfold Corpus.keepPositive in Hkeep. simpl in Hkeep.
      destruct (JsMap.get k (CorpusState.vectorFor c db)) as [wb|] eqn:Hwb;
        simpl in Hkeep; [|destruct Hkeep].
      destruct (positive (wa * wb)) eqn:Hpos; [|destruct Hkeep].
      destruct Hkeep as [E|[]]. injection E as -> <-.
      exists wa, wb. repeat split; auto. now apply SortFacts.positive_iff.
    - intros (wa & wb & Hin & Hwb & -> & Hpos).
      exists (t, Some (wa * wb)%R). split.
      + unfold products. apply in_map_iff. exists (t, wa). simpl. now rewrite Hwb.
      + unfold Corpus.keepPositive. simpl.
        apply SortFacts.positive_iff in Hpos. rewrite Hpos. now left. }
  intros [t s] Hp. simpl. apply Hsub in Hp. apply Hmember in Hp.
  destruct Hp as (wa & wb & Hin & Hwb & -> & Hpos).
  destruct (RankingFacts.vectorFor_entry _ _ _ _ Hin) as (n & Hn & Hwa).
  apply JsMapFacts.get_Some_in in Hwb.
  destruct (RankingFacts.vectorFor_entry _ _ _ _ Hwb) as (n' & Hn' & Hwb').
  split; [now apply (JsMapFacts.get_Some_key t _ Hn)|]. split.
  - apply (@VectorFacts.bm25_nonzero c da t
             (Corpus.idfOf (JsMap.size (Corpus._documents c)) n)).
    rewrite <- Hwa. intros E. rewrite E in Hpos. lra.
  - apply (@VectorFacts.bm25_nonzero c db t
             (Corpus.idfOf (JsMap.size (Corpus._documents c)) n')).
    rewrite <- Hwb'. intros E. rewrite E in Hpos. lra.
Qed.

Lemma common_terms_occur_in_both_witness :
  exists common : list (jsstring * R),
    Corpus.run (Corpus.getCommonTerms (js "document1") (js "document2") None)
               testCorpus
    = Ok common
    /\ List.length common <= 10
    /\ StronglySorted descending common
    /\ ~ In (js "number") (List.map fst common).
Proof.
  pose proof (@CommonFacts.getCommonTerms_returns testCorpus (js "document1")
                (js "document2") None (testDocument "document1")
                (testDocument "document2") testCorpus_valid
                ltac:(vm_compute; reflexivity) ltac:(vm_compute; reflexivity)) as Hret.
  apply MemoFacts.returns_run in Hret.
  match type of Hret with _ = Ok ?l => remember l as common eqn:Ecommon end.
  clear Ecommon.
  destruct (@common_terms_occur_in_both testCorpus (js "document1") (js "document2")
              (testDocument "document1") (testDocument "document2") None
              (List.map js ["test"; "document"; "number"; "quite"; "short"; "also";
                            "three"; "bit"; "different"; "tiny"; "longer"]%string)
              _ testCorpus_valid
              ltac:(vm_compute; reflexivity) ltac:(vm_compute; reflexivity)
              ltac:(vm_compute; reflexivity) Hret)
    as (Hlen & Hsorted & _ & Hmember).
  exists common. split; [exact Hret|]. split; [exact Hlen|]. split; [exact Hsorted|].
  intros Hin. destruct (proj1 (in_map_iff fst common (js "number")) Hin) as [p [Hp Hp']].
  destruct (Hmember p Hp') as (_ & _ & Htf).
  rewrite Hp in Htf.
  assert (Document.getTermFrequency (js "number") (testDocument "document2") = 0) as E
    by (vm_compute; reflexivity).
  rewrite E in Htf. lia.
Defined.

(** ** Corpus: queries *)

Module MatchFacts.

Import JsMap JsMapFacts Corpus CorpusState.
Local Open Scope R_scope.

(** A sum that is not 0 has a summand that is not 0. *)
Lemma sumOver_nonzero (f : jsstring -> R) (l : list jsstring) :
  sumOver l f <> 0 -> exists t, In t l /\ f t <> 0.
Proof.
  unfold sumOver. induction l as [|x l IH]; simpl; intros H; [now contradiction H|].
  destruct (Req_dec_T (f x) 0) as [Hx|Hx].
  - destruct IH as [t [Ht Hft]]; [rewrite Hx in H; intros E; apply H; lra|].
    exists t. auto.
  - exists x. auto.
Qed.

(** A weight that is not 0 belongs to a vocabulary term the document
    contains. *)
Lemma weightAt_nonzero c d t :
  weightAt (vectorFor c d) t <> 0 ->
  In t (keys (frequenciesOf c)) /\ (1 <= Document.getTermFrequency t d)%nat.
Proof.
  unfold weightAt. rewrite WeightFacts.get_vectorFor.
  destruct (get t (frequenciesOf c)) as [n|] eqn:E; simpl; intros H.
  - split; [now apply (get_Some_key t _ E)|].
    now apply (@VectorFacts.bm25_nonzero c d t (idfOf (size (_documents c)) n)).
  - now contradiction H.
Qed.

End MatchFacts.

(** X22: a query that yields no term returns an empty array and leaves the
    corpus as it was, no memo field computed: a value that is no string, the
    empty string, and a text whose words are all dropped.  A non-empty string
    without a letter throws a [TypeError], also before anything is computed. *)
Theorem query_without_terms (c : Corpus.t) :
  (forall q, (forall s, q <> VString s) ->
             Corpus.getResultsForQuery q c = (Ok [], c))
  /\ Corpus.getResultsForQuery (VString []) c = (Ok [], c)
  /\ (forall s d, TextDocument.new s = Ok d -> Document.getUniqueTerms d = [] ->
                  Corpus.getResultsForQuery (VString s) c = (Ok [], c))
  /\ (forall s, s <> [] -> hasNoLetter s = true ->
                Corpus.getResultsForQuery (VString s) c = (Throw TypeError, c)).
Proof.
  split; [|split; [reflexivity|split]].
  - intros q Hq. destruct q; try reflexivity. exfalso. now apply (Hq s).
  - intros s d Hd Hterms. unfold Corpus.getResultsForQuery.
    rewrite (QueryFacts.queryToUniqueTerms_text s Hd), Hterms. reflexivity.
  - intros s Hs Hno. unfold Corpus.getResultsForQuery, Corpus._queryToUniqueTerms.
    destruct s as [|u s]; [contradiction|].
    change (0 <? List.length (u :: s)) with true. cbv iota.
    rewrite TextFacts.new_no_letter by assumption. reflexivity.
Qed.

(** X23: every document [getResultsForQuery] returns contains at least one term
    of the query that is no stopword: a document that shares no such term with
    the query is never returned. *)
Theorem query_results_contain_a_query_term (c : Corpus.t) (query : jsstring)
    (q : Document.t) (results : list (jsstring * R))
    (Hvalid : CorpusState.valid c)
    (Hquery : TextDocument.new query = Ok q)
    (Hresults : Corpus.run (Corpus.getResultsForQuery (VString query)) c = Ok results) :
  forall identifier,
    In identifier (List.map fst results) ->
    exists d t,
      Corpus.run (Corpus.getDocument identifier) c = Ok (Some d)
      /\ In t (Document.getUniqueTerms q)
      /\ Stopwords.includes t (Corpus._stopwords c) = false
      /\ In t (Document.getUniqueTerms d).
Proof.
  intros identifier Hin.
  pose proof (QueryFacts.queryToUniqueTerms_text query Hquery) as Hq.
  destruct (Document.getUniqueTerms q) as [|t0 terms] eqn:Hterms.
  { unfold Corpus.run, Corpus.getResultsForQuery in Hresults.
    rewrite Hq in Hresults. simpl in Hresults.
    apply Ok_inj in Hresults. subst results. destruct Hin. }
  rewrite <- Hterms in *.
  assert (Document.getUniqueTerms q <> []) as Hne by (rewrite Hterms; discriminate).
  rewrite (MemoFacts.returns_run
             (@QueryFacts.getResultsForQuery_returns c (VString query) _ Hvalid Hq Hne))
    in Hresults.
  apply Ok_inj in Hresults. subst results. unfold resultsOf in Hin.
  apply in_map_iff in Hin as [[id s] [E Hp]]. simpl in E. subst id.
  apply SortFacts.sortBy_In in Hp. apply filter_In in Hp as [Hp Hpos].
  apply in_map_iff in Hp as [[id d] [E Hd]]. simpl in E. injection E as -> <-.
  simpl in Hpos. apply SortFacts.positive_iff in Hpos.
  unfold queryScore in Hpos.
  destruct (@MatchFacts.sumOver_nonzero
              (weightAt (CorpusState.vectorFor c d)) (Document.getUniqueTerms q))
    as [t [Ht Hw]]; [lra|].
  apply MatchFacts.weightAt_nonzero in Hw as [Hvocabulary Htf].
  assert (JsMap.get identifier (Corpus._documents c) = Some d) as Hget.
  { apply JsMapFacts.in_get_nodup; [apply Hvalid | assumption]. }
  apply (proj1 (VocabularyFacts.vocabulary_members t Hvalid)) in Hvocabulary.
  destruct Hvocabulary as [Hstop _].
  exists d, t.
  rewrite (MemoFacts.returns_run (GetterFacts.getDocument_returns identifier Hvalid)).
  rewrite Hget. split; [reflexivity|]. split; [exact Ht|]. split; [exact Hstop|].
  apply CountFacts.uniqueTerms_in.
  apply CountFacts.occurrences_pos.
  rewrite <- CountFacts.termFrequency_occurrences. exact Htf.
Qed.

Lemma query_results_contain_a_query_term_witness :
  exists results : list (jsstring * R),
    Corpus.run (Corpus.getResultsForQuery (VString (js "a tiny bit of this"))) testCorpus
    = Ok results
    /\ ~ In (js "document1") (List.map fst results).
Proof.
  destruct (TextDocument.new (js "a tiny bit of this")) as [q|e] eqn:Hq;
    [|vm_compute in Hq; discriminate].
  assert (Document.getUniqueTerms q = [js "tiny"; js "bit"; js "of"; js "this"]) as Hterms.
  { vm_compute in Hq. apply Ok_inj in Hq. rewrite <- Hq. vm_compute. reflexivity. }
  assert (Document.getUniqueTerms q <> []) as Hne by (rewrite Hterms; discriminate).
  pose proof (@QueryFacts.getResultsForQuery_returns testCorpus
                (VString (js "a tiny bit of this")) _ testCorpus_valid
                (QueryFacts.queryToUniqueTerms_text _ Hq) Hne) as Hret.
  apply MemoFacts.returns_run in Hret.
  match type of Hret with _ = Ok ?l => remember l as results eqn:Eresults end.
  clear Eresults.
  pose proof (@query_results_contain_a_query_term testCorpus (js "a tiny bit of this")
                q results testCorpus_valid Hq Hret (js "document1")) as Hsound.
  exists results. split; [exact Hret|].
  intros Hin. destruct (Hsound Hin) as (d & t & Hd & Ht & Hstop & Hind).
  assert (d = testDocument "document1") as ->.
  { assert (Corpus.run (Corpus.getDocument (js "document1")) testCorpus
            = Ok (Some (testDocument "document1"))) as E by (vm_compute; reflexivity).
    rewrite E in Hd. now apply Ok_Some_inj in Hd. }
  rewrite Hterms in Ht.
  apply (proj2 (JsSet_has_In t
                  (Document.getUniqueTerms (testDocument "document1")))) in Hind.
  clear Hsound Hd Hterms Hret Hne Hq Hin.
  destruct Ht as [Ht|[Ht|[Ht|[Ht|[]]]]]; rewrite <- Ht in Hind, Hstop;
    first [ vm_compute in Hind; discriminate Hind
          | vm_compute in Hstop; discriminate Hstop ].
Defined.

(** ** Corpus: memoization *)

Module TransparencyFacts.

Import Corpus CorpusState MemoFacts.
Local Open Scope corpus_scope.

Lemma transparent_ret {A} (a : A) : transparent (ret a).
Proof. split; [intros c Hv; auto | intros; reflexivity]. Qed.

Lemma transparent_throw {A} (e : exn) : transparent (@throw A e).
Proof. split; [intros c Hv; auto | intros; reflexivity]. Qed.

Lemma transparent_lift {A} (r : result A) : transparent (lift r).
Proof. split; [intros c Hv; auto | intros; reflexivity]. Qed.

Lemma transparent_bind {A B} (m : M A) (k : A -> M B) :
  transparent m -> (forall a, transparent (k a)) -> transparent (x <- m ;; k x).
Proof.
  intros [Hp Hb] Hk. split.
  - intros c Hv. destruct (Hp c Hv) as [Hv1 Hb1]. unfold after, bind in *.
    destruct (m c) as [[a|e] c1]; simpl in *; [|auto].
    destruct (Hk a) as [Hpk _]. destruct (Hpk c1 Hv1) as [Hv2 Hb2].
    unfold after in *. split; [assumption | congruence].
  - intros c c' Hv Hv' Hbase. pose proof (Hb c c' Hv Hv' Hbase) as Hrun.
    destruct (Hp c Hv) as [Hv1 Hb1]. destruct (Hp c' Hv') as [Hv1' Hb1'].
    unfold run, after, bind in *.
    destruct (m c) as [[a|e] c1], (m c') as [[a'|e'] c1']; simpl in *;
      try discriminate; [|congruence].
    injection Hrun as ->. destruct (Hk a) as [_ Hbk].
    apply Hbk; [assumption | assumption | congruence].
Qed.

Lemma transparent_mapM {A B} (f : A -> M B) (xs : list A) :
  (forall x, transparent (f x)) -> transparent (mapM f xs).
Proof.
  intros Hf. induction xs as [|x xs IH]; simpl; [apply transparent_ret|].
  apply transparent_bind; [apply Hf|]. intros y.
  apply transparent_bind; [exact IH|]. intros ys. apply transparent_ret.
Qed.

Lemma transparent_returns {A} (m : M A) (f : t -> A) :
  (forall c, valid c -> returns m c (f c)) ->
  (forall c c', base c' = base c -> f c' = f c) ->
  transparent m.
Proof.
  intros Hret Hf. split.
  - intros c Hv. exact (returns_after (Hret c Hv)).
  - intros c c' Hv Hv' Hbase.
    rewrite (returns_run (Hret c Hv)), (returns_run (Hret c' Hv')).
    f_equal. now apply Hf.
Qed.

Lemma transparent_getTerms : transparent getTerms.
Proof.
  apply (@transparent_returns _ _ (fun c => JsMap.keys (frequenciesOf c))).
  - intros c Hv. now apply GetterFacts.getTerms_returns.
  - intros c c' H. now rewrite (base_frequenciesOf H).
Qed.

Lemma transparent_getCollectionFrequency term :
  transparent (getCollectionFrequency term).
Proof.
  apply (@transparent_returns _ _ (fun c => getOr0 term (frequenciesOf c))).
  - intros c Hv. now apply GetterFacts.getCollectionFrequency_returns.
  - intros c c' H. now rewrite (base_frequenciesOf H).
Qed.

Lemma transparent_getCollectionFrequencyWeight term :
  transparent (getCollectionFrequencyWeight term).
Proof.
  apply (@transparent_returns _ _ (fun c => JsMap.get term (weightsOf c))).
  - intros c Hv. now apply GetterFacts.getCollectionFrequencyWeight_returns.
  - intros c c' H. now rewrite (base_weightsOf H).
Qed.

Lemma transparent_getDocumentVector identifier :
  transparent (getDocumentVector identifier).
Proof.
  apply (@transparent_returns _ _ (fun c => JsMap.get identifier (vectorsOf c))).
  - intros c Hv. now apply GetterFacts.getDocumentVector_returns.
  - intros c c' H. now rewrite (base_vectorsOf H).
Qed.

Lemma transparent_getDocumentIdentifiers : transparent getDocumentIdentifiers.
Proof.
  apply (@transparent_returns _ _ (fun c => JsMap.keys (_documents c))).
  - intros c Hv. now apply GetterFacts.getDocumentIdentifiers_returns.
  - intros c c' H. apply base_inv in H as (_ & _ & _ & Hd). now rewrite Hd.
Qed.

Lemma transparent_getDocument identifier : transparent (getDocument identifier).
Proof.
  apply (@transparent_returns _ _ (fun c => JsMap.get identifier (_documents c))).
  - intros c Hv. now apply GetterFacts.getDocument_returns.
  - intros c c' H. apply base_inv in H as (_ & _ & _ & Hd). now rewrite Hd.
Qed.

Lemma transparent_getStopwords : transparent getStopwords.
Proof.
  split; [intros c Hv; auto|].
  intros c c' _ _ H. apply base_inv in H as (Hs & _). unfold run, getStopwords, read.
  simpl. now rewrite Hs.
Qed.

Lemma transparent_getTopTermsForDocument identifier maxTerms :
  transparent (getTopTermsForDocument identifier maxTerms).
Proof.
  unfold getTopTermsForDocument.
  apply transparent_bind; [apply transparent_getDocumentVector|].
  intros [v|]; apply transparent_ret.
Qed.

Lemma transparent_getCommonTerms identifier1 identifier2 maxTerms :
  transparent (getCommonTerms identifier1 identifier2 maxTerms).
Proof.
  unfold getCommonTerms.
  apply transparent_bind; [apply transparent_getDocumentVector|]. intros v1.
  apply transparent_bind; [apply transparent_getDocumentVector|]. intros v2.
  destruct v1 as [v1|]; [|apply transparent_throw].
  apply transparent_bind; [apply transparent_lift|]. intros products.
  apply transparent_ret.
Qed.

Lemma transparent_getResultsForQuery query : transparent (getResultsForQuery query).
Proof.
  unfold getResultsForQuery.
  apply transparent_bind; [apply transparent_lift|]. intros terms.
  destruct (List.length terms =? 0); [apply transparent_ret|].
  apply transparent_bind; [apply transparent_getDocumentIdentifiers|].
  intros identifiers.
  apply transparent_bind; [|intros scores; apply transparent_ret].
  apply transparent_mapM. intros d.
  apply transparent_bind; [apply transparent_getDocumentVector|]. intros vector.
  apply transparent_bind; [apply transparent_lift|]. intros score.
  apply transparent_ret.
Qed.

(** *** Nothing is computed twice *)

Lemma stable_ret {A} (a : A) : stable (ret a).
Proof. intros c _. reflexivity. Qed.

Lemma stable_throw {A} (e : exn) : stable (@throw A e).
Proof. intros c _. reflexivity. Qed.

Lemma stable_lift {A} (r : result A) : stable (lift r).
Proof. intros c _. reflexivity. Qed.

Lemma stable_read {A} (field : t -> A) : stable (read field).
Proof. intros c _. reflexivity. Qed.

Lemma stable_bind {A B} (m : M A) (k : A -> M B) :
  stable m -> (forall a, stable (k a)) -> stable (x <- m ;; k x).
Proof.
  intros Hm Hk c Hc. specialize (Hm c Hc). unfold after, bind in *.
  destruct (m c) as [[a|e] c1]; simpl in *; subst c1; [|reflexivity].
  now apply Hk.
Qed.

Lemma stable_mapM {A B} (f : A -> M B) (xs : list A) :
  (forall x, stable (f x)) -> stable (mapM f xs).
Proof.
  intros Hf. induction xs as [|x xs IH]; simpl; [apply stable_ret|].
  apply stable_bind; [apply Hf|]. intros y.
  apply stable_bind; [exact IH|]. intros ys. apply stable_ret.
Qed.

Lemma stable_getTerms : stable getTerms.
Proof.
  intros [sw K1 b docs [cf|] [w|] [dv|]] H; try discriminate. reflexivity.
Qed.

Lemma stable_getCollectionFrequency term : stable (getCollectionFrequency term).
Proof.
  intros [sw K1 b docs [cf|] [w|] [dv|]] H; try discriminate. reflexivity.
Qed.

Lemma stable_getCollectionFrequencyWeight term :
  stable (getCollectionFrequencyWeight term).
Proof.
  intros [sw K1 b docs [cf|] [w|] [dv|]] H; try discriminate. reflexivity.
Qed.

Lemma stable_getDocumentVector identifier : stable (getDocumentVector identifier).
Proof.
  intros [sw K1 b docs [cf|] [w|] [dv|]] H; try discriminate. reflexivity.
Qed.

Lemma stable_getTopTermsForDocument identifier maxTerms :
  stable (getTopTermsForDocument identifier maxTerms).
Proof.
  unfold getTopTermsForDocument.
  apply stable_bind; [apply stable_getDocumentVector|].
  intros [v|]; apply stable_ret.
Qed.

Lemma stable_getCommonTerms identifier1 identifier2 maxTerms :
  stable (getCommonTerms identifier1 identifier2 maxTerms).
Proof.
  unfold getCommonTerms.
  apply stable_bind; [apply stable_getDocumentVector|]. intros v1.
  apply stable_bind; [apply stable_getDocumentVector|]. intros v2.
  destruct v1 as [v1|]; [|apply stable_throw].
  apply stable_bind; [apply stable_lift|]. intros products. apply stable_ret.
Qed.

Lemma stable_getResultsForQuery query : stable (getResultsForQuery query).
Proof.
  unfold getResultsForQuery.
  apply stable_bind; [apply stable_lift|]. intros terms.
  destruct (List.length terms =? 0); [apply stable_ret|].
  apply stable_bind; [unfold getDocumentIdentifiers; intros c _; reflexivity|].
  intros identifiers.
  apply stable_bind; [|intros scores; apply stable_ret].
  apply stable_mapM. intros d.
  apply stable_bind; [apply stable_getDocumentVector|]. intros vector.
  apply stable_bind; [apply stable_lift|]. intros score. apply stable_ret.
Qed.

(** On a corpus that has computed nothing yet, asking for a document vector
    fills all three memo fields. *)
Lemma getDocumentVector_fills identifier c :
  memoFilled c = (false, false, false) ->
  memoFilled (after (getDocumentVector identifier) c) = (true, true, true).
Proof.
  destruct c as [sw K1 b docs [cf|] [w|] [dv|]]; intros H; try discriminate.
  reflexivity.
Qed.

End TransparencyFacts.

(** X24: two corpus objects with the same documents and options answer every
    method alike, whatever each has memoized so far: what a method returns or
    throws does not depend on the calls made before it. *)
Theorem results_independent_of_earlier_calls (c c' : Corpus.t)
    (Hvalid : CorpusState.valid c) (Hvalid' : CorpusState.valid c')
    (Hbase : CorpusState.base c' = CorpusState.base c) :
  Corpus.run Corpus.getTerms c' = Corpus.run Corpus.getTerms c
  /\ Corpus.run Corpus.getDocumentIdentifiers c'
     = Corpus.run Corpus.getDocumentIdentifiers c
  /\ Corpus.run Corpus.getStopwords c' = Corpus.run Corpus.getStopwords c
  /\ (forall term,
        Corpus.run (Corpus.getCollectionFrequency term) c'
        = Corpus.run (Corpus.getCollectionFrequency term) c
        /\ Corpus.run (Corpus.getCollectionFrequencyWeight term) c'
           = Corpus.run (Corpus.getCollectionFrequencyWeight term) c)
  /\ (forall identifier,
        Corpus.run (Corpus.getDocument identifier) c'
        = Corpus.run (Corpus.getDocument identifier) c
        /\ Corpus.run (Corpus.getDocumentVector identifier) c'
           = Corpus.run (Corpus.getDocumentVector identifier) c)
  /\ (forall identifier maxTerms,
        Corpus.run (Corpus.getTopTermsForDocument identifier maxTerms) c'
        = Corpus.run (Corpus.getTopTermsForDocument identifier maxTerms) c)
  /\ (forall identifier1 identifier2 maxTerms,
        Corpus.run (Corpus.getCommonTerms identifier1 identifier2 maxTerms) c'
        = Corpus.run (Corpus.getCommonTerms identifier1 identifier2 maxTerms) c)
  /\ (forall query,
        Corpus.run (Corpus.getResultsForQuery query) c'
        = Corpus.run (Corpus.getResultsForQuery query) c).
Proof.
  split; [now apply (proj2 TransparencyFacts.transparent_getTerms)|].
  split; [now apply (proj2 TransparencyFacts.transparent_getDocumentIdentifiers)|].
  split; [now apply (proj2 TransparencyFacts.transparent_getStopwords)|].
  split.
  { intros term. split.
    - now apply (proj2 (TransparencyFacts.transparent_getCollectionFrequency term)).
    - now apply (proj2 (TransparencyFacts.transparent_getCollectionFrequencyWeight term)). }
  split.
  { intros identifier. split.
    - now apply (proj2 (TransparencyFacts.transparent_getDocument identifier)).
    - now apply (proj2 (TransparencyFacts.transparent_getDocumentVector identifier)). }
  split.
  { intros identifier maxTerms.
    now apply (proj2 (TransparencyFacts.transparent_getTopTermsForDocument
                        identifier maxTerms)). }
  split.
  { intros identifier1 identifier2 maxTerms.
    now apply (proj2 (TransparencyFacts.transparent_getCommonTerms
                        identifier1 identifier2 maxTerms)). }
  intros query.
  now apply (proj2 (TransparencyFacts.transparent_getResultsForQuery query)).
Qed.

Lemma results_independent_of_earlier_calls_witness :
  Corpus.run (Corpus.getCommonTerms (js "document1") (js "document2") None)
             (Corpus.after (Corpus.getResultsForQuery (VString (js "test"))) testCorpus)
  = Corpus.run (Corpus.getCommonTerms (js "document1") (js "document2") None)
               testCorpus.
Proof.
  destruct (proj1 (TransparencyFacts.transparent_getResultsForQuery (VString (js "test")))
              testCorpus testCorpus_valid) as [Hv Hb].
  pose proof (@results_independent_of_earlier_calls testCorpus
                (Corpus.after (Corpus.getResultsForQuery (VString (js "test"))) testCorpus)
                testCorpus_valid Hv Hb) as H.
  destruct H as (_ & _ & _ & _ & _ & _ & Hcommon & _).
  exact (Hcommon (js "document1") (js "document2") None).
Defined.

(** X25: the constructor computes nothing.  On a new corpus [getTerms] and
    [getCollectionFrequency] compute the collection frequencies only,
    [getCollectionFrequencyWeight] the frequencies and the weights, and
    [getDocumentVector], [getTopTermsForDocument] and [getCommonTerms] all
    three; [getDocument], [getDocumentIdentifiers] and [getStopwords] compute
    nothing. *)
Theorem memo_fields_filled_on_demand
    (documents : list (jsstring * Document.t))
    (options : option Corpus.CorpusOptions)
    (term identifier identifier2 : jsstring) (maxTerms : option nat) :
  let c := Corpus.new documents options in
  memoFilled c = (false, false, false)
  /\ memoFilled (Corpus.after Corpus.getTerms c) = (true, false, false)
  /\ memoFilled (Corpus.after (Corpus.getCollectionFrequency term) c)
     = (true, false, false)
  /\ memoFilled (Corpus.after (Corpus.getCollectionFrequencyWeight term) c)
     = (true, true, false)
  /\ memoFilled (Corpus.after (Corpus.getDocumentVector identifier) c)
     = (true, true, true)
  /\ memoFilled (Corpus.after (Corpus.getTopTermsForDocument identifier maxTerms) c)
     = (true, true, true)
  /\ memoFilled (Corpus.after (Corpus.getCommonTerms identifier identifier2 maxTerms) c)
     = (true, true, true)
  /\ Corpus.after (Corpus.getDocument identifier) c = c
  /\ Corpus.after Corpus.getDocumentIdentifiers c = c
  /\ Corpus.after Corpus.getStopwords c = c.
Proof.
  intros c.
  assert (memoFilled c = (false, false, false)) as Hnew by reflexivity.
  pose proof (@TransparencyFacts.getDocumentVector_fills identifier c Hnew) as Hfill.
  split; [exact Hnew|].
  split; [reflexivity|]. split; [reflexivity|]. split; [reflexivity|].
  split; [exact Hfill|].
  split.
  { unfold Corpus.getTopTermsForDocument, Corpus.after, Corpus.bind in *.
    destruct (Corpus.getDocumentVector identifier c) as [[[v|]|e] c1]; exact Hfill. }
  split; [|repeat split].
  unfold Corpus.getCommonTerms.
  set (rest := fun vector1 : option (JsMap.t R) => _).
  unfold Corpus.after, Corpus.bind in *.
  destruct (Corpus.getDocumentVector identifier c) as [[v1|e] c1]; simpl in *;
    [|exact Hfill].
  subst rest. cbv beta. unfold Corpus.bind.
  assert (Corpus.after (Corpus.getDocumentVector identifier2) c1 = c1) as Hsame
    by now apply TransparencyFacts.stable_getDocumentVector.
  unfold Corpus.after in Hsame.
  destruct (Corpus.getDocumentVector identifier2 c1) as [[v2|e] c2]; simpl in *;
    subst c2; [|exact Hfill].
  destruct v1 as [v1|]; [|exact Hfill].
  unfold Corpus.lift.
  destruct (mapR _ _); exact Hfill.
Qed.

(** X26: once all three memo fields are filled, no method computes anything
    again or changes the corpus object in any way. *)
Theorem no_recomputation_once_filled (c : Corpus.t)
    (Hfilled : memoFilled c = (true, true, true)) :
  Corpus.after Corpus.getTerms c = c
  /\ (forall term,
        Corpus.after (Corpus.getCollectionFrequency term) c = c
        /\ Corpus.after (Corpus.getCollectionFrequencyWeight term) c = c)
  /\ (forall identifier, Corpus.after (Corpus.getDocumentVector identifier) c = c)
  /\ (forall identifier maxTerms,
        Corpus.after (Corpus.getTopTermsForDocument identifier maxTerms) c = c)
  /\ (forall identifier1 identifier2 maxTerms,
        Corpus.after (Corpus.getCommonTerms identifier1 identifier2 maxTerms) c = c)
  /\ (forall query, Corpus.after (Corpus.getResultsForQuery query) c = c).
Proof.
  split; [now apply TransparencyFacts.stable_getTerms|].
  split.
  { intros term. split.
    - now apply TransparencyFacts.stable_getCollectionFrequency.
    - now apply TransparencyFacts.stable_getCollectionFrequencyWeight. }
  split; [intros identifier; now apply TransparencyFacts.stable_getDocumentVector|].
  split.
  { intros identifier maxTerms.
    now apply TransparencyFacts.stable_getTopTermsForDocument. }
  split.
  { intros identifier1 identifier2 maxTerms.
    now apply TransparencyFacts.stable_getCommonTerms. }
  intros query. now apply TransparencyFacts.stable_getResultsForQuery.
Qed.

Lemma no_recomputation_once_filled_witness :
  let c := Corpus.after (Corpus.getDocumentVector (js "document1")) testCorpus in
  memoFilled c = (true, true, true)
  /\ Corpus.after (Corpus.getResultsForQuery (VString (js "a tiny bit"))) c = c.
Proof.
  intros c.
  assert (memoFilled c = (true, true, true)) as Hfilled.
  { apply TransparencyFacts.getDocumentVector_fills. vm_compute. reflexivity. }
  split; [exact Hfilled|].
  pose proof (@no_recomputation_once_filled c Hfilled) as H.
  destruct H as (_ & _ & _ & _ & _ & Hquery).
  exact (Hquery (VString (js "a tiny bit"))).
Defined.

(** X27: a corpus built without options has [K1 = 2], [b = 0.75] and an empty
    stopword list, not the default one: its vocabulary is every term of every
    document it holds.  An option that is given replaces its default only. *)
Theorem corpus_without_options (documents : list (jsstring * Document.t)) :
  let c := Corpus.new documents None in
  Corpus._K1 c = 2%R /\ Corpus._b c = (3 / 4)%R
  /\ Corpus.run Corpus.getStopwords c = Ok (Stopwords.new [])
  /\ (forall word, Stopwords.includes word (Corpus._stopwords c) = false)
  /\ (exists terms,
        Corpus.run Corpus.getTerms c = Ok terms
        /\ forall t,
             In t terms <->
             exists id d,
               Corpus.run (Corpus.getDocument id) c = Ok (Some d)
               /\ In t (Document.getUniqueTerms d))
  /\ (forall stopwords K1 b,
        let c' := Corpus.new documents (Some (Corpus.mkOptions stopwords K1 b)) in
        Corpus._stopwords c' = Stopwords.from (Some (match stopwords with
                                                     | Some s => s
                                                     | None => Stopwords.Terms []
                                                     end))
        /\ Corpus._K1 c' = match K1 with Some k => k | None => 2%R end
        /\ Corpus._b c' = match b with Some v => v | None => (3 / 4)%R end
        /\ Corpus._documents c' = Corpus._documents c).
Proof.
  intros c.
  pose proof (BuilderFacts.new_valid documents None) as Hvalid. fold c in Hvalid.
  split; [reflexivity|]. split; [reflexivity|]. split; [reflexivity|].
  split; [reflexivity|]. split.
  - exists (JsMap.keys (CorpusState.frequenciesOf c)).
    split; [apply MemoFacts.returns_run; now apply GetterFacts.getTerms_returns|].
    intros t. rewrite (VocabularyFacts.vocabulary_members t Hvalid).
    split.
    + intros [_ (id & d & Hd & Ht)]. exists id, d.
      rewrite (MemoFacts.returns_run (GetterFacts.getDocument_returns id Hvalid)).
      rewrite Hd. split; [reflexivity|]. now apply CountFacts.uniqueTerms_in.
    + intros (id & d & Hd & Ht).
      rewrite (MemoFacts.returns_run (GetterFacts.getDocument_returns id Hvalid)) in Hd.
      injection Hd as Hd. split; [reflexivity|]. exists id, d.
      split; [assumption|]. now apply CountFacts.uniqueTerms_in.
  - intros [s|] [k|] [v|]; repeat split.
Qed.
